(** * generate_avatar.py: a shallow embedding and its checked properties

    The development follows [src/generate_avatar.py] function by function:
    [parse_color], [parse_features], [shape_and_measure], [make_text_mask],
    [build_avatar], [parse_args] and [main].

    Conventions of the embedding.
    - A Python [int] is a [Z].
    - A Python [float] is an IEEE 754 binary64 value, a [spec_float] of the
      Standard Library used at precision 53 and maximal exponent 1024, so
      every rounding of the source is the one performed here.
    - A Python [str] is a [string]; its characters are read as the code
      points 0..255.
    - A Python [dict] with [str] keys is a [gmap string _].
    - A raised exception is the [Raise] case of [result].
    - The shaping engine, the rasteriser and the image library are outside
      the program: a font is a record of functions, images are not
      represented, and every call into them that has an observable effect is
      recorded as an [event] in a trace.
    - The image library and the file system may refuse a call: whether the
      canvas, a paste, the directory creation or the file write succeeds is
      decided by the [World] the program runs in, and an exception raised in
      there is an [ExternalError] carrying the class name and the message of
      the library. *)

From Stdlib Require Import ZArith Lia Bool List Ascii String.
From Stdlib Require Import Floats.SpecFloat.
From stdpp Require Import base option list gmap strings.

Local Open Scope string_scope.
Local Open Scope list_scope.
Local Open Scope Z_scope.

(** ** Exceptions and results *)

Inductive exn : Type :=
| ValueError (msg arg : string)
| RuntimeError (msg : string)
| OverflowError (msg : string)
| ZeroDivisionError
| FileNotFoundError (path : string)
| FontLoadError (path : string)
| ArgparseError (option_name arg : string)
| ExternalError (cls msg : string).

Inductive result (A : Type) : Type :=
| Return (a : A)
| Raise (e : exn).
Arguments Return {A} a.
Arguments Raise {A} e.

Definition rbind {A B} (r : result A) (k : A → result B) : result B :=
  match r with
  | Return a => k a
  | Raise e => Raise e
  end.

Declare Scope py_scope.
Delimit Scope py_scope with py.
Notation "'let*' x ':=' r 'in' k" := (rbind r (fun x => k))
  (at level 10, x pattern, r at level 100, k at level 200) : py_scope.
Local Open Scope py_scope.

(** ** Python floats: IEEE 754 binary64 *)

Module PyFloat.

Definition prec : Z := 53.
Definition emax : Z := 1024.

Abbreviation float := spec_float.

Definition add : float → float → float := SFadd prec emax.
Definition sub : float → float → float := SFsub prec emax.
Definition mul : float → float → float := SFmul prec emax.
Definition div : float → float → float := SFdiv prec emax.
Definition neg : float → float := SFopp.
Definition ltb : float → float → bool := SFltb.
Definition leb : float → float → bool := SFleb.
Definition eqb : float → float → bool := SFeqb.

Definition pos_inf : float := S754_infinity false.
Definition neg_inf : float := S754_infinity true.
Definition zero : float := S754_zero false.

Definition is_finite (x : float) : bool :=
  match x with
  | S754_zero _ | S754_finite _ _ _ => true
  | _ => false
  end.

(** [float(n)] for an [int] [n]: rounded to nearest, ties to even;
    [OverflowError] when the magnitude exceeds the largest double. *)
Definition of_int (n : Z) : result float :=
  match binary_normalize prec emax n 0 false with
  | S754_infinity _ => Raise (OverflowError "int too large to convert to float")
  | x => Return x
  end.

(** The same conversion for the integers handed over by the C libraries
    (32-bit positions, bearings and bitmap dimensions), which are always in
    range: the conversion is exact and cannot raise. *)
Definition of_cint (n : Z) : float := binary_normalize prec emax n 0 false.

(** [a / b] for two [int]s: the correctly rounded quotient. *)
Definition int_truediv (a b : Z) : result float :=
  if b =? 0 then Raise ZeroDivisionError
  else
    match a with
    | Z0 => Return (S754_zero (b <? 0))
    | _ =>
        match div (S754_finite (a <? 0) (Z.to_pos (Z.abs a)) 0)
                  (S754_finite (b <? 0) (Z.to_pos (Z.abs b)) 0) with
        | S754_infinity _ =>
            Raise (OverflowError "integer division result too large for a float")
        | x => Return x
        end
    end.

(** [int(x)]: truncation towards zero. *)
Definition to_int (x : float) : result Z :=
  match x with
  | S754_zero _ => Return 0
  | S754_finite s m e =>
      let a := if 0 <=? e then Z.shiftl (Zpos m) e else Z.shiftr (Zpos m) (- e) in
      Return (if s then - a else a)
  | S754_infinity _ => Raise (OverflowError "cannot convert float infinity to integer")
  | S754_nan => Raise (ValueError "cannot convert float NaN to integer" "")
  end.

(** [round(x)] with one argument: the nearest integer, ties to even. *)
Definition round (x : float) : result Z :=
  match x with
  | S754_zero _ => Return 0
  | S754_finite s m e =>
      let a :=
        if 0 <=? e then Z.shiftl (Zpos m) e
        else
          let q := Z.shiftr (Zpos m) (- e) in
          let r := Zpos m - Z.shiftl q (- e) in
          let half := Z.shiftl 1 (- e - 1) in
          match r ?= half with
          | Lt => q
          | Gt => q + 1
          | Eq => if Z.even q then q else q + 1
          end in
      Return (if s then - a else a)
  | S754_infinity _ => Raise (OverflowError "cannot convert float infinity to integer")
  | S754_nan => Raise (ValueError "cannot convert float NaN to integer" "")
  end.

(** [min(a, b)] and [max(a, b)] of the builtins: the first argument is kept
    unless the second compares strictly below (above) it. *)
Definition min2 (a b : float) : float := if ltb b a then b else a.
Definition max2 (a b : float) : float := if ltb a b then b else a.

(** A decimal literal [n/100] such as [0.70]: the double nearest to it,
    which is the correctly rounded quotient of the two integers. *)
Definition hundredths (n : Z) : float := div (of_cint n) (of_cint 100).

End PyFloat.

Import PyFloat.

(** ** Python strings

    The string methods the program calls, on code points below 256. Two
    things are left out: the decimal digits of other scripts, which [int]
    also accepts, and the limit on the length of a decimal literal
    ([sys.set_int_max_str_digits]). *)

Module PyStr.

Definition code (c : ascii) : Z := Z.of_N (N_of_ascii c).

(** [str.isspace] on one character, for the code points below 256. *)
Definition is_space (c : ascii) : bool :=
  let n := code c in
  ((9 <=? n) && (n <=? 13)) || ((28 <=? n) && (n <=? 32))
  || (n =? 133) || (n =? 160).

Fixpoint lstrip (s : string) : string :=
  match s with
  | String c s' => if is_space c then lstrip s' else s
  | EmptyString => EmptyString
  end.

Fixpoint rstrip (s : string) : string :=
  match s with
  | String c s' =>
      match rstrip s' with
      | EmptyString => if is_space c then EmptyString else String c EmptyString
      | t => String c t
      end
  | EmptyString => EmptyString
  end.

Definition strip (s : string) : string := rstrip (lstrip s).

Definition len (s : string) : Z := Z.of_nat (String.length s).

(** [s[i:j]] for [0 <= i <= j]. *)
Definition slice (i j : nat) (s : string) : string :=
  String.substring i (j - i) s.

(** [s[1:]] *)
Definition tail (s : string) : string :=
  match s with
  | String _ s' => s'
  | EmptyString => EmptyString
  end.

Definition startswith_char (c : ascii) (s : string) : bool :=
  match s with
  | String c' _ => Ascii.eqb c' c
  | EmptyString => false
  end.

(** [s.split(sep)] for a one-character separator: never empty, keeps
    empty fields. *)
Fixpoint split (sep : ascii) (s : string) : list string :=
  match s with
  | EmptyString => [EmptyString]
  | String c s' =>
      if Ascii.eqb c sep then EmptyString :: split sep s'
      else
        match split sep s' with
        | f :: fs => String c f :: fs
        | [] => [String c EmptyString]
        end
  end.

(** [s.split(sep, 1)] when [sep] occurs in [s]: the text before the first
    separator and the text after it; [None] when [sep] does not occur. *)
Fixpoint split_once (sep : ascii) (s : string) : option (string * string) :=
  match s with
  | EmptyString => None
  | String c s' =>
      if Ascii.eqb c sep then Some (EmptyString, s')
      else
        match split_once sep s' with
        | Some (a, b) => Some (String c a, b)
        | None => None
        end
  end.

(** [sep in s] *)
Fixpoint contains (sep : ascii) (s : string) : bool :=
  match s with
  | EmptyString => false
  | String c s' => Ascii.eqb c sep || contains sep s'
  end.

(** *** [int(s, base)] *)

(** Whitespace as [int] skips it: the ASCII class, and for a text that is
    not pure ASCII the two Latin-1 spaces that are first mapped to [" "]. *)
Definition is_int_space (c : ascii) : bool :=
  let n := code c in
  ((9 <=? n) && (n <=? 13)) || (n =? 32) || (n =? 133) || (n =? 160).

Definition digit_value (c : ascii) : option Z :=
  let n := code c in
  if (48 <=? n) && (n <=? 57) then Some (n - 48)
  else if (97 <=? n) && (n <=? 122) then Some (n - 97 + 10)
  else if (65 <=? n) && (n <=? 90) then Some (n - 65 + 10)
  else None.

Definition digit_in (base : Z) (c : ascii) : option Z :=
  match digit_value c with
  | Some d => if d <? base then Some d else None
  | None => None
  end.

Fixpoint skip_int_space (s : string) : string :=
  match s with
  | String c s' => if is_int_space c then skip_int_space s' else s
  | EmptyString => EmptyString
  end.

(** The digit loop: digits of [base] with single underscores between
    them. [prev_us] tells whether the previous character was an
    underscore, [seen] whether a digit was read. Returns the value and
    the unread rest, or [None] on a doubled or trailing underscore or when
    no digit was read. *)
Fixpoint scan_digits (base : Z) (s : string) (acc : Z) (prev_us seen : bool)
  : option (Z * string) :=
  match s with
  | EmptyString => if prev_us || negb seen then None else Some (acc, s)
  | String c s' =>
      if Ascii.eqb c "_" then
        if prev_us then None else scan_digits base s' acc true seen
      else
        match digit_in base c with
        | Some d => scan_digits base s' (acc * base + d) false true
        | None => if prev_us || negb seen then None else Some (acc, s)
        end
  end.

(** The base prefix that [int(s, 16)] accepts: ["0x"] or ["0X"], and one
    underscore after it. *)
Definition skip_prefix (base : Z) (s : string) : string :=
  match s with
  | String c0 (String c1 s') =>
      if (base =? 16) && Ascii.eqb c0 "0" && (Ascii.eqb c1 "x" || Ascii.eqb c1 "X")
      then match s' with
           | String c2 s'' => if Ascii.eqb c2 "_" then s'' else s'
           | EmptyString => s'
           end
      else s
  | _ => s
  end.

Definition int_literal (base : Z) (s : string) : option Z :=
  let s := skip_int_space s in
  let '(negative, s) :=
    match s with
    | String c s' =>
        if Ascii.eqb c "+" then (false, s')
        else if Ascii.eqb c "-" then (true, s')
        else (false, s)
    | EmptyString => (false, s)
    end in
  let s := skip_prefix base s in
  if startswith_char "_" s then None
  else
    match scan_digits base s 0 false false with
    | Some (v, rest) =>
        match skip_int_space rest with
        | EmptyString => Some (if negative then - v else v)
        | _ => None
        end
    | None => None
    end.

Definition int (base : Z) (s : string) : result Z :=
  match int_literal base s with
  | Some v => Return v
  | None => Raise (ValueError "invalid literal for int()" s)
  end.

(** [str(n)] for an [int]. *)
Definition digit_char (d : Z) : ascii := ascii_of_N (Z.to_N (48 + d)).

Fixpoint str_of_pos_fuel (fuel : nat) (n : Z) (acc : string) : string :=
  match fuel with
  | O => acc
  | S fuel' =>
      let acc' := String (digit_char (n mod 10)) acc in
      if n <? 10 then acc' else str_of_pos_fuel fuel' (n / 10) acc'
  end.

Definition str_of_int (n : Z) : string :=
  let digits := str_of_pos_fuel (S (Z.to_nat (Z.log2 (Z.abs n)))) (Z.abs n) EmptyString in
  if n <? 0 then String "-" digits else digits.

End PyStr.

(** ** [parse_color] *)

Definition color : Type := Z * Z * Z * Z.

Definition parse_color (value : string) (alpha : Z) : result color :=
  let value := PyStr.strip value in
  let value := if PyStr.startswith_char "#" value then PyStr.tail value else value in
  if negb (PyStr.len value =? 6) then
    Raise (ValueError "Expected a 6-digit hex color, got: " value)
  else
    let* r := PyStr.int 16 (PyStr.slice 0 2 value) in
    let* g := PyStr.int 16 (PyStr.slice 2 4 value) in
    let* b := PyStr.int 16 (PyStr.slice 4 6 value) in
    Return (r, g, b, alpha).

(** ** The candidate sizes of the auto-fit search *)

(** [n * x] for an [int] [n] and a [float] [x]. *)
Definition int_times_float (n : Z) (x : float) : result float :=
  let* f := PyFloat.of_int n in Return (PyFloat.mul f x).

(** [max_px = max(220, int(size * 0.70))] *)
Definition max_px (size : Z) : result Z :=
  let* p := int_times_float size (hundredths 70) in
  let* i := PyFloat.to_int p in
  Return (Z.max 220 i).

(** [min_px = max(64, int(size * 0.08))] *)
Definition min_px (size : Z) : result Z :=
  let* p := int_times_float size (hundredths 8) in
  let* i := PyFloat.to_int p in
  Return (Z.max 64 i).

(** [step = max(2, int(size / 170))] *)
Definition step (size : Z) : result Z :=
  let* q := PyFloat.int_truediv size 170 in
  let* i := PyFloat.to_int q in
  Return (Z.max 2 i).

(** [range(start, stop, -step)] for a positive [step]: the CPython length
    computation followed by the elements [start - k * step]. *)
Definition range_down_len (start stop step : Z) : nat :=
  if stop <? start then Z.to_nat ((start - stop - 1) / step + 1) else O.

Definition range_down (start stop step : Z) : list Z :=
  map (λ k, start - Z.of_nat k * step) (seq 0 (range_down_len start stop step)).

(** [range(max_px, min_px - 1, -step)] *)
Definition candidates (size : Z) : result (list Z) :=
  let* hi := max_px size in
  let* lo := min_px size in
  let* st := step size in
  Return (range_down hi (lo - 1) st).

(** ** [parse_features] *)

(** One iteration of the loop over [features_text.split(",")]. Unpacking
    [token.split("=", 1)] into two names cannot fail once ["=" in token]
    holds; the [None] case is the unpacking error of Python. *)
Definition parse_feature_item (features : gmap string Z) (item : string)
  : result (gmap string Z) :=
  let token := PyStr.strip item in
  if String.eqb token "" then Return features
  else if PyStr.contains "=" token then
    match PyStr.split_once "=" token with
    | Some (tag, raw_value) =>
        let* v := PyStr.int 10 (PyStr.strip raw_value) in
        Return (<[PyStr.strip tag := v]> features)
    | None => Raise (ValueError "not enough values to unpack" token)
    end
  else Return (<[token := 1]> features).

Fixpoint parse_features_loop (items : list string) (features : gmap string Z)
  : result (gmap string Z) :=
  match items with
  | [] => Return features
  | item :: rest =>
      let* features' := parse_feature_item features item in
      parse_features_loop rest features'
  end.

Definition parse_features (features_text : string) : result (gmap string Z) :=
  parse_features_loop (PyStr.split "," features_text) ∅.

Definition DEFAULT_FEATURES : string := "calt=1,liga=0,ss02=1,zero=1,ss07=1,aalt=1".

(** What one item of the feature text binds: nothing for a blank item, a
    tag and its value otherwise; raises where the loop body raises. *)
Definition item_binding (item : string) : result (option (string * Z)) :=
  let token := PyStr.strip item in
  if String.eqb token "" then Return None
  else if PyStr.contains "=" token then
    match PyStr.split_once "=" token with
    | Some (tag, raw_value) =>
        let* v := PyStr.int 10 (PyStr.strip raw_value) in
        Return (Some (PyStr.strip tag, v))
    | None => Raise (ValueError "not enough values to unpack" token)
    end
  else Return (Some (token, 1)).

(** ** The external collaborators: shaping engine and rasteriser *)

(** An entry of [buf.glyph_infos]. *)
Record GlyphInfo : Type := { codepoint : Z; cluster : Z }.

(** An entry of [buf.glyph_positions], in font design units. *)
Record GlyphPosition : Type :=
  { x_advance : Z; y_advance : Z; x_offset : Z; y_offset : Z }.

(** [face.glyph] after [face.load_glyph]: the rendered bitmap and its
    bearings. *)
Record Bitmap : Type := { width : Z; rows : Z; buffer : list Byte.byte }.
Record GlyphSlot : Type := { bitmap : Bitmap; bitmap_left : Z; bitmap_top : Z }.

(** One font file as the program sees it through [freetype.Face], [hb.Face]
    and [hb.Font]:
    - [upem]: [hb_face.upem];
    - [hb_shape text features]: the buffer contents after
      [buf.add_str(text)], [buf.guess_segment_properties()] and
      [hb.shape(hb_font, buf, features)] with the font scale set to [upem];
    - [load_glyph px_size glyph_id]: [face.glyph] after
      [face.set_pixel_sizes(0, px_size)] and
      [face.load_glyph(glyph_id, FT_LOAD_RENDER | FT_LOAD_TARGET_NORMAL)];
    - [get_glyph_name glyph_id]: the bytes of the name, [None] when the call
      raises. *)
Record Font : Type := {
  upem : Z;
  hb_shape : string → gmap string Z → list GlyphInfo * list GlyphPosition;
  load_glyph : Z → Z → GlyphSlot;
  get_glyph_name : Z → option string;
}.

(** ** [GlyphPlacement] *)

Module GlyphPlacement.
Record t : Type := make
  { x : float; y : float; width : Z; height : Z; buffer : list Byte.byte }.
End GlyphPlacement.

Definition bbox : Type := float * float * float * float.

(** [bytes.decode("ascii", "ignore")]: the bytes above 127 are dropped. *)
Fixpoint decode_ascii_ignore (s : string) : string :=
  match s with
  | EmptyString => EmptyString
  | String c s' =>
      if PyStr.code c <? 128 then String c (decode_ascii_ignore s')
      else decode_ascii_ignore s'
  end.

(** ** [shape_and_measure] *)

(** The local variables that the loop over the shaped glyphs updates. *)
Record measure_state : Type := {
  pen_x : float;
  placements : list GlyphPlacement.t;
  min_x : float;
  min_y : float;
  max_x : float;
  max_y : float;
  glyph_names : list string;
}.

Definition measure_init : measure_state :=
  {| pen_x := PyFloat.zero; placements := [];
     min_x := pos_inf; min_y := pos_inf; max_x := neg_inf; max_y := neg_inf;
     glyph_names := [] |}.

(** [gx = pen_x + x_offset + glyph.bitmap_left] with
    [x_offset = pos.x_offset * scale] *)
Definition glyph_gx (scale pen : float) (pos : GlyphPosition) (glyph : GlyphSlot) : float :=
  let x_offset := PyFloat.mul (of_cint (x_offset pos)) scale in
  PyFloat.add (PyFloat.add pen x_offset) (of_cint (bitmap_left glyph)).

(** [gy = -y_offset - glyph.bitmap_top] with
    [y_offset = pos.y_offset * scale] *)
Definition glyph_gy (scale : float) (pos : GlyphPosition) (glyph : GlyphSlot) : float :=
  let y_offset := PyFloat.mul (of_cint (y_offset pos)) scale in
  PyFloat.sub (PyFloat.neg y_offset) (of_cint (bitmap_top glyph)).

Definition has_area (w h : Z) : bool := (0 <? w) && (0 <? h).

(** The body of [for info, pos in zip(infos, positions)]. *)
Definition measure_step (font : Font) (px_size : Z) (scale : float)
    (st : measure_state) (ip : GlyphInfo * GlyphPosition) : measure_state :=
  let '(info, pos) := ip in
  let glyph_id := codepoint info in
  let glyph := load_glyph font px_size glyph_id in
  let bm := bitmap glyph in
  let gx := glyph_gx scale (pen_x st) pos glyph in
  let gy := glyph_gy scale pos glyph in
  let grow := has_area (width bm) (rows bm) in
  {| pen_x := PyFloat.add (pen_x st) (PyFloat.mul (of_cint (x_advance pos)) scale);
     placements := placements st ++
       [GlyphPlacement.make gx gy (width bm) (rows bm) (buffer bm)];
     min_x := if grow then min2 (min_x st) gx else min_x st;
     min_y := if grow then min2 (min_y st) gy else min_y st;
     max_x := if grow then max2 (max_x st) (PyFloat.add gx (of_cint (width bm))) else max_x st;
     max_y := if grow then max2 (max_y st) (PyFloat.add gy (of_cint (rows bm))) else max_y st;
     glyph_names := glyph_names st ++
       [match get_glyph_name font glyph_id with
        | Some name => decode_ascii_ignore name
        | None => PyStr.str_of_int glyph_id
        end] |}.

Definition measure_loop (font : Font) (px_size : Z) (scale : float)
    (glyphs : list (GlyphInfo * GlyphPosition)) : measure_state :=
  fold_left (measure_step font px_size scale) glyphs measure_init.

Definition shaped : Type := bbox * list GlyphPlacement.t * list string.

(** [None] is the source's [None]: nothing drawable at this size. *)
Definition measure_result (st : measure_state) : option shaped :=
  if PyFloat.eqb (min_x st) pos_inf then None
  else Some ((min_x st, min_y st, max_x st, max_y st), placements st, glyph_names st).

Definition shape_and_measure (font : Font) (text : string)
    (features : gmap string Z) (px_size : Z) : result (option shaped) :=
  let '(infos, positions) := hb_shape font text features in
  let* scale := int_truediv px_size (upem font) in
  Return (measure_result (measure_loop font px_size scale (combine infos positions))).

(** ** [make_text_mask] *)

(** The mask image is described by its size and by the pastes made into it,
    in order: position and glyph bitmap. Pixel contents belong to the image
    library. *)
Record Mask : Type := {
  mask_size : Z * Z;
  mask_pastes : list (Z * Z * GlyphPlacement.t);
}.

Fixpoint mask_paste_loop (min_x min_y : float) (placements : list GlyphPlacement.t)
  : result (list (Z * Z * GlyphPlacement.t)) :=
  match placements with
  | [] => Return []
  | placement :: rest =>
      if (GlyphPlacement.width placement <=? 0) || (GlyphPlacement.height placement <=? 0)
      then mask_paste_loop min_x min_y rest
      else
        let* x := PyFloat.round (PyFloat.sub (GlyphPlacement.x placement) min_x) in
        let* y := PyFloat.round (PyFloat.sub (GlyphPlacement.y placement) min_y) in
        let* pastes := mask_paste_loop min_x min_y rest in
        Return ((x, y, placement) :: pastes)
  end.

Definition make_text_mask (box : bbox) (placements : list GlyphPlacement.t)
  : result (Mask * (Z * Z)) :=
  let '(min_x, min_y, max_x, max_y) := box in
  let* rw := PyFloat.round (PyFloat.sub max_x min_x) in
  let text_width := Z.max 1 rw in
  let* rh := PyFloat.round (PyFloat.sub max_y min_y) in
  let text_height := Z.max 1 rh in
  let* pastes := mask_paste_loop min_x min_y placements in
  Return ({| mask_size := (text_width, text_height); mask_pastes := pastes |},
          (text_width, text_height)).

(** ** Effects: the trace of calls into the outside world *)

Inductive event : Type :=
| LoadFont (font_path : string)
| ShapeAt (px_size : Z)
| BuildMask (text_width text_height : Z)
| NewCanvas (shape : string) (size margin : Z) (bg_color : color)
| PasteGlow (text_x text_y : Z) (glow_color : color) (glow_blur : float)
| PasteForeground (text_x text_y : Z) (fg_color : color)
| MakeParentDirs (output_path : string)
| SaveImage (output_path : string)
| PrintSummary (output : string) (font_px : Z) (features : gmap string Z)
    (glyphs : list string).

(** A computation: the events it performed, in order, and how it ended. *)
Definition io (A : Type) : Type := list event * result A.

Definition io_ret {A} (a : A) : io A := ([], Return a).
Definition io_raise {A} (e : exn) : io A := ([], Raise e).
Definition io_lift {A} (r : result A) : io A := ([], r).
Definition emit (ev : event) : io unit := ([ev], Return tt).

Definition io_bind {A B} (m : io A) (k : A → io B) : io B :=
  match m with
  | (t1, Return a) => let '(t2, r) := k a in (t1 ++ t2, r)
  | (t1, Raise e) => (t1, Raise e)
  end.

Notation "'do' x '<-' m ';' k" := (io_bind m (fun x => k))
  (at level 10, x pattern, m at level 100, k at level 200) : py_scope.
Notation "'run' m ';' k" := (io_bind m (fun _ => k))
  (at level 10, m at level 100, k at level 200) : py_scope.

(** What the program runs in: what is on disk at a font path, and what the
    image library or the file system raises on a call, if anything, as the
    class name and the message of the exception. *)
Record World : Type := {
  path_exists : string → bool;
  open_font : string → option Font;
  library_error : event → option (string * string);
}.

(** A call into the image library or the file system: it is recorded when
    it is made, and it returns or raises as the world decides. *)
Definition attempt (w : World) (ev : event) : io unit :=
  ([ev],
   match library_error w ev with
   | Some (cls, msg) => Raise (ExternalError cls msg)
   | None => Return tt
   end).

(** ** [build_avatar] *)

Definition chosen : Type := Z * bbox * list GlyphPlacement.t * list string.

(** [width <= target_w and height <= target_h] on a shaping result. *)
Definition fits_box (target_w target_h : float) (s : shaped) : bool :=
  let '(box, _, _) := s in
  let '(min_x, min_y, max_x, max_y) := box in
  let width := PyFloat.sub max_x min_x in
  let height := PyFloat.sub max_y min_y in
  PyFloat.leb width target_w && PyFloat.leb height target_h.

(** Lines 170 to 181: the loop
    [for px_size in range(max_px, min_px - 1, -step)] with its [continue]
    and [break]; [None] is [chosen is None] after the loop. *)
Fixpoint fit_search (font : Font) (text : string) (features : gmap string Z)
    (target_w target_h : float) (sizes : list Z) : io (option chosen) :=
  match sizes with
  | [] => io_ret None
  | px_size :: rest =>
      run emit (ShapeAt px_size);
      do shaped <- io_lift (shape_and_measure font text features px_size);
      match shaped with
      | None => fit_search font text features target_w target_h rest
      | Some (box, placements, names) =>
          if fits_box target_w target_h (box, placements, names)
          then io_ret (Some (px_size, box, placements, names))
          else fit_search font text features target_w target_h rest
      end
  end.

(** Lines 183 to 188, [if chosen is None: ...]: the fixed size 220. *)
Definition fallback (font : Font) (text : string) (features : gmap string Z)
  : io chosen :=
  run emit (ShapeAt 220);
  do shaped <- io_lift (shape_and_measure font text features 220);
  match shaped with
  | None => io_raise (RuntimeError "Shaping produced no drawable glyphs.")
  | Some (box, placements, names) => io_ret (220, box, placements, names)
  end.

(** Lines 170 to 188: the search, then the fallback. *)
Definition choose_size (font : Font) (text : string) (features : gmap string Z)
    (target_w target_h : float) (sizes : list Z) : io chosen :=
  do found <- fit_search font text features target_w target_h sizes;
  match found with
  | Some c => io_ret c
  | None => fallback font text features
  end.

(** Lines 190 to 219: mask, canvas, glow, foreground, file. Each stage
    after the shape test is a group of calls into the image library or the
    file system ([Image.new], [ellipse], [paste], [filter], [mkdir],
    [save]): the stage is recorded when it is entered, and an exception
    raised inside it ends the run there. *)
Definition compose (w : World) (output_path shape : string) (size margin : Z)
    (bg_color fg_color glow_color : color) (glow_blur : float) (c : chosen)
  : io (Z * list string) :=
  let '(font_px, box, placements, glyph_names) := c in
  do (text_mask, (text_width, text_height)) <- io_lift (make_text_mask box placements);
  run emit (BuildMask text_width text_height);
  run (if String.eqb shape "circle" then attempt w (NewCanvas shape size margin bg_color)
       else if String.eqb shape "square"
            then attempt w (NewCanvas shape size margin bg_color)
       else io_raise (ValueError "Unsupported shape: " shape));
  let text_x := (size - text_width) / 2 in
  let text_y := (size - text_height) / 2 in
  run (if PyFloat.ltb PyFloat.zero glow_blur && (0 <? glow_color.2)
       then attempt w (PasteGlow text_x text_y glow_color glow_blur)
       else io_ret tt);
  run attempt w (PasteForeground text_x text_y fg_color);
  run attempt w (MakeParentDirs output_path);
  run attempt w (SaveImage output_path);
  io_ret (font_px, glyph_names).

(** Lines 157 to 161: the font file is opened by FreeType and by HarfBuzz. *)
Definition load_font (w : World) (font_path : string) : io Font :=
  run emit (LoadFont font_path);
  match open_font w font_path with
  | Some font => io_ret font
  | None => io_raise (FontLoadError font_path)
  end.

Definition build_avatar (w : World) (font_path output_path text : string)
    (features : gmap string Z) (shape : string) (size margin : Z)
    (bg_color fg_color glow_color : color) (glow_blur : float)
    (fit_width_ratio fit_height_ratio : float) : io (Z * list string) :=
  do font <- load_font w font_path;
  do target_w <- io_lift (int_times_float size fit_width_ratio);
  do target_h <- io_lift (int_times_float size fit_height_ratio);
  do sizes <- io_lift (candidates size);
  do c <- choose_size font text features target_w target_h sizes;
  compose w output_path shape size margin bg_color fg_color glow_color glow_blur c.

(** ** [parse_args] and [main] *)

(** The command line after [argparse] has split it and applied the [type]
    conversions: an option that was not given is [None]. *)
Record CommandLine : Type := {
  cl_font : option string;
  cl_output : option string;
  cl_text : option string;
  cl_features : option string;
  cl_shape : option string;
  cl_size : option Z;
  cl_margin : option Z;
  cl_fit_width_ratio : option float;
  cl_fit_height_ratio : option float;
  cl_bg : option string;
  cl_fg : option string;
  cl_glow : option string;
  cl_glow_alpha : option Z;
  cl_glow_blur : option float;
}.

Record Namespace : Type := {
  font : string;
  output : string;
  text : string;
  features : string;
  shape : string;
  size : Z;
  margin : Z;
  fit_width_ratio : float;
  fit_height_ratio : float;
  bg : string;
  fg : string;
  glow : string;
  glow_alpha : Z;
  glow_blur : float;
}.

Definition shape_choices : list string := ["circle"; "square"].

(** [choices=["circle", "square"]] *)
Definition check_shape_choice (s : string) : result string :=
  if existsb (String.eqb s) shape_choices then Return s
  else Raise (ArgparseError "--shape" s).

Definition parse_args (cl : CommandLine) : result Namespace :=
  let* shape :=
    match cl_shape cl with
    | Some s => check_shape_choice s
    | None => Return "circle"
    end in
  Return {|
    font := default "/var/lib/fonts/monolisa/ttf/MonoLisa-Bold.ttf" (cl_font cl);
    output := default "avatar-0xB-nord.png" (cl_output cl);
    text := default "{0xB}" (cl_text cl);
    features := default DEFAULT_FEATURES (cl_features cl);
    shape := shape;
    size := default 1024 (cl_size cl);
    margin := default 72 (cl_margin cl);
    fit_width_ratio := default (hundredths 72) (cl_fit_width_ratio cl);
    fit_height_ratio := default (hundredths 36) (cl_fit_height_ratio cl);
    bg := default "#2E3440" (cl_bg cl);
    fg := default "#88C0D0" (cl_fg cl);
    glow := default "#5E81AC" (cl_glow cl);
    glow_alpha := default 190 (cl_glow_alpha cl);
    glow_blur := default (of_cint 8) (cl_glow_blur cl);
  |}.

Definition main (w : World) (cl : CommandLine) : io unit :=
  do args <- io_lift (parse_args cl);
  do feats <- io_lift (parse_features (features args));
  let font_path := font args in
  run (if path_exists w font_path then io_ret tt
       else io_raise (FileNotFoundError font_path));
  do bg_c <- io_lift (parse_color (bg args) 255);
  do fg_c <- io_lift (parse_color (fg args) 255);
  do glow_c <- io_lift (parse_color (glow args) (Z.max 0 (Z.min 255 (glow_alpha args))));
  do (font_px, names) <-
    build_avatar w font_path (output args) (text args) feats (shape args)
      (size args) (margin args) bg_c fg_c glow_c (glow_blur args)
      (fit_width_ratio args) (fit_height_ratio args);
  emit (PrintSummary (output args) font_px feats names).

(** ** A concrete font to run the program on

    A monospaced font of 1000 units per em: every character is one glyph
    whose id is its code point and whose advance is 600 units; the space has
    an empty bitmap, every other glyph a bitmap of [px/32] by [px/16] pixels
    that sits on the baseline; only the capital letters have names. *)

Fixpoint demo_shape_chars (i : Z) (s : string) : list GlyphInfo * list GlyphPosition :=
  match s with
  | EmptyString => ([], [])
  | String c s' =>
      let '(infos, positions) := demo_shape_chars (i + 1) s' in
      ({| codepoint := PyStr.code c; cluster := i |} :: infos,
       {| x_advance := 600; y_advance := 0; x_offset := 0; y_offset := 0 |} :: positions)
  end.

Definition demo_bitmap (w h : Z) : Bitmap :=
  {| width := w; rows := h; buffer := repeat Byte.xff (Z.to_nat (w * h)) |}.

Definition demo_font : Font := {|
  upem := 1000;
  hb_shape := λ text _, demo_shape_chars 0 text;
  load_glyph := λ px_size glyph_id,
    if glyph_id =? 32 then {| bitmap := demo_bitmap 0 0; bitmap_left := 0; bitmap_top := 0 |}
    else {| bitmap := demo_bitmap (px_size / 32) (px_size / 16);
            bitmap_left := 1; bitmap_top := px_size / 16 |};
  get_glyph_name := λ glyph_id,
    if (65 <=? glyph_id) && (glyph_id <=? 90)
    then Some (String (ascii_of_N (Z.to_N glyph_id)) EmptyString) else None;
|}.

(** An image library that checks the canvas as Pillow does: [Image.new]
    refuses a negative size, [ellipse] refuses a box whose right edge is left
    of its left edge. Every other call succeeds. *)
Definition demo_library_error (ev : event) : option (string * string) :=
  match ev with
  | NewCanvas shape size margin _ =>
      if size <? 0 then Some ("ValueError", "Width and height must be >= 0")
      else if String.eqb shape "circle" && (size - margin <? margin)
      then Some ("ValueError", "x1 must be greater than or equal to x0")
      else None
  | _ => None
  end.

Definition demo_world : World := {|
  path_exists := λ p, String.eqb p "demo.ttf";
  open_font := λ p, if String.eqb p "demo.ttf" then Some demo_font else None;
  library_error := demo_library_error;
|}.

(** [build_avatar] on the demo font with the default colours and ratios. *)
Definition demo_build (text shape : string) (size : Z) : io (Z * list string) :=
  build_avatar demo_world "demo.ttf" "out/avatar.png" text ∅ shape size 72
    (46, 52, 64, 255) (136, 192, 208, 255) (94, 129, 172, 190) (of_cint 8)
    (hundredths 72) (hundredths 36).

(** ** Vocabulary of the statements

    Predicates and functions in which the properties below are phrased:
    what a glyph contributes to a shaping pass, which sizes the search
    accepts, what counts as rendering work. *)

Definition is_Return {A} (r : result A) : Prop := ∃ a, r = Return a.

(** The number of binary digits of a mantissa. *)
Definition mantissa_digits (m : positive) : Z := Zpos (digits2_pos m).

Definition is_hex_digit (c : ascii) : bool :=
  match PyStr.digit_in 16 c with Some _ => true | None => false end.

Fixpoint all_chars (P : ascii → bool) (s : string) : bool :=
  match s with
  | EmptyString => true
  | String c s' => P c && all_chars P s'
  end.

(** The strings the option help calls a hex colour: six hexadecimal digits. *)
Definition six_hex_digits (s : string) : bool :=
  (PyStr.len s =? 6) && all_chars is_hex_digit s.

Definition glyph := (GlyphInfo * GlyphPosition)%type.

(** The pen after a glyph: [pen_x += pos.x_advance * scale]. *)
Definition advance (scale : float) (pen : float) (g : glyph) : float :=
  PyFloat.add pen (PyFloat.mul (of_cint (x_advance g.2)) scale).

(** The pen in front of glyph number [i]: all earlier advances, summed from
    [0.0] in shaping order. *)
Definition pen_before (scale : float) (glyphs : list glyph) (i : nat) : float :=
  fold_left (advance scale) (take i glyphs) PyFloat.zero.

(** The placement record of one glyph drawn with the pen at [pen]. *)
Definition placement_of (font : Font) (px_size : Z) (scale pen : float) (g : glyph)
  : GlyphPlacement.t :=
  let slot := load_glyph font px_size (codepoint g.1) in
  GlyphPlacement.make (glyph_gx scale pen g.2 slot) (glyph_gy scale g.2 slot)
    (width (bitmap slot)) (rows (bitmap slot)) (buffer (bitmap slot)).

Fixpoint placements_from (font : Font) (px_size : Z) (scale pen : float)
    (glyphs : list glyph) : list GlyphPlacement.t :=
  match glyphs with
  | [] => []
  | g :: rest =>
      placement_of font px_size scale pen g
        :: placements_from font px_size scale (advance scale pen g) rest
  end.

Definition name_of (font : Font) (g : glyph) : string :=
  match get_glyph_name font (codepoint g.1) with
  | Some name => decode_ascii_ignore name
  | None => PyStr.str_of_int (codepoint g.1)
  end.

Definition placement_has_area (p : GlyphPlacement.t) : bool :=
  has_area (GlyphPlacement.width p) (GlyphPlacement.height p).

(** The box grown by the bitmap of one placement. *)
Definition extend_box (b : bbox) (p : GlyphPlacement.t) : bbox :=
  let '(x0, y0, x1, y1) := b in
  (min2 x0 (GlyphPlacement.x p), min2 y0 (GlyphPlacement.y p),
   max2 x1 (PyFloat.add (GlyphPlacement.x p) (of_cint (GlyphPlacement.width p))),
   max2 y1 (PyFloat.add (GlyphPlacement.y p) (of_cint (GlyphPlacement.height p)))).

Definition empty_box : bbox := (pos_inf, pos_inf, neg_inf, neg_inf).

Definition state_box (st : measure_state) : bbox :=
  (min_x st, min_y st, max_x st, max_y st).

Definition glyph_has_area (font : Font) (px_size : Z) (g : glyph) : bool :=
  let bm := bitmap (load_glyph font px_size (codepoint g.1)) in
  has_area (width bm) (rows bm).

(** The glyphs of one shaping pass: [zip(infos, positions)]. *)
Definition shaped_glyphs (font : Font) (text : string) (features : gmap string Z)
  : list glyph :=
  combine (hb_shape font text features).1 (hb_shape font text features).2.

Definition forget_y_advance (pos : GlyphPosition) : GlyphPosition :=
  {| x_advance := x_advance pos; y_advance := 0;
     x_offset := x_offset pos; y_offset := y_offset pos |}.

(** The demo font with a shaper that reports a vertical advance of 77 units
    for every glyph. *)
Definition demo_font_y_advance : Font := {|
  upem := upem demo_font;
  hb_shape := λ text features,
    ((hb_shape demo_font text features).1,
     map (λ pos, {| x_advance := x_advance pos; y_advance := 77;
                    x_offset := x_offset pos; y_offset := y_offset pos |})
       (hb_shape demo_font text features).2);
  load_glyph := load_glyph demo_font;
  get_glyph_name := get_glyph_name demo_font;
|}.

(** A size is accepted when shaping at it gives a result that fits the
    target box, rejected when it gives nothing or a result that does not
    fit; a pass that raises is neither. *)
Definition accepts (font : Font) (text : string) (features : gmap string Z)
    (target_w target_h : float) (px_size : Z) : bool :=
  match shape_and_measure font text features px_size with
  | Return (Some s) => fits_box target_w target_h s
  | _ => false
  end.

Definition rejects (font : Font) (text : string) (features : gmap string Z)
    (target_w target_h : float) (px_size : Z) : bool :=
  match shape_and_measure font text features px_size with
  | Return (Some s) => negb (fits_box target_w target_h s)
  | Return None => true
  | Raise _ => false
  end.

(** The default target box on a canvas of 1024 pixels. *)
Definition demo_target_w : float := PyFloat.mul (of_cint 1024) (hundredths 72).
Definition demo_target_h : float := PyFloat.mul (of_cint 1024) (hundredths 36).

(** The work done before the canvas exists: loading the font, a shaping
    pass, building the mask. *)
Definition rendering_event (ev : event) : bool :=
  match ev with
  | LoadFont _ | ShapeAt _ | BuildMask _ _ => true
  | _ => false
  end.

(** A run that fails before any such work. *)
Definition fails_before_rendering {A} (r : io A) : Prop :=
  (∃ e, r.2 = Raise e) ∧ Forall (λ ev, rendering_event ev = false) r.1.

Definition valid_shape (shape : string) : bool :=
  String.eqb shape "circle" || String.eqb shape "square".

(** ** Vocabulary of the further properties *)

Definition is_nan (x : float) : bool :=
  match x with S754_nan => true | _ => false end.

(** The float comparisons order the numbers by sign class, then exponent,
    then mantissa: [float_key] is that triple, read in lexicographic
    order. *)
Definition float_key (x : float) : Z * Z * Z :=
  match x with
  | S754_infinity true => (-2, 0, 0)
  | S754_finite true m e => (-1, - e, - Zpos m)
  | S754_zero _ | S754_nan => (0, 0, 0)
  | S754_finite false m e => (1, e, Zpos m)
  | S754_infinity false => (2, 0, 0)
  end.

Definition key_lt (a b : Z * Z * Z) : Prop :=
  a.1.1 < b.1.1 ∨ (a.1.1 = b.1.1 ∧ (a.1.2 < b.1.2 ∨ (a.1.2 = b.1.2 ∧ a.2 < b.2))).

Definition key_le (a b : Z * Z * Z) : Prop :=
  a.1.1 < b.1.1 ∨ (a.1.1 = b.1.1 ∧ (a.1.2 < b.1.2 ∨ (a.1.2 = b.1.2 ∧ a.2 ≤ b.2))).

(** The right and bottom edges of the bitmap of a placement:
    [gx + bitmap.width] and [gy + bitmap.rows]. *)
Definition placement_right (p : GlyphPlacement.t) : float :=
  PyFloat.add (GlyphPlacement.x p) (of_cint (GlyphPlacement.width p)).
Definition placement_bottom (p : GlyphPlacement.t) : float :=
  PyFloat.add (GlyphPlacement.y p) (of_cint (GlyphPlacement.height p)).

(** The four edges are numbers. *)
Definition placement_edges_are_numbers (p : GlyphPlacement.t) : bool :=
  negb (is_nan (GlyphPlacement.x p)) && negb (is_nan (GlyphPlacement.y p)) &&
  negb (is_nan (placement_right p)) && negb (is_nan (placement_bottom p)).

(** The calls [build_avatar] makes after the mask on a valid shape, for a
    mask of [text_width] by [text_height], when none of them raises: canvas,
    glow if any, foreground, directory, file. *)
Definition drawing_events (output_path shape : string) (size margin : Z)
    (bg_color fg_color glow_color : color) (glow_blur : float)
    (text_width text_height : Z) : list event :=
  let text_x := (size - text_width) / 2 in
  let text_y := (size - text_height) / 2 in
  NewCanvas shape size margin bg_color ::
  (if PyFloat.ltb PyFloat.zero glow_blur && (0 <? glow_color.2)
   then [PasteGlow text_x text_y glow_color glow_blur] else []) ++
  [PasteForeground text_x text_y fg_color; MakeParentDirs output_path;
   SaveImage output_path].

(** The calls of a list made in order, up to and including the first one
    that raises. *)
Fixpoint attempt_all (w : World) (calls : list event) : io unit :=
  match calls with
  | [] => io_ret tt
  | ev :: rest => run attempt w ev; attempt_all w rest
  end.

(** The sizes of the shaping passes of a run, in order. *)
Definition shape_passes (tr : list event) : list Z :=
  omap (λ ev, match ev with ShapeAt px_size => Some px_size | _ => None end) tr.

(** The error of the last branch of the shape test in [build_avatar]. *)
Definition is_shape_error (e : exn) : bool :=
  match e with
  | ValueError msg _ => String.eqb msg "Unsupported shape: "
  | _ => false
  end.

(** A result that is not the error of the shape test. *)
Definition no_shape_error {A} (r : result A) : Prop :=
  ∀ e, r = Raise e → is_shape_error e = false.

(** The whole configuration of [main] is valid: what [main] computes before
    it calls [build_avatar]. *)
Definition valid_configuration (w : World) (cl : CommandLine) (args : Namespace)
    (feats : gmap string Z) (bg_c fg_c glow_c : color) : Prop :=
  parse_args cl = Return args ∧
  parse_features (features args) = Return feats ∧
  path_exists w (font args) = true ∧
  parse_color (bg args) 255 = Return bg_c ∧
  parse_color (fg args) 255 = Return fg_c ∧
  parse_color (glow args) (Z.max 0 (Z.min 255 (glow_alpha args))) = Return glow_c.

(** The command line [--font demo.ttf --output out/avatar.png --text TEXT]. *)
Definition demo_command_line (text : string) : CommandLine :=
  {| cl_font := Some "demo.ttf"; cl_output := Some "out/avatar.png";
     cl_text := Some text; cl_features := None; cl_shape := None; cl_size := None;
     cl_margin := None; cl_fit_width_ratio := None; cl_fit_height_ratio := None;
     cl_bg := None; cl_fg := None; cl_glow := None; cl_glow_alpha := None;
     cl_glow_blur := None |}.

(** * Properties *)

(** ** Sample runs *)

(** The products are taken in binary64: [330 * 0.70] is the double just
    below 231, so [int] gives 230 where exact arithmetic would give 231. *)
Example max_px_330_binary64 : max_px 330 = Return 230 ∧ 70 * 330 / 100 = 231.
Proof. vm_compute. auto. Qed.

Example candidates_512 :
  max_px 512 = Return 358 ∧ min_px 512 = Return 64 ∧ step 512 = Return 3.
Proof. vm_compute. auto. Qed.

Example parse_color_nord : parse_color "#2E3440" 255 = Return (46, 52, 64, 255).
Proof. vm_compute. reflexivity. Qed.
Example parse_color_signs : parse_color "-1-2-3" 255 = Return (-1, -2, -3, 255).
Proof. vm_compute. reflexivity. Qed.
Example str_of_int_ex : PyStr.str_of_int 1024 = "1024" ∧ PyStr.str_of_int (-7) = "-7" ∧ PyStr.str_of_int 0 = "0".
Proof. vm_compute. auto. Qed.

(** ** Results *)

Lemma rbind_Return {A B} (r : result A) (k : A → result B) b :
  rbind r k = Return b → ∃ a, r = Return a ∧ k a = Return b.
Proof. destruct r as [a|e]; simpl; intros H; [eauto | discriminate]. Qed.

(** ** [parse_features]: later tokens overwrite earlier ones *)

Lemma parse_feature_item_binding features item :
  parse_feature_item features item =
  match item_binding item with
  | Return None => Return features
  | Return (Some (tag, v)) => Return (<[tag := v]> features)
  | Raise e => Raise e
  end.
Proof.
  unfold parse_feature_item, item_binding.
  destruct (String.eqb (PyStr.strip item) ""); [reflexivity|].
  destruct (PyStr.contains "=" (PyStr.strip item)); [|reflexivity].
  destruct (PyStr.split_once "=" (PyStr.strip item)) as [[tag raw]|]; [|reflexivity].
  destruct (PyStr.int 10 (PyStr.strip raw)); reflexivity.
Qed.

Lemma parse_features_loop_app l1 l2 features :
  parse_features_loop (l1 ++ l2) features =
  rbind (parse_features_loop l1 features) (parse_features_loop l2).
Proof.
  revert features. induction l1 as [|item l1 IH]; intros features; simpl; [reflexivity|].
  destruct (parse_feature_item features item) as [f'|e]; simpl; [apply IH | reflexivity].
Qed.

Lemma parse_features_loop_total items features :
  Forall (λ item, is_Return (item_binding item)) items →
  is_Return (parse_features_loop items features).
Proof.
  intros Hall. revert features.
  induction Hall as [|item items [b Hb] _ IH]; intros features; simpl.
  - by exists features.
  - rewrite parse_feature_item_binding, Hb.
    destruct b as [[tag v]|]; simpl; apply IH.
Qed.

(** Items that do not bind [tag] leave its entry alone. *)
Lemma parse_features_loop_other items features m tag :
  parse_features_loop items features = Return m →
  Forall (λ item, ∀ v, item_binding item ≠ Return (Some (tag, v))) items →
  m !! tag = features !! tag.
Proof.
  intros Hrun Hother. revert features Hrun.
  induction Hother as [|item items Hitem _ IH]; intros features Hrun; simpl in Hrun.
  - by inversion Hrun.
  - apply rbind_Return in Hrun as (f' & Hstep & Hrest).
    rewrite (IH _ Hrest).
    rewrite parse_feature_item_binding in Hstep.
    destruct (item_binding item) as [[[tag' v]|]|e] eqn:Hb; inversion Hstep; subst; [|done].
    rewrite lookup_insert_ne; [done|].
    intros ->. by apply (Hitem v).
Qed.

(** The value of a tag is the one bound by the last item that binds it. *)
Lemma parse_features_loop_last l1 item l2 features tag v :
  Forall (λ item, is_Return (item_binding item)) (l1 ++ item :: l2) →
  item_binding item = Return (Some (tag, v)) →
  Forall (λ item, ∀ v', item_binding item ≠ Return (Some (tag, v'))) l2 →
  ∃ m, parse_features_loop (l1 ++ item :: l2) features = Return m ∧ m !! tag = Some v.
Proof.
  intros Hall Hitem Hlater.
  destruct (parse_features_loop_total _ features Hall) as [m Hm].
  exists m. split; [exact Hm|].
  rewrite parse_features_loop_app in Hm.
  apply rbind_Return in Hm as (f1 & _ & Hm). simpl in Hm.
  apply rbind_Return in Hm as (f2 & Hstep & Hrest).
  rewrite (parse_features_loop_other _ _ _ _ Hrest Hlater).
  rewrite parse_feature_item_binding, Hitem in Hstep. inversion Hstep.
  apply lookup_insert_eq.
Qed.

(** C10. When a tag is bound by more than one item of the feature text,
    [parse_features] returns a mapping that gives the tag the value of the
    last item binding it: the text splits at commas into
    [l1 ++ item1 :: l2 ++ item2 :: l3], [item1] and [item2] both bind [tag],
    nothing in [l3] binds it, every item is well formed, and the result maps
    [tag] to the value of [item2]. *)
Theorem parse_features_last_occurrence_wins
    (features_text : string) (l1 l2 l3 : list string) (item1 item2 tag : string)
    (v1 v2 : Z) :
  PyStr.split "," features_text = l1 ++ item1 :: l2 ++ item2 :: l3 →
  Forall (λ item, is_Return (item_binding item)) (PyStr.split "," features_text) →
  item_binding item1 = Return (Some (tag, v1)) →
  item_binding item2 = Return (Some (tag, v2)) →
  Forall (λ item, ∀ v', item_binding item ≠ Return (Some (tag, v'))) l3 →
  ∃ m, parse_features features_text = Return m ∧ m !! tag = Some v2.
Proof.
  intros Hsplit Hall _ H2 Hlater. unfold parse_features.
  rewrite Hsplit in *.
  replace (l1 ++ item1 :: l2 ++ item2 :: l3) with ((l1 ++ item1 :: l2) ++ item2 :: l3) in *
    by (rewrite <- app_assoc; reflexivity).
  by apply parse_features_loop_last.
Qed.

Lemma parse_features_last_occurrence_wins_witness :
  ∃ m, parse_features "liga=1,calt, liga = 0 ,zero" = Return m ∧ m !! "liga" = Some 0.
Proof.
  apply (parse_features_last_occurrence_wins "liga=1,calt, liga = 0 ,zero"
           [] ["calt"] ["zero"] "liga=1" " liga = 0 " "liga" 1 0).
  - vm_compute. reflexivity.
  - vm_compute PyStr.split. repeat constructor; eexists; vm_compute; reflexivity.
  - vm_compute. reflexivity.
  - vm_compute. reflexivity.
  - repeat constructor. intros v'. vm_compute. discriminate.
Defined.

(** ** [parse_color] *)

(** A hexadecimal digit is none of the characters that [strip], the sign,
    the prefix or the underscore rule of [int] look for. *)
Lemma hex_digit_plain c d :
  PyStr.digit_in 16 c = Some d →
  PyStr.is_space c = false ∧ PyStr.is_int_space c = false ∧
  Ascii.eqb c "+" = false ∧ Ascii.eqb c "-" = false ∧ Ascii.eqb c "_" = false ∧
  Ascii.eqb c "x" = false ∧ Ascii.eqb c "X" = false ∧ Ascii.eqb c "#" = false ∧
  0 ≤ d < 16.
Proof.
  destruct c as [[] [] [] [] [] [] [] []]; vm_compute; intros H;
    try discriminate H; injection H as <-; repeat split; congruence.
Qed.

Lemma int16_two_hex_digits c1 c2 d1 d2 :
  PyStr.digit_in 16 c1 = Some d1 → PyStr.digit_in 16 c2 = Some d2 →
  PyStr.int 16 (String c1 (String c2 "")) = Return (16 * d1 + d2).
Proof.
  intros H1 H2.
  destruct (hex_digit_plain _ _ H1) as (_ & Hs1 & Hp1 & Hm1 & Hu1 & _).
  destruct (hex_digit_plain _ _ H2) as (_ & Hs2 & _ & _ & Hu2 & Hx2 & HX2 & _).
  unfold PyStr.int, PyStr.int_literal.
  cbn [PyStr.skip_int_space]. rewrite Hs1, Hp1, Hm1.
  cbn [PyStr.skip_prefix]. rewrite Hx2, HX2, !andb_false_r.
  cbn [PyStr.startswith_char]. rewrite Hu1.
  cbn [PyStr.scan_digits]. rewrite Hu1, H1, Hu2, H2.
  cbn [orb negb PyStr.skip_int_space].
  f_equal. lia.
Qed.

Lemma rstrip_no_space s :
  all_chars (λ c, negb (PyStr.is_space c)) s = true → PyStr.rstrip s = s.
Proof.
  induction s as [|c s IH]; cbn [all_chars PyStr.rstrip]; [reflexivity|].
  intros [Hc Hs]%andb_true_iff. rewrite (IH Hs).
  destruct s; [|reflexivity].
  by destruct (PyStr.is_space c).
Qed.

Lemma strip_no_space s :
  all_chars (λ c, negb (PyStr.is_space c)) s = true → PyStr.strip s = s.
Proof.
  intros H. unfold PyStr.strip.
  destruct s as [|c s]; [reflexivity|].
  cbn [PyStr.lstrip]. pose proof H as H'. cbn [all_chars] in H'.
  apply andb_true_iff in H' as [Hc _].
  destruct (PyStr.is_space c); [discriminate|].
  by apply rstrip_no_space.
Qed.

(** X1. Six hexadecimal digits, with or without a leading ["#"], are read
    exactly: each pair of digits gives its channel, in 0..255. *)
Lemma parse_color_six_hex_digits c1 c2 c3 c4 c5 c6 d1 d2 d3 d4 d5 d6 alpha :
  PyStr.digit_in 16 c1 = Some d1 → PyStr.digit_in 16 c2 = Some d2 →
  PyStr.digit_in 16 c3 = Some d3 → PyStr.digit_in 16 c4 = Some d4 →
  PyStr.digit_in 16 c5 = Some d5 → PyStr.digit_in 16 c6 = Some d6 →
  let digits := String c1 (String c2 (String c3 (String c4 (String c5 (String c6 ""))))) in
  let channels := (16 * d1 + d2, 16 * d3 + d4, 16 * d5 + d6, alpha) in
  parse_color digits alpha = Return channels ∧
  parse_color (String "#" digits) alpha = Return channels ∧
  0 ≤ 16 * d1 + d2 ≤ 255 ∧ 0 ≤ 16 * d3 + d4 ≤ 255 ∧ 0 ≤ 16 * d5 + d6 ≤ 255.
Proof.
  intros H1 H2 H3 H4 H5 H6 digits channels.
  pose proof (hex_digit_plain _ _ H1) as (Hs1 & _ & _ & _ & _ & _ & _ & Hh1 & ?).
  pose proof (hex_digit_plain _ _ H2) as (Hs2 & _ & _ & _ & _ & _ & _ & _ & ?).
  pose proof (hex_digit_plain _ _ H3) as (Hs3 & _ & _ & _ & _ & _ & _ & _ & ?).
  pose proof (hex_digit_plain _ _ H4) as (Hs4 & _ & _ & _ & _ & _ & _ & _ & ?).
  pose proof (hex_digit_plain _ _ H5) as (Hs5 & _ & _ & _ & _ & _ & _ & _ & ?).
  pose proof (hex_digit_plain _ _ H6) as (Hs6 & _ & _ & _ & _ & _ & _ & _ & ?).
  assert (Hns : all_chars (λ c, negb (PyStr.is_space c)) digits = true).
  { unfold digits. cbn [all_chars]. by rewrite Hs1, Hs2, Hs3, Hs4, Hs5, Hs6. }
  assert (Hbody : ∀ v, v = digits →
    (if negb (PyStr.len v =? 6)
     then Raise (ValueError "Expected a 6-digit hex color, got: " v)
     else rbind (PyStr.int 16 (PyStr.slice 0 2 v)) (λ r,
          rbind (PyStr.int 16 (PyStr.slice 2 4 v)) (λ g,
          rbind (PyStr.int 16 (PyStr.slice 4 6 v)) (λ b,
          Return (r, g, b, alpha))))) = Return channels).
  { intros v ->. unfold digits. cbn [PyStr.len String.length].
    change (negb (Z.of_nat 6 =? 6)) with false. cbv iota.
    change (PyStr.slice 0 2 _) with (String c1 (String c2 "")).
    change (PyStr.slice 2 4 _) with (String c3 (String c4 "")).
    change (PyStr.slice 4 6 _) with (String c5 (String c6 "")).
    rewrite (int16_two_hex_digits _ _ _ _ H1 H2), (int16_two_hex_digits _ _ _ _ H3 H4),
      (int16_two_hex_digits _ _ _ _ H5 H6). reflexivity. }
  repeat split; try lia.
  - unfold parse_color. rewrite (strip_no_space _ Hns). cbv zeta.
    apply Hbody. unfold digits. cbn [PyStr.startswith_char]. by rewrite Hh1.
  - unfold parse_color. rewrite strip_no_space.
    + cbv zeta. apply Hbody. reflexivity.
    + cbn [all_chars] in *. by rewrite Hns.
Qed.

Lemma parse_color_six_hex_digits_witness :
  parse_color "#5E81AC" 190 = Return (94, 129, 172, 190).
Proof.
  destruct (parse_color_six_hex_digits "5" "E" "8" "1" "A" "C" 5 14 8 1 10 12 190)
    as (_ & H & _); [reflexivity..|exact H].
Defined.

(** C3. The string ["-1-2-3"] is not six hexadecimal digits, with or without
    ["#"], yet [parse_color] raises nothing on it: each two-character field
    is a signed literal for [int(_, 16)], and the channels returned are
    negative. *)
Theorem parse_color_accepts_signed_fields :
  six_hex_digits "-1-2-3" = false ∧
  parse_color "-1-2-3" 255 = Return (-1, -2, -3, 255) ∧
  parse_color "#+1 2 3" 255 = Return (1, 2, 3, 255).
Proof. vm_compute. auto. Qed.

(** ** Binary64 rounding: signs and magnitudes

    Enough of the theory of [binary_round_aux] to compare [int(size * 0.08)]
    with [int(size * 0.70)]: rounding keeps the sign and moves the magnitude
    [digits + exponent] of a number by at most one. *)

Lemma mantissa_digits_pos m : 1 ≤ mantissa_digits m.
Proof. unfold mantissa_digits. lia. Qed.

Lemma mantissa_digits_bounds m : 2 ^ (mantissa_digits m - 1) ≤ Zpos m < 2 ^ mantissa_digits m.
Proof.
  unfold mantissa_digits. induction m as [m IH|m IH|]; cbn [digits2_pos].
  - rewrite Pos2Z.inj_succ, Pos2Z.inj_xI.
    replace (Z.succ (Zpos (digits2_pos m)) - 1) with (Z.succ (Zpos (digits2_pos m) - 1)) by lia.
    rewrite !Z.pow_succ_r by lia. lia.
  - rewrite Pos2Z.inj_succ. change (Zpos m~0) with (2 * Zpos m).
    replace (Z.succ (Zpos (digits2_pos m)) - 1) with (Z.succ (Zpos (digits2_pos m) - 1)) by lia.
    rewrite !Z.pow_succ_r by lia. lia.
  - cbn. lia.
Qed.

Lemma mantissa_digits_unique m k : 2 ^ (k - 1) ≤ Zpos m < 2 ^ k → mantissa_digits m = k.
Proof.
  intros [Hlo Hhi]. pose proof (mantissa_digits_bounds m) as [Dlo Dhi].
  pose proof (mantissa_digits_pos m).
  assert (1 ≤ k).
  { destruct (Z.lt_ge_cases k 1); [|done].
    assert (2 ^ k ≤ 2 ^ 0) by (destruct (Z.lt_ge_cases k 0);
      [rewrite Z.pow_neg_r by lia; cbn; lia | apply Z.pow_le_mono_r; lia]).
    cbn in *. lia. }
  destruct (Z.lt_trichotomy (mantissa_digits m) k) as [Hlt|[Heq|Hgt]]; [|done|].
  - assert (2 ^ mantissa_digits m ≤ 2 ^ (k - 1)) by (apply Z.pow_le_mono_r; lia). lia.
  - assert (2 ^ k ≤ 2 ^ (mantissa_digits m - 1)) by (apply Z.pow_le_mono_r; lia). lia.
Qed.

Lemma mantissa_digits_le m k : Zpos m < 2 ^ k → mantissa_digits m ≤ k.
Proof.
  intros Hhi. pose proof (mantissa_digits_bounds m) as [Dlo _].
  destruct (Z.le_gt_cases (mantissa_digits m) k); [done|].
  assert (2 ^ k ≤ 2 ^ (mantissa_digits m - 1)); [|lia].
  destruct (Z.lt_ge_cases k 0); [rewrite (Z.pow_neg_r 2 k) by lia; apply Z.pow_nonneg; lia|].
  apply Z.pow_le_mono_r; lia.
Qed.

Lemma mantissa_digits_ge m k : 2 ^ (k - 1) ≤ Zpos m → k ≤ mantissa_digits m.
Proof.
  intros Hlo. pose proof (mantissa_digits_bounds m) as [_ Dhi]. pose proof (mantissa_digits_pos m).
  destruct (Z.le_gt_cases k (mantissa_digits m)); [done|].
  assert (2 ^ mantissa_digits m ≤ 2 ^ (k - 1)); [|lia].
  apply Z.pow_le_mono_r; lia.
Qed.

Lemma mantissa_digits_mul a b :
  mantissa_digits a + mantissa_digits b - 1 ≤ mantissa_digits (a * b) ≤ mantissa_digits a + mantissa_digits b.
Proof.
  pose proof (mantissa_digits_bounds a) as [Alo Ahi]. pose proof (mantissa_digits_bounds b) as [Blo Bhi].
  pose proof (mantissa_digits_pos a). pose proof (mantissa_digits_pos b).
  split.
  - apply mantissa_digits_ge. rewrite Pos2Z.inj_mul.
    replace (mantissa_digits a + mantissa_digits b - 1 - 1)
      with ((mantissa_digits a - 1) + (mantissa_digits b - 1)) by lia.
    rewrite Z.pow_add_r by lia. nia.
  - apply mantissa_digits_le. rewrite Pos2Z.inj_mul, Z.pow_add_r by lia. nia.
Qed.

Lemma shr_1_m mrs : 0 ≤ shr_m mrs → shr_m (shr_1 mrs) = shr_m mrs / 2.
Proof.
  destruct mrs as [m r s]. cbn [shr_m]. intros Hm. unfold shr_1.
  destruct m as [|[p|p|]|p]; cbn [shr_m]; try lia; try reflexivity.
  - apply (Z.div_unique _ 2 _ 1); lia.
  - apply (Z.div_unique _ 2 _ 0); lia.
Qed.

Lemma iter_shr_1_m p mrs :
  0 ≤ shr_m mrs → shr_m (SpecFloat.iter_pos shr_1 p mrs) = shr_m mrs / 2 ^ Zpos p.
Proof.
  revert mrs. induction p as [p IH|p IH|]; intros mrs Hm; cbn [SpecFloat.iter_pos].
  - assert (Hp : 0 < 2 ^ Zpos p) by (apply Z.pow_pos_nonneg; lia).
    assert (H1 : 0 ≤ shr_m (shr_1 mrs)) by (rewrite shr_1_m by done; apply Z.div_pos; lia).
    assert (H2 : 0 ≤ shr_m (SpecFloat.iter_pos shr_1 p (shr_1 mrs)))
      by (rewrite IH by done; apply Z.div_pos; lia).
    rewrite IH, IH, shr_1_m by done.
    rewrite !Z.div_div by lia. f_equal.
    rewrite Pos2Z.inj_xI, Z.pow_add_r, Z.pow_mul_r by lia.
    change (2 ^ 2) with 4. change (2 ^ 1) with 2.
    replace (4 ^ Zpos p) with (2 ^ Zpos p * 2 ^ Zpos p); [lia|].
    rewrite <- Z.pow_mul_l. reflexivity.
  - assert (Hp : 0 < 2 ^ Zpos p) by (apply Z.pow_pos_nonneg; lia).
    assert (H2 : 0 ≤ shr_m (SpecFloat.iter_pos shr_1 p mrs))
      by (rewrite IH by done; apply Z.div_pos; lia).
    rewrite IH, IH by done.
    rewrite !Z.div_div by lia. f_equal.
    change (Zpos p~0) with (2 * Zpos p). rewrite Z.pow_mul_r by lia.
    change (2 ^ 2) with 4. rewrite <- Z.pow_mul_l. reflexivity.
  - rewrite shr_1_m by done. reflexivity.
Qed.

Lemma round_nearest_even_bounds m l :
  m ≤ round_nearest_even m l ≤ m + 1.
Proof. unfold round_nearest_even. destruct l as [|[]]; try destruct (Z.even m); lia. Qed.

Lemma fexp_eq x : fexp 53 1024 x = Z.max (x - 53) (-1074).
Proof. reflexivity. Qed.

Lemma shr_record_of_loc_m m l : shr_m (shr_record_of_loc m l) = m.
Proof. by destruct l as [|[]]. Qed.

Lemma loc_of_shr_record_of_loc m l : loc_of_shr_record (shr_record_of_loc m l) = l.
Proof. by destruct l as [|[]]. Qed.

(** [shr_fexp]: either nothing happens, or the mantissa is divided by the
    power of two that brings the exponent up to [fexp]. *)
Lemma shr_fexp_spec m e l :
  0 ≤ m →
  ∃ mrs e', shr_fexp 53 1024 m e l = (mrs, e') ∧ 0 ≤ shr_m mrs ∧
    let n := Z.max (Zdigits2 m + e - 53) (-1074) - e in
    (n ≤ 0 → mrs = shr_record_of_loc m l ∧ e' = e) ∧
    (0 < n → shr_m mrs = m / 2 ^ n ∧ e' = e + n).
Proof.
  intros Hm. unfold shr_fexp. rewrite fexp_eq.
  set (n := Z.max (Zdigits2 m + e - 53) (-1074) - e).
  unfold shr. destruct n as [|p|p] eqn:Hn.
  - eexists _, _. split; [reflexivity|]. rewrite shr_record_of_loc_m.
    repeat split; try done; lia.
  - eexists _, _. split; [reflexivity|].
    rewrite iter_shr_1_m by (by rewrite shr_record_of_loc_m).
    rewrite shr_record_of_loc_m.
    split; [apply Z.div_pos; [lia | apply Z.pow_pos_nonneg; lia]|].
    split; [lia|done].
  - eexists _, _. split; [reflexivity|]. rewrite shr_record_of_loc_m.
    repeat split; try done; lia.
Qed.

(** Dividing by a power of two below the leading bit removes that many
    binary digits. *)
Lemma mantissa_digits_shift p k :
  0 ≤ k < mantissa_digits p → ∃ p', Zpos p / 2 ^ k = Zpos p' ∧ mantissa_digits p' = mantissa_digits p - k.
Proof.
  intros Hk. pose proof (mantissa_digits_bounds p) as [Hlo Hhi].
  assert (Hpk : 0 < 2 ^ k) by (apply Z.pow_pos_nonneg; lia).
  assert (Hq : 2 ^ (mantissa_digits p - k - 1) ≤ Zpos p / 2 ^ k < 2 ^ (mantissa_digits p - k)).
  { split.
    - apply Z.div_le_lower_bound; [done|].
      rewrite <- Z.pow_add_r by lia.
      by replace (k + (mantissa_digits p - k - 1)) with (mantissa_digits p - 1) by lia.
    - apply Z.div_lt_upper_bound; [done|].
      rewrite <- Z.pow_add_r by lia.
      by replace (k + (mantissa_digits p - k)) with (mantissa_digits p) by lia. }
  assert (0 < 2 ^ (mantissa_digits p - k - 1)) by (apply Z.pow_pos_nonneg; lia).
  destruct (Zpos p / 2 ^ k) as [|p'|p'] eqn:Hdiv; try lia.
  exists p'. split; [done|]. by apply mantissa_digits_unique.
Qed.

(** The result of rounding [P * 2^E]: its sign is the one given, its
    magnitude (digits plus exponent) is that of the input or one more, and
    it vanishes only below the normal range. *)
Lemma binary_round_aux_magnitude sx P E :
  let d := mantissa_digits P in
  match binary_round_aux 53 1024 sx (Zpos P) E loc_Exact with
  | S754_zero s => s = sx ∧ d + E - 53 < -1074
  | S754_finite s m e =>
      s = sx ∧ mantissa_digits m + e ≤ Z.max (d + E) (-1074) + 1 ∧
      (-1074 ≤ d + E - 53 → d + E ≤ mantissa_digits m + e)
  | S754_infinity s => s = sx
  | S754_nan => False
  end.
Proof.
  intros d. unfold binary_round_aux.
  destruct (shr_fexp_spec (Zpos P) E loc_Exact) as (mrs1 & e1 & -> & Hm1 & H1a & H1b); [lia|].
  cbn [Zdigits2] in H1a, H1b. fold (mantissa_digits P) in H1a, H1b. fold d in H1a, H1b.
  set (n1 := Z.max (d + E - 53) (-1074) - E) in *.
  pose proof (round_nearest_even_bounds (shr_m mrs1) (loc_of_shr_record mrs1)) as Hr.
  set (mx1 := round_nearest_even (shr_m mrs1) (loc_of_shr_record mrs1)) in *.
  destruct (shr_fexp_spec mx1 e1 loc_Exact) as (mrs2 & e2 & -> & Hm2 & H2a & H2b); [lia|].
  pose proof (mantissa_digits_bounds P) as [HPlo HPhi]. fold d in HPlo, HPhi.
  pose proof (mantissa_digits_pos P) as Hd. fold d in Hd.
  (* the first shift *)
  assert (Hstage1 : e1 = Z.max E (Z.max (d + E - 53) (-1074)) ∧
            (n1 ≤ 0 → mx1 = Zpos P) ∧
            (0 < n1 → Zpos P / 2 ^ n1 ≤ mx1 ≤ Zpos P / 2 ^ n1 + 1)).
  { destruct (Z.le_gt_cases n1 0) as [Hn|Hn].
    - destruct (H1a Hn) as [Hmrs ->]. split; [lia|]. split; [|lia]. intros _.
      unfold mx1. rewrite Hmrs, shr_record_of_loc_m, loc_of_shr_record_of_loc. reflexivity.
    - destruct (H1b Hn) as [Hq ->]. split; [lia|]. split; [lia|]. intros _.
      rewrite <- Hq. exact Hr. }
  destruct Hstage1 as (He1 & Hx1a & Hx1b).
  destruct mx1 as [|p1|p1] eqn:Hmx1; [| |lia].
  - (* rounded to zero *)
    assert (Hn2 : Z.max (Zdigits2 0 + e1 - 53) (-1074) - e1 ≤ 0) by (cbn [Zdigits2]; lia).
    destruct (H2a Hn2) as [-> ->]. cbn [shr_record_of_loc shr_m].
    split; [done|].
    destruct (Z.le_gt_cases n1 0) as [Hn|Hn]; [specialize (Hx1a Hn); lia|].
    destruct (Z.lt_ge_cases (d + E - 53) (-1074)) as [|Hnormal]; [done|exfalso].
    assert (n1 = d - 53) by lia.
    destruct (mantissa_digits_shift P n1) as (p' & Hp' & _); [lia|].
    specialize (Hx1b Hn). lia.
  - (* rounded to a positive mantissa *)
    cbn [Zdigits2] in H2a, H2b. fold (mantissa_digits p1) in H2a, H2b.
    set (d1 := mantissa_digits p1) in *.
    pose proof (mantissa_digits_pos p1) as Hd1. fold d1 in Hd1.
    set (n2 := Z.max (d1 + e1 - 53) (-1074) - e1) in *.
    (* the magnitude after the first shift *)
    assert (Hupper : d1 + e1 ≤ Z.max (d + E) (-1074) + 1).
    { destruct (Z.le_gt_cases n1 0) as [Hn|Hn].
      - specialize (Hx1a Hn). injection Hx1a as ->. fold d in d1. lia.
      - specialize (Hx1b Hn).
        assert (d1 ≤ Z.max (d - n1) 0 + 1); [|lia].
        apply mantissa_digits_le.
        destruct (Z.le_gt_cases n1 d) as [Hle|Hgt].
        + assert (Zpos P / 2 ^ n1 < 2 ^ (d - n1)).
          { apply Z.div_lt_upper_bound; [apply Z.pow_pos_nonneg; lia|].
            rewrite <- Z.pow_add_r by lia. by replace (n1 + (d - n1)) with d by lia. }
          replace (Z.max (d - n1) 0 + 1) with (Z.succ (d - n1)) by lia.
          rewrite Z.pow_succ_r by lia.
          assert (0 < 2 ^ (d - n1)) by (apply Z.pow_pos_nonneg; lia). lia.
        + assert (Zpos P / 2 ^ n1 = 0).
          { apply Z.div_small. split; [lia|].
            assert (2 ^ d ≤ 2 ^ n1) by (apply Z.pow_le_mono_r; lia). lia. }
          replace (Z.max (d - n1) 0 + 1) with 1 by lia. change (2 ^ 1) with 2. lia. }
    assert (Hlower : -1074 ≤ d + E - 53 → d + E ≤ d1 + e1).
    { intros Hnormal.
      destruct (Z.le_gt_cases n1 0) as [Hn|Hn].
      - specialize (Hx1a Hn). injection Hx1a as ->. fold d in d1. lia.
      - specialize (Hx1b Hn). assert (n1 = d - 53) by lia.
        destruct (mantissa_digits_shift P n1) as (p' & Hp' & Hdp'); [lia|]. fold d in Hdp'.
        pose proof (mantissa_digits_bounds p') as [Hp'lo _].
        assert (53 ≤ d1); [|lia].
        apply mantissa_digits_ge. rewrite Hdp' in Hp'lo.
        replace (d - n1 - 1) with (53 - 1) in Hp'lo by lia. lia. }
    destruct (Z.le_gt_cases n2 0) as [Hn2|Hn2].
    + destruct (H2a Hn2) as [-> ->]. cbn [shr_record_of_loc shr_m].
      destruct (e1 <=? 1024 - 53); [|done]. fold d1. auto.
    + destruct (H2b Hn2) as [Hq2 ->].
      assert (n2 = d1 - 53) by lia.
      destruct (mantissa_digits_shift p1 n2) as (p2 & Hp2 & Hdp2); [fold d1; lia|].
      rewrite Hq2, Hp2.
      destruct (e1 + n2 <=? 1024 - 53); [|done]. fold d1 in Hdp2.
      rewrite Hdp2. repeat split; try done; lia.
Qed.

(** What [int(x)] is for a finite [x], from its sign and magnitude. *)
Lemma to_int_finite_bounds s m e i :
  PyFloat.to_int (S754_finite s m e) = Return i →
  if s then i ≤ 0
  else 0 ≤ i < 2 ^ Z.max 0 (mantissa_digits m + e) ∧
       (1 ≤ mantissa_digits m + e → 2 ^ (mantissa_digits m + e - 1) ≤ i).
Proof.
  cbn [PyFloat.to_int]. pose proof (mantissa_digits_bounds m) as [Hlo Hhi].
  pose proof (mantissa_digits_pos m) as Hd.
  set (a := if 0 <=? e then Z.shiftl (Zpos m) e else Z.shiftr (Zpos m) (- e)).
  assert (Ha : 0 ≤ a < 2 ^ Z.max 0 (mantissa_digits m + e) ∧
               (1 ≤ mantissa_digits m + e → 2 ^ (mantissa_digits m + e - 1) ≤ a)).
  { unfold a. destruct (Z.leb_spec 0 e) as [He|He].
    - rewrite Z.shiftl_mul_pow2 by done.
      assert (0 < 2 ^ e) by (apply Z.pow_pos_nonneg; lia).
      replace (Z.max 0 (mantissa_digits m + e)) with (mantissa_digits m + e) by lia.
      rewrite Z.pow_add_r by lia. split; [nia|]. intros _.
      replace (mantissa_digits m + e - 1) with ((mantissa_digits m - 1) + e) by lia.
      rewrite Z.pow_add_r by lia. nia.
    - rewrite Z.shiftr_div_pow2 by lia.
      assert (Hpe : 0 < 2 ^ (- e)) by (apply Z.pow_pos_nonneg; lia).
      split; [split; [apply Z.div_pos; lia|]|].
      + destruct (Z.le_gt_cases 0 (mantissa_digits m + e)) as [Hmu|Hmu].
        * replace (Z.max 0 (mantissa_digits m + e)) with (mantissa_digits m + e) by lia.
          apply Z.div_lt_upper_bound; [done|].
          rewrite <- Z.pow_add_r by lia.
          by replace (- e + (mantissa_digits m + e)) with (mantissa_digits m) by lia.
        * replace (Z.max 0 (mantissa_digits m + e)) with 0 by lia.
          rewrite Z.div_small; [done|]. split; [lia|].
          assert (2 ^ mantissa_digits m ≤ 2 ^ (- e)) by (apply Z.pow_le_mono_r; lia). lia.
      + intros Hmu. apply Z.div_le_lower_bound; [done|].
        rewrite <- Z.pow_add_r by lia.
        by replace (- e + (mantissa_digits m + e - 1)) with (mantissa_digits m - 1) by lia. }
  destruct s; intros [= <-]; [lia | exact Ha].
Qed.

Lemma hundredths_70 : hundredths 70 = S754_finite false 6305039478318694 (-53).
Proof. vm_compute. reflexivity. Qed.

Lemma hundredths_8 : hundredths 8 = S754_finite false 5764607523034235 (-56).
Proof. vm_compute. reflexivity. Qed.

(** [float(n)] has the sign of [n]. *)
Lemma of_int_sign n f :
  PyFloat.of_int n = Return f →
  match f with
  | S754_zero _ => True
  | S754_finite s _ _ => s = (n <? 0)
  | _ => False
  end.
Proof.
  unfold PyFloat.of_int, binary_normalize.
  destruct n as [|P|P].
  - by intros [= <-].
  - unfold binary_round.
    destruct (shl_align P 0 _) as [mz ez].
    pose proof (binary_round_aux_magnitude false mz ez) as H.
    change PyFloat.prec with 53. change PyFloat.emax with 1024.
    destruct (binary_round_aux 53 1024 false (Zpos mz) ez loc_Exact); try done;
      intros [= <-]; [done | by destruct H].
  - unfold binary_round.
    destruct (shl_align P 0 _) as [mz ez].
    pose proof (binary_round_aux_magnitude true mz ez) as H.
    change PyFloat.prec with 53. change PyFloat.emax with 1024.
    destruct (binary_round_aux 53 1024 true (Zpos mz) ez loc_Exact); try done;
      intros [= <-]; [done | by destruct H].
Qed.

(** [int(f * c)] for a positive constant [c] of 53 bits: nothing above zero
    for [f <= 0], and otherwise between [2^(mu - 2)] and [2^(mu + 1)], [mu]
    being the magnitude of the exact product. *)
Lemma to_int_mul_bounds s mf ef mc ec i :
  mantissa_digits mc = 53 →
  PyFloat.to_int (PyFloat.mul (S754_finite s mf ef) (S754_finite false mc ec)) = Return i →
  let mu := mantissa_digits mf + ef + ec + 53 in
  if s then i ≤ 0
  else 0 ≤ i < 2 ^ Z.max 0 (mu + 1) ∧ (10 ≤ mu → -1000 ≤ ec → 2 ^ (mu - 2) ≤ i).
Proof.
  intros Hmc. cbv zeta. unfold PyFloat.mul, SFmul. change PyFloat.prec with 53. change PyFloat.emax with 1024.
  rewrite xorb_false_r.
  pose proof (binary_round_aux_magnitude s (mf * mc) (ef + ec)) as H. cbv zeta in H.
  pose proof (mantissa_digits_mul mf mc) as Hdm. rewrite Hmc in Hdm.
  pose proof (mantissa_digits_pos mf).
  destruct (binary_round_aux 53 1024 s (Zpos (mf * mc)) (ef + ec) loc_Exact)
    as [s'|s'| |s' m e]; try done.
  - cbn. intros [= <-]. destruct s; [lia|].
    split; [split; [lia | apply Z.pow_pos_nonneg; lia]|]. lia.
  - destruct H as (-> & Hup & Hlow). intros Hi.
    apply to_int_finite_bounds in Hi. destruct s; [done|].
    destruct Hi as [[Hi0 Hi1] Hi2]. split; [split; [done|]|].
    + eapply Z.lt_le_trans; [exact Hi1|]. apply Z.pow_le_mono_r; lia.
    + intros Hmu Hec. eapply Z.le_trans; [|apply Hi2; lia].
      apply Z.pow_le_mono_r; lia.
Qed.

(** The search range is never inverted. *)
Lemma min_px_le_max_px size hi lo :
  max_px size = Return hi → min_px size = Return lo → lo ≤ hi.
Proof.
  unfold max_px, min_px, int_times_float.
  destruct (PyFloat.of_int size) as [f|e] eqn:Hf; [|discriminate]. cbn [rbind].
  apply of_int_sign in Hf. rewrite hundredths_70, hundredths_8.
  destruct f as [s0| | |s mf ef]; try done.
  - cbn. intros [= <-] [= <-]. lia.
  - intros (i70 & H70 & [= <-])%rbind_Return (i08 & H08 & [= <-])%rbind_Return.
    apply to_int_mul_bounds in H70; [|reflexivity].
    apply to_int_mul_bounds in H08; [|reflexivity].
    cbv zeta in H70, H08. destruct s; [lia|].
    destruct H70 as [_ H70], H08 as [[_ H08] _].
    pose proof (mantissa_digits_pos mf).
    destruct (Z.le_gt_cases (mantissa_digits mf + ef) 9) as [Hsmall|Hbig].
    + assert (2 ^ Z.max 0 (mantissa_digits mf + ef + -56 + 53 + 1) ≤ 2 ^ 7)
        by (apply Z.pow_le_mono_r; lia).
      change (2 ^ 7) with 128 in *. lia.
    + specialize (H70 ltac:(lia) ltac:(lia)).
      replace (Z.max 0 (mantissa_digits mf + ef + -56 + 53 + 1)) with (mantissa_digits mf + ef - 2) in H08 by lia.
      replace (mantissa_digits mf + ef + -53 + 53 - 2) with (mantissa_digits mf + ef - 2) in H70 by lia.
      lia.
Qed.

(** ** The candidate sizes *)

Section RangeDown.
Variables start stop st : Z.
Hypothesis st_pos : 0 < st.

Lemma range_down_length :
  length (range_down start stop st) = range_down_len start stop st.
Proof. unfold range_down. by rewrite length_map, length_seq. Qed.

Lemma range_down_lookup (k : nat) :
  (k < range_down_len start stop st)%nat →
  range_down start stop st !! k = Some (start - Z.of_nat k * st).
Proof.
  intros Hk. unfold range_down.
  rewrite list_lookup_fmap, lookup_seq_lt by done. reflexivity.
Qed.

Lemma range_down_lookup_Some (k : nat) x :
  range_down start stop st !! k = Some x →
  (k < range_down_len start stop st)%nat ∧ x = start - Z.of_nat k * st.
Proof.
  intros H. pose proof (lookup_lt_Some _ _ _ H) as Hk.
  rewrite range_down_length in Hk.
  rewrite range_down_lookup in H by done. by inversion H.
Qed.

Lemma range_down_len_pos :
  stop < start →
  range_down_len start stop st = Z.to_nat ((start - stop - 1) / st + 1) ∧
  0 ≤ (start - stop - 1) / st.
Proof.
  intros H. unfold range_down_len.
  destruct (Z.ltb_spec stop start); [|lia].
  split; [reflexivity|]. apply Z.div_pos; lia.
Qed.

Lemma range_down_empty : start ≤ stop → range_down start stop st = [].
Proof.
  intros H. unfold range_down, range_down_len.
  destruct (Z.ltb_spec stop start); [lia | reflexivity].
Qed.

(** Every element lies strictly above [stop] and at most at [start]. *)
Lemma range_down_bounds x :
  x ∈ range_down start stop st → stop < x ≤ start.
Proof.
  intros (k & Hk)%list_elem_of_lookup.
  apply range_down_lookup_Some in Hk as [Hk ->].
  destruct (Z.le_gt_cases start stop) as [Hle|Hlt].
  { unfold range_down_len in Hk. destruct (Z.ltb_spec stop start); lia. }
  destruct (range_down_len_pos Hlt) as [Hlen Hq]. rewrite Hlen in Hk.
  assert (Z.of_nat k ≤ (start - stop - 1) / st) by lia.
  pose proof (Z.mul_div_le (start - stop - 1) st st_pos).
  nia.
Qed.

(** The elements are the numbers [start - k * st] above [stop]. *)
Lemma range_down_elem x :
  x ∈ range_down start stop st ↔ ∃ k : nat, x = start - Z.of_nat k * st ∧ stop < x.
Proof.
  split.
  - intros Hx. pose proof (range_down_bounds _ Hx).
    apply list_elem_of_lookup in Hx as (k & Hk).
    apply range_down_lookup_Some in Hk as [_ ->]. exists k. lia.
  - intros (k & -> & Hk). apply list_elem_of_lookup. exists k.
    apply range_down_lookup.
    assert (stop < start) as Hlt by nia.
    destruct (range_down_len_pos Hlt) as [-> Hq].
    assert (Z.of_nat k ≤ (start - stop - 1) / st); [|lia].
    apply Z.div_le_lower_bound; lia.
Qed.

Lemma range_down_head : stop < start → head (range_down start stop st) = Some start.
Proof.
  intros Hlt. rewrite head_lookup, range_down_lookup.
  - f_equal. lia.
  - destruct (range_down_len_pos Hlt) as [-> ?]. lia.
Qed.

Lemma range_down_last :
  stop < start →
  last (range_down start stop st) = Some (start - (start - stop - 1) / st * st).
Proof.
  intros Hlt. destruct (range_down_len_pos Hlt) as [Hlen Hq].
  rewrite last_lookup, range_down_length, range_down_lookup by lia.
  f_equal. rewrite Hlen. f_equal. f_equal. lia.
Qed.

(** The elements decrease strictly along the list. *)
Lemma range_down_split l1 x l2 :
  range_down start stop st = l1 ++ x :: l2 →
  Forall (λ q, x < q) l1 ∧ Forall (λ q, q < x) l2.
Proof.
  intros Heq.
  assert (Hx : range_down start stop st !! length l1 = Some x).
  { rewrite Heq. by apply list_lookup_middle. }
  apply range_down_lookup_Some in Hx as [_ ->].
  split; apply Forall_forall; intros q (i & Hi)%list_elem_of_lookup.
  - assert (Hq : range_down start stop st !! i = Some q).
    { rewrite Heq. by apply lookup_app_l_Some. }
    pose proof (lookup_lt_Some _ _ _ Hi).
    apply range_down_lookup_Some in Hq as [_ ->]. nia.
  - assert (Hq : range_down start stop st !! (length l1 + S i)%nat = Some q).
    { rewrite Heq, lookup_app_r by lia.
      replace (length l1 + S i - length l1)%nat with (S i) by lia. exact Hi. }
    apply range_down_lookup_Some in Hq as [_ ->]. nia.
Qed.
End RangeDown.

Lemma max_px_ge size hi : max_px size = Return hi → 220 ≤ hi.
Proof.
  unfold max_px. intros (p & _ & (i & _ & H)%rbind_Return)%rbind_Return.
  inversion H. lia.
Qed.

Lemma min_px_ge size lo : min_px size = Return lo → 64 ≤ lo.
Proof.
  unfold min_px. intros (p & _ & (i & _ & H)%rbind_Return)%rbind_Return.
  inversion H. lia.
Qed.

Lemma step_ge size st : step size = Return st → 2 ≤ st.
Proof.
  unfold step. intros (p & _ & (i & _ & H)%rbind_Return)%rbind_Return.
  inversion H. lia.
Qed.

Lemma candidates_Return size l :
  candidates size = Return l →
  ∃ hi lo st, max_px size = Return hi ∧ min_px size = Return lo ∧
    step size = Return st ∧ l = range_down hi (lo - 1) st.
Proof.
  unfold candidates.
  intros (hi & Hhi & (lo & Hlo & (st & Hst & H)%rbind_Return)%rbind_Return)%rbind_Return.
  inversion H. eauto 8.
Qed.

(** The candidates decrease strictly. *)
Lemma candidates_split size l l1 x l2 :
  candidates size = Return l → l = l1 ++ x :: l2 →
  Forall (λ q, x < q) l1 ∧ Forall (λ q, q < x) l2.
Proof.
  intros (hi & lo & st & _ & _ & Hst & ->)%candidates_Return Heq.
  apply step_ge in Hst. eapply range_down_split; [|exact Heq]. lia.
Qed.

(** C1 as stated fails on the default canvas: for [size = 1024] the search
    starts at 716 and goes down by 6, [min_px] is 81, and the last candidate
    is 86; 81 is never tried. *)
Lemma candidates_1024_skip_min_px :
  max_px 1024 = Return 716 ∧ min_px 1024 = Return 81 ∧ step 1024 = Return 6 ∧
  ∃ l, candidates 1024 = Return l ∧ last l = Some 86 ∧ 81 ∉ l.
Proof.
  repeat split; try (vm_compute; reflexivity).
  eexists. split; [vm_compute; reflexivity|]. split; [vm_compute; reflexivity|].
  intros Hin. apply list_elem_of_In in Hin. vm_compute in Hin.
  repeat (destruct Hin as [Hin|Hin]; [discriminate Hin|]). exact Hin.
Qed.

(** C1, amended. For every canvas size on which the three quantities are
    computed, the candidates are, in this order, the numbers [hi - k * st]
    for [k = 0, 1, 2, ...] that are at least [lo], where [hi = max_px],
    [st = step >= 2] and [lo = min_px <= hi]. The first is [hi] and the last
    is the smallest such number, which lies below [lo + st]; [lo] itself is a
    candidate exactly when [st] divides [hi - lo]. *)
Theorem candidates_descend_to_min_px (size hi lo st : Z) :
  max_px size = Return hi → min_px size = Return lo → step size = Return st →
  ∃ l, candidates size = Return l ∧
    220 ≤ hi ∧ 64 ≤ lo ≤ hi ∧ 2 ≤ st ∧
    (∀ (k : nat) x, l !! k = Some x → x = hi - Z.of_nat k * st) ∧
    (∀ x, x ∈ l ↔ ∃ k : nat, x = hi - Z.of_nat k * st ∧ lo ≤ x) ∧
    head l = Some hi ∧
    last l = Some (hi - (hi - lo) / st * st) ∧
    lo ≤ hi - (hi - lo) / st * st < lo + st ∧
    (lo ∈ l ↔ (hi - lo) mod st = 0).
Proof.
  intros Hhi Hlo Hst. exists (range_down hi (lo - 1) st).
  pose proof (max_px_ge _ _ Hhi). pose proof (min_px_ge _ _ Hlo).
  pose proof (min_px_le_max_px _ _ _ Hhi Hlo) as Hle.
  pose proof (step_ge _ _ Hst) as Hst2.
  assert (Hpos : 0 < st) by lia.
  assert (Hmem : ∀ x, x ∈ range_down hi (lo - 1) st ↔
                      ∃ k : nat, x = hi - Z.of_nat k * st ∧ lo ≤ x).
  { intros x. rewrite (range_down_elem hi (lo - 1) st Hpos).
    split; intros (k & ? & ?); exists k; split; lia. }
  split; [unfold candidates; by rewrite Hhi, Hlo, Hst|].
  do 3 (split; [lia|]).
  split; [|split; [exact Hmem|]].
  { intros k x Hk. by apply range_down_lookup_Some in Hk as [_ ->]. }
  split; [apply range_down_head; lia|]. split; [|split].
  - rewrite range_down_last by lia.
    by replace (hi - (lo - 1) - 1) with (hi - lo) by lia.
  - pose proof (Z.mul_div_le (hi - lo) st Hpos).
    pose proof (Z.mod_pos_bound (hi - lo) st Hpos).
    pose proof (Z.div_mod (hi - lo) st). lia.
  - rewrite Hmem. split.
    + intros (k & Hk & _).
      replace (hi - lo) with (Z.of_nat k * st) by lia. apply Z.mod_mul. lia.
    + intros Hmod. exists (Z.to_nat ((hi - lo) / st)).
      assert (0 ≤ (hi - lo) / st) by (apply Z.div_pos; lia).
      pose proof (Z.div_mod (hi - lo) st). split; lia.
Qed.

Lemma candidates_descend_to_min_px_witness :
  ∃ l, candidates 1024 = Return l ∧
    head l = Some 716 ∧ last l = Some 86 ∧ ¬ 81 ∈ l.
Proof.
  destruct (candidates_descend_to_min_px 1024 716 81 6)
    as (l & Hl & _ & _ & _ & _ & _ & Hhead & Hlast & _ & Hlo);
    try (vm_compute; reflexivity).
  exists l. split; [exact Hl|].
  split; [exact Hhead|]. split; [exact Hlast|].
  intros Hin. apply Hlo in Hin. vm_compute in Hin. discriminate.
Defined.

(** ** The loop of [shape_and_measure], glyph by glyph *)

Lemma measure_step_spec font px scale st g :
  let st' := measure_step font px scale st g in
  let p := placement_of font px scale (pen_x st) g in
  pen_x st' = advance scale (pen_x st) g ∧
  placements st' = placements st ++ [p] ∧
  state_box st' = (if placement_has_area p then extend_box (state_box st) p else state_box st) ∧
  glyph_names st' = glyph_names st ++ [name_of font g].
Proof.
  destruct g as [info pos]. unfold measure_step, placement_of, state_box,
    placement_has_area, extend_box, advance, name_of. cbn.
  repeat split. by destruct (has_area _ _).
Qed.

Lemma measure_fold_spec font px scale glyphs st :
  let st' := fold_left (measure_step font px scale) glyphs st in
  let pls := placements_from font px scale (pen_x st) glyphs in
  pen_x st' = fold_left (advance scale) glyphs (pen_x st) ∧
  placements st' = placements st ++ pls ∧
  state_box st' = fold_left extend_box (filter (λ p, placement_has_area p = true) pls) (state_box st) ∧
  glyph_names st' = glyph_names st ++ map (name_of font) glyphs.
Proof.
  revert st. induction glyphs as [|g glyphs IH]; intros st; cbn [fold_left placements_from map].
  - by rewrite !app_nil_r.
  - destruct (measure_step_spec font px scale st g) as (Hpen & Hpl & Hbox & Hnm).
    destruct (IH (measure_step font px scale st g)) as (IHpen & IHpl & IHbox & IHnm).
    rewrite IHpen, IHpl, IHbox, IHnm, Hpen, Hpl, Hbox, Hnm, <- !app_assoc.
    repeat split.
    rewrite filter_cons. destruct (decide _) as [Ha|Ha].
    + by rewrite Ha.
    + by apply not_true_is_false in Ha as ->.
Qed.

Lemma measure_loop_spec font px scale glyphs :
  let st := measure_loop font px scale glyphs in
  let pls := placements_from font px scale PyFloat.zero glyphs in
  pen_x st = fold_left (advance scale) glyphs PyFloat.zero ∧
  placements st = pls ∧
  state_box st = fold_left extend_box (filter (λ p, placement_has_area p = true) pls) empty_box ∧
  glyph_names st = map (name_of font) glyphs.
Proof. apply (measure_fold_spec font px scale glyphs measure_init). Qed.

Lemma placements_from_length font px scale pen glyphs :
  length (placements_from font px scale pen glyphs) = length glyphs.
Proof. revert pen. induction glyphs; intros pen; cbn; [done | by rewrite IHglyphs]. Qed.

(** Placement number [i] belongs to glyph number [i], drawn with the pen
    moved by every earlier glyph. *)
Lemma placements_from_lookup font px scale pen glyphs i g :
  glyphs !! i = Some g →
  placements_from font px scale pen glyphs !! i =
  Some (placement_of font px scale (fold_left (advance scale) (take i glyphs) pen) g).
Proof.
  revert pen i. induction glyphs as [|g0 glyphs IH]; intros pen i Hi; [done|].
  destruct i as [|i]; cbn in *.
  - by inversion Hi.
  - by apply IH.
Qed.

Lemma shape_and_measure_unfold font text features px :
  shape_and_measure font text features px =
  rbind (int_truediv px (upem font)) (λ scale,
    Return (measure_result (measure_loop font px scale (shaped_glyphs font text features)))).
Proof.
  unfold shape_and_measure, shaped_glyphs.
  by destruct (hb_shape font text features).
Qed.

Lemma placements_from_area font px scale pen glyphs :
  filter (λ p, placement_has_area p = true) (placements_from font px scale pen glyphs) = [] ↔
  Forall (λ g, glyph_has_area font px g = false) glyphs.
Proof.
  revert pen. induction glyphs as [|g glyphs IH]; intros pen; cbn [placements_from].
  - split; [constructor | done].
  - rewrite filter_cons.
    change (placement_has_area (placement_of font px scale pen g))
      with (glyph_has_area font px g).
    destruct (decide _) as [Ha|Ha].
    + split; [done|]. intros H. inversion H; congruence.
    + rewrite IH. apply not_true_is_false in Ha.
      split; [by constructor | intros H; by inversion H].
Qed.

(** *** Comparisons with [float("inf")] *)

Lemma eqb_pos_inf x : PyFloat.eqb x pos_inf = true ↔ x = pos_inf.
Proof.
  split; [|intros ->; reflexivity].
  destruct x as [[]|[]| |[] m e]; cbv; congruence.
Qed.

Lemma ltb_below_inf x a : PyFloat.ltb x a = true → PyFloat.eqb x pos_inf = false.
Proof. destruct x as [[]|[]| |[] m e], a as [[]|[]| |[] m' e']; cbv; congruence. Qed.

Lemma finite_below_inf x : is_finite x = true → PyFloat.ltb x pos_inf = true.
Proof. destruct x as [[]|[]| |[] m e]; cbv; congruence. Qed.

(** Once the running minimum has left [inf] it never returns to it. *)
Lemma min2_keeps_finite a x :
  PyFloat.eqb a pos_inf = false → PyFloat.eqb (min2 a x) pos_inf = false.
Proof.
  intros Ha. unfold min2. destruct (PyFloat.ltb x a) eqn:Hlt; [|done].
  by eapply ltb_below_inf.
Qed.

Lemma fold_extend_box_keeps_finite pls b :
  PyFloat.eqb b.1.1.1 pos_inf = false →
  PyFloat.eqb (fold_left extend_box pls b).1.1.1 pos_inf = false.
Proof.
  revert b. induction pls as [|p pls IH]; intros [[[x0 y0] x1] y1] Hb; [done|].
  cbn [fold_left]. apply IH. cbn. by apply min2_keeps_finite.
Qed.

Lemma fold_extend_box_leaves_inf pls :
  Forall (λ p, is_finite (GlyphPlacement.x p) = true) pls →
  (PyFloat.eqb (fold_left extend_box pls empty_box).1.1.1 pos_inf = true ↔ pls = []).
Proof.
  intros Hfin. split; [|intros ->; reflexivity].
  destruct Hfin as [|p pls Hp _]; [done|]. intros H. exfalso.
  cbn [fold_left] in H.
  rewrite fold_extend_box_keeps_finite in H; [discriminate|].
  cbn. unfold min2. rewrite (finite_below_inf _ Hp).
  destruct (GlyphPlacement.x p) as [[]|[]| |[] m e]; done.
Qed.

(** C5. [shape_and_measure] returns [None] when no shaped glyph has a
    bitmap of positive width and positive height (in particular when
    nothing was shaped), and, the glyph positions being finite numbers, only
    then. Otherwise the box is accumulated over the placements with bitmap
    area only, while the returned list has one placement per shaped glyph, in
    order, each drawn with the pen advanced by every earlier glyph, empty or
    not. *)
Theorem shape_and_measure_empty_iff_no_area
    (font : Font) (text : string) (features : gmap string Z) (px_size : Z)
    (scale : float) :
  let glyphs := shaped_glyphs font text features in
  int_truediv px_size (upem font) = Return scale →
  ∃ r, shape_and_measure font text features px_size = Return r ∧
    (Forall (λ g, glyph_has_area font px_size g = false) glyphs → r = None) ∧
    (Forall (λ p, placement_has_area p = true → is_finite (GlyphPlacement.x p) = true)
       (placements_from font px_size scale PyFloat.zero glyphs) →
     r = None → Forall (λ g, glyph_has_area font px_size g = false) glyphs) ∧
    (∀ box placements names, r = Some (box, placements, names) →
       box = fold_left extend_box
               (filter (λ p, placement_has_area p = true) placements) empty_box ∧
       length placements = length glyphs ∧
       ∀ i g, glyphs !! i = Some g →
         placements !! i =
           Some (placement_of font px_size scale (pen_before scale glyphs i) g)).
Proof.
  intros glyphs Hscale.
  rewrite shape_and_measure_unfold, Hscale. cbn [rbind]. fold glyphs.
  eexists. split; [reflexivity|].
  destruct (measure_loop_spec font px_size scale glyphs) as (_ & Hpl & Hbox & Hnm).
  cbv zeta in Hpl, Hbox, Hnm.
  set (st := measure_loop font px_size scale glyphs) in *.
  set (pls := placements_from font px_size scale PyFloat.zero glyphs) in *.
  change (min_x st) with (state_box st).1.1.1 in *.
  unfold measure_result. split; [|split].
  - intros Hnone%(placements_from_area font px_size scale PyFloat.zero).
    fold pls in Hnone. change (min_x st) with (state_box st).1.1.1.
    by rewrite Hbox, Hnone.
  - intros Hfin. change (min_x st) with (state_box st).1.1.1.
    destruct (PyFloat.eqb (state_box st).1.1.1 pos_inf) eqn:Hmin; [|done].
    intros _. rewrite Hbox in Hmin.
    apply fold_extend_box_leaves_inf in Hmin; [by apply placements_from_area in Hmin|].
    apply Forall_forall. intros p [Ha Hp]%list_elem_of_filter.
    rewrite Forall_forall in Hfin. by apply Hfin.
  - intros box placements names Hr.
    destruct (PyFloat.eqb _ pos_inf); [discriminate|].
    inversion Hr; subst box placements names.
    repeat split.
    + rewrite Hpl. exact Hbox.
    + rewrite Hpl. apply placements_from_length.
    + intros i g Hi. rewrite Hpl. by apply placements_from_lookup.
Qed.

Lemma shape_and_measure_empty_iff_no_area_witness :
  shape_and_measure demo_font "  " ∅ 220 = Return None ∧
  ∃ s, shape_and_measure demo_font "A B" ∅ 220 = Return (Some s) ∧ length s.1.2 = 3%nat.
Proof.
  split.
  - destruct (shape_and_measure_empty_iff_no_area demo_font "  " ∅ 220
                (PyFloat.div (of_cint 220) (of_cint 1000)))
      as (r & -> & Hnone & _).
    + vm_compute. reflexivity.
    + f_equal. apply Hnone. vm_compute. repeat constructor.
  - destruct (shape_and_measure_empty_iff_no_area demo_font "A B" ∅ 220
                (PyFloat.div (of_cint 220) (of_cint 1000)))
      as (r & -> & _ & Honly & Hsome).
    + vm_compute. reflexivity.
    + destruct r as [[[box pls] names]|].
      * eexists. split; [reflexivity|].
        destruct (Hsome box pls names eq_refl) as (_ & Hlen & _). exact Hlen.
      * exfalso. assert (Hnone : Forall (λ g, glyph_has_area demo_font 220 g = false)
                                   (shaped_glyphs demo_font "A B" ∅)).
        { apply Honly; [|reflexivity]. vm_compute. repeat constructor; reflexivity. }
        inversion Hnone as [|g gs Hg _]. vm_compute in Hg. discriminate.
Defined.

Lemma shape_and_measure_Some font text features px box pls names :
  shape_and_measure font text features px = Return (Some (box, pls, names)) →
  ∃ scale, int_truediv px (upem font) = Return scale ∧
    pls = placements_from font px scale PyFloat.zero (shaped_glyphs font text features).
Proof.
  rewrite shape_and_measure_unfold. intros (scale & Hscale & H)%rbind_Return.
  exists scale. split; [done|].
  destruct (measure_loop_spec font px scale (shaped_glyphs font text features))
    as (_ & Hpl & _).
  unfold measure_result in H.
  destruct (PyFloat.eqb _ _); [discriminate|]. inversion H. by rewrite <- Hpl.
Qed.

(** C7. [shape_and_measure] draws every shaped glyph at
    [x = pen_x + x_offset * scale + bitmap_left] and
    [y = -(y_offset * scale) - bitmap_top], where [scale] is
    [px_size / upem], the offsets are the shaper's, the bearings are the
    rasteriser's for this glyph at this size, and [pen_x] is the sum of the
    scaled advances of the glyphs before it: every result it returns has
    one placement per shaped glyph, at these coordinates. It does return
    one: whenever the scale can be computed the pass returns, and it returns
    placements as soon as one glyph has a bitmap with area, the positions
    being finite numbers. *)
Theorem glyph_draw_position
    (font : Font) (text : string) (features : gmap string Z) (px_size : Z) :
  let glyphs := shaped_glyphs font text features in
  (∀ box placements names,
     shape_and_measure font text features px_size = Return (Some (box, placements, names)) →
     ∃ scale, int_truediv px_size (upem font) = Return scale ∧
       length placements = length glyphs ∧
       ∀ (i : nat) info pos,
         (hb_shape font text features).1 !! i = Some info →
         (hb_shape font text features).2 !! i = Some pos →
         ∃ p, placements !! i = Some p ∧
           let slot := load_glyph font px_size (codepoint info) in
           let pen := pen_before scale glyphs i in
           let scaled_x_offset := PyFloat.mul (of_cint (x_offset pos)) scale in
           let scaled_y_offset := PyFloat.mul (of_cint (y_offset pos)) scale in
           GlyphPlacement.x p =
             PyFloat.add (PyFloat.add pen scaled_x_offset) (of_cint (bitmap_left slot)) ∧
           GlyphPlacement.y p =
             PyFloat.sub (PyFloat.neg scaled_y_offset) (of_cint (bitmap_top slot))) ∧
  (∀ scale, int_truediv px_size (upem font) = Return scale →
     ∃ r, shape_and_measure font text features px_size = Return r ∧
       (Forall (λ p, placement_has_area p = true → is_finite (GlyphPlacement.x p) = true)
          (placements_from font px_size scale PyFloat.zero glyphs) →
        Exists (λ g, glyph_has_area font px_size g = true) glyphs →
        ∃ box placements names, r = Some (box, placements, names))).
Proof.
  intros glyphs. split.
  - intros box placements names (scale & Hscale & ->)%shape_and_measure_Some.
    exists scale. split; [done|]. split; [apply placements_from_length|].
    intros i info pos Hinfo Hpos.
    assert (Hg : glyphs !! i = Some (info, pos)).
    { unfold glyphs, shaped_glyphs.
      destruct (hb_shape font text features) as [infos positions]. cbn in *.
      revert i positions Hinfo Hpos.
      induction infos as [|a infos IH]; intros [|i] [|b positions] Hinfo Hpos;
        cbn in *; try done.
      - by inversion Hinfo; inversion Hpos.
      - by apply IH. }
    eexists. split; [by apply placements_from_lookup|]. by cbn.
  - intros scale Hscale.
    rewrite shape_and_measure_unfold, Hscale. cbn [rbind]. fold glyphs.
    eexists. split; [reflexivity|]. intros Hfin Harea.
    destruct (measure_loop_spec font px_size scale glyphs) as (_ & _ & Hbox & _).
    cbv zeta in Hbox. unfold measure_result.
    change (min_x ?st) with (state_box st).1.1.1.
    destruct (PyFloat.eqb (state_box (measure_loop font px_size scale glyphs)).1.1.1 pos_inf)
      eqn:Hmin; [|by eexists _, _, _].
    exfalso. rewrite Hbox in Hmin.
    apply fold_extend_box_leaves_inf in Hmin.
    + apply placements_from_area in Hmin. apply Exists_exists in Harea as (g & Hg & Ha).
      rewrite Forall_forall in Hmin. specialize (Hmin g Hg). congruence.
    + apply Forall_forall. intros p [Ha Hp]%list_elem_of_filter.
      rewrite Forall_forall in Hfin. by apply Hfin.
Qed.

Lemma glyph_draw_position_witness :
  ∃ box placements names p,
    shape_and_measure demo_font "AB" ∅ 220 = Return (Some (box, placements, names)) ∧
    placements !! 1%nat = Some p ∧
    PyFloat.round (GlyphPlacement.x p) = Return 133 ∧
    PyFloat.round (GlyphPlacement.y p) = Return (-13).
Proof.
  destruct (glyph_draw_position demo_font "AB" ∅ 220) as [Hdrawn Hreturns].
  destruct (Hreturns (PyFloat.div (of_cint 220) (of_cint 1000)))
    as (r & Hrun & Hsome); [vm_compute; reflexivity|].
  destruct Hsome as (box & placements & names & ->).
  { vm_compute. repeat constructor. }
  { vm_compute. apply Exists_cons_hd. reflexivity. }
  exists box, placements, names.
  destruct (Hdrawn box placements names Hrun) as (scale & Hscale & _ & Hpos).
  assert (scale = PyFloat.div (of_cint 220) (of_cint 1000)) as ->.
  { vm_compute in Hscale. inversion Hscale. vm_compute. reflexivity. }
  destruct (Hpos 1%nat {| codepoint := 66; cluster := 1 |}
              {| x_advance := 600; y_advance := 0; x_offset := 0; y_offset := 0 |}
              eq_refl eq_refl) as (p & Hp & Hx & Hy).
  exists p. split; [exact Hrun|]. split; [exact Hp|].
  cbv zeta in Hx, Hy. rewrite Hx, Hy. split; vm_compute; reflexivity.
Defined.

(** ** [y_advance] plays no part *)

Lemma measure_step_forget font px scale st info pos :
  measure_step font px scale st (info, pos) =
  measure_step font px scale st (info, forget_y_advance pos).
Proof. reflexivity. Qed.

Lemma measure_loop_forget font px scale infos positions positions' :
  map forget_y_advance positions = map forget_y_advance positions' →
  measure_loop font px scale (combine infos positions) =
  measure_loop font px scale (combine infos positions').
Proof.
  unfold measure_loop. generalize measure_init.
  revert positions positions'.
  induction infos as [|info infos IH]; intros [|pos ps] [|pos' ps'] st Heq;
    cbn [combine fold_left map] in *; try done.
  assert (Hpos : forget_y_advance pos = forget_y_advance pos') by congruence.
  assert (Hps : map forget_y_advance ps = map forget_y_advance ps') by congruence.
  rewrite (measure_step_forget _ _ _ _ _ pos), Hpos, <- measure_step_forget.
  by apply IH.
Qed.

(** C9. [shape_and_measure] never reads [y_advance]: two fonts that differ
    only in the [y_advance] values their shaper reports give the same result
    for every text, feature map and size. The pen after the loop is the sum
    of the scaled [x_advance] values alone, and the [y] of the placement of
    glyph number [i] is the same in any two passes in which glyph [i] has
    the same glyph id and the same [y_offset], whatever the other glyphs and
    advances are. *)
Theorem shape_and_measure_ignores_y_advance (font font' : Font) :
  upem font = upem font' →
  load_glyph font = load_glyph font' →
  get_glyph_name font = get_glyph_name font' →
  (∀ text features,
     (hb_shape font text features).1 = (hb_shape font' text features).1 ∧
     map forget_y_advance (hb_shape font text features).2 =
       map forget_y_advance (hb_shape font' text features).2) →
  (∀ text features px_size,
     shape_and_measure font text features px_size =
     shape_and_measure font' text features px_size) ∧
  (∀ px_size scale glyphs,
     pen_x (measure_loop font px_size scale glyphs) =
     fold_left (λ pen g, PyFloat.add pen (PyFloat.mul (of_cint (x_advance g.2)) scale))
       glyphs PyFloat.zero) ∧
  (∀ px_size scale glyphs glyphs' (i : nat) info pos info' pos' p p',
     glyphs !! i = Some (info, pos) → glyphs' !! i = Some (info', pos') →
     codepoint info = codepoint info' → y_offset pos = y_offset pos' →
     placements (measure_loop font px_size scale glyphs) !! i = Some p →
     placements (measure_loop font' px_size scale glyphs') !! i = Some p' →
     GlyphPlacement.y p = GlyphPlacement.y p').
Proof.
  intros Hupem Hload Hname Hshape. repeat split.
  - intros text features px_size. rewrite !shape_and_measure_unfold, Hupem.
    destruct (int_truediv px_size (upem font')) as [scale|e]; [cbn|done].
    do 2 f_equal. unfold shaped_glyphs.
    destruct (Hshape text features) as [-> Hpos].
    rewrite (measure_loop_forget font px_size scale _ _ _ Hpos).
    unfold measure_loop, measure_step. by rewrite Hload, Hname.
  - intros px_size scale glyphs.
    by destruct (measure_loop_spec font px_size scale glyphs) as (-> & _).
  - intros px_size scale glyphs glyphs' i info pos info' pos' p p' Hg Hg' Hcp Hoff.
    destruct (measure_loop_spec font px_size scale glyphs) as (_ & -> & _).
    destruct (measure_loop_spec font' px_size scale glyphs') as (_ & -> & _).
    rewrite (placements_from_lookup _ _ _ _ _ _ _ Hg).
    rewrite (placements_from_lookup _ _ _ _ _ _ _ Hg').
    intros [= <-] [= <-]. unfold placement_of, glyph_gy. cbn.
    by rewrite Hcp, Hoff, Hload.
Qed.

Lemma shape_and_measure_ignores_y_advance_witness :
  shape_and_measure demo_font "A B" ∅ 220 =
  shape_and_measure demo_font_y_advance "A B" ∅ 220.
Proof.
  apply (shape_and_measure_ignores_y_advance demo_font demo_font_y_advance);
    try reflexivity.
  intros text features. split; [reflexivity|]. cbn.
  rewrite map_map. apply map_ext. reflexivity.
Defined.

(** ** [make_text_mask] *)

Lemma round_finite x : is_finite x = true → is_Return (PyFloat.round x).
Proof. destruct x; cbn; intros H; try discriminate; by eexists. Qed.

Lemma mask_paste_loop_total x0 y0 placements :
  Forall (λ p, placement_has_area p = true →
               is_finite (PyFloat.sub (GlyphPlacement.x p) x0) = true ∧
               is_finite (PyFloat.sub (GlyphPlacement.y p) y0) = true) placements →
  is_Return (mask_paste_loop x0 y0 placements).
Proof.
  induction 1 as [|p pls Hp _ [pastes IH]]; cbn [mask_paste_loop]; [by eexists|].
  destruct (_ || _) eqn:Hskip; [by eexists|].
  destruct Hp as [[x Hx]%round_finite [y Hy]%round_finite].
  { unfold placement_has_area, has_area.
    apply orb_false_iff in Hskip as [?%Z.leb_gt ?%Z.leb_gt].
    apply andb_true_iff. split; by apply Z.ltb_lt. }
  rewrite Hx, Hy, IH. by eexists.
Qed.

(** C8. Whenever [make_text_mask] returns, the mask dimensions are
    [max(1, round(max_x - min_x))] by [max(1, round(max_y - min_y))], hence
    at least 1 by 1, also when the measured width or height is zero; and it
    does return for every bounding box with finite extents whose placements
    lie at a finite distance from its corner. *)
Theorem make_text_mask_dimensions
    (x0 y0 x1 y1 : float) (placements : list GlyphPlacement.t) :
  (∀ mask text_width text_height,
     make_text_mask (x0, y0, x1, y1) placements
       = Return (mask, (text_width, text_height)) →
     ∃ rw rh,
       PyFloat.round (PyFloat.sub x1 x0) = Return rw ∧
       PyFloat.round (PyFloat.sub y1 y0) = Return rh ∧
       text_width = Z.max 1 rw ∧ text_height = Z.max 1 rh ∧
       mask_size mask = (text_width, text_height) ∧
       1 ≤ text_width ∧ 1 ≤ text_height) ∧
  (is_finite (PyFloat.sub x1 x0) = true →
   is_finite (PyFloat.sub y1 y0) = true →
   Forall (λ p, placement_has_area p = true →
                is_finite (PyFloat.sub (GlyphPlacement.x p) x0) = true ∧
                is_finite (PyFloat.sub (GlyphPlacement.y p) y0) = true) placements →
   ∃ mask text_width text_height,
     make_text_mask (x0, y0, x1, y1) placements
       = Return (mask, (text_width, text_height))).
Proof.
  unfold make_text_mask. split.
  - intros mask tw th.
    intros (rw & Hw & (rh & Hh & (pastes & _ & H)%rbind_Return)%rbind_Return)%rbind_Return.
    inversion H; subst. exists rw, rh. cbn [mask_size].
    repeat split; try reflexivity; try done; lia.
  - intros [rw Hw]%round_finite [rh Hh]%round_finite
      [pastes Hp]%mask_paste_loop_total.
    rewrite Hw, Hh. cbn [rbind]. rewrite Hp. cbn [rbind]. by eexists _, _, _.
Qed.

Lemma make_text_mask_dimensions_witness :
  ∃ mask, make_text_mask (PyFloat.zero, PyFloat.zero, PyFloat.zero, PyFloat.zero) []
          = Return (mask, (1, 1)).
Proof.
  destruct (make_text_mask_dimensions PyFloat.zero PyFloat.zero PyFloat.zero
              PyFloat.zero []) as [Hdims Hreturns].
  destruct Hreturns as (mask & tw & th & Hmask).
  - vm_compute. reflexivity.
  - vm_compute. reflexivity.
  - constructor.
  - exists mask.
    destruct (Hdims mask tw th Hmask) as (rw & rh & Hw & Hh & -> & -> & _).
    vm_compute in Hw, Hh. injection Hw as <-. injection Hh as <-. exact Hmask.
Defined.

(** ** The auto-fit search *)

Section FitSearch.
Variables (font : Font) (text : string) (features : gmap string Z).
Variables target_w target_h : float.

Local Abbreviation search := (fit_search font text features target_w target_h).
Local Abbreviation shape_at := (shape_and_measure font text features).

Lemma fit_search_cons px rest :
  search (px :: rest) =
  match shape_at px with
  | Raise e => ([ShapeAt px], Raise e)
  | Return None => (ShapeAt px :: (search rest).1, (search rest).2)
  | Return (Some s) =>
      if fits_box target_w target_h s
      then ([ShapeAt px], Return (Some (px, s.1.1, s.1.2, s.2)))
      else (ShapeAt px :: (search rest).1, (search rest).2)
  end.
Proof.
  cbn [fit_search]. unfold io_bind, emit, io_lift.
  destruct (shape_at px) as [[[[box pls] names]|]|e]; cbn -[fits_box]; try reflexivity.
  - destruct (fits_box target_w target_h (box, pls, names)); [reflexivity|].
    by destruct (search rest).
  - by destruct (search rest).
Qed.

(** What the search found is the first size it accepts; the sizes before
    it were shaped and rejected, the sizes after it were not shaped. *)
Lemma fit_search_first sizes tr px box pls names :
  search sizes = (tr, Return (Some (px, box, pls, names))) →
  ∃ l1 l2, sizes = l1 ++ px :: l2 ∧ tr = map ShapeAt (l1 ++ [px]) ∧
    Forall (λ q, rejects font text features target_w target_h q = true) l1 ∧
    shape_at px = Return (Some (box, pls, names)) ∧
    fits_box target_w target_h (box, pls, names) = true.
Proof.
  revert tr. induction sizes as [|q sizes IH]; intros tr; [discriminate|].
  rewrite fit_search_cons.
  destruct (shape_at q) as [[[[box' pls'] names']|]|e] eqn:Hq; [| |discriminate].
  - destruct (fits_box target_w target_h (box', pls', names')) eqn:Hfit.
    + cbn [fst snd]. intros H. inversion H; subst. by exists [], sizes.
    + destruct (search sizes) as [tr' r']. cbn. intros [= <- ->].
      destruct (IH tr' eq_refl) as (l1 & l2 & -> & -> & Hrej & Hpx & Hfits).
      exists (q :: l1), l2. repeat split; try done.
      constructor; [|done]. unfold rejects. by rewrite Hq, Hfit.
  - destruct (search sizes) as [tr' r']. cbn. intros [= <- ->].
    destruct (IH tr' eq_refl) as (l1 & l2 & -> & -> & Hrej & Hpx & Hfits).
    exists (q :: l1), l2. repeat split; try done.
    constructor; [|done]. unfold rejects. by rewrite Hq.
Qed.

(** When some size is accepted and no pass raises, the search succeeds. *)
Lemma fit_search_finds sizes :
  Forall (λ q, is_Return (shape_at q)) sizes →
  Exists (λ q, accepts font text features target_w target_h q = true) sizes →
  ∃ tr c, search sizes = (tr, Return (Some c)).
Proof.
  induction 1 as [|q sizes [o Hq] _ IH]; intros Hex; [by inversion Hex|].
  rewrite fit_search_cons, Hq.
  destruct o as [s|].
  - destruct (fits_box _ _ s) eqn:Hfit; [by eexists _, _|].
    destruct IH as (tr & c & Hs).
    { inversion Hex as [? ? Hacc|]; [|done].
      unfold accepts in Hacc. rewrite Hq, Hfit in Hacc. discriminate. }
    rewrite Hs. by eexists _, _.
  - destruct IH as (tr & c & Hs).
    { inversion Hex as [? ? Hacc|]; [|done].
      unfold accepts in Hacc. rewrite Hq in Hacc. discriminate. }
    rewrite Hs. by eexists _, _.
Qed.

(** When every size is rejected, all of them are shaped and nothing is
    chosen. *)
Lemma fit_search_none sizes :
  Forall (λ q, rejects font text features target_w target_h q = true) sizes →
  search sizes = (map ShapeAt sizes, Return None).
Proof.
  induction 1 as [|q sizes Hq _ IH]; [reflexivity|].
  rewrite fit_search_cons, IH. unfold rejects in Hq.
  destruct (shape_at q) as [[s|]|e]; [|done|done].
  apply negb_true_iff in Hq. by rewrite Hq.
Qed.

Lemma rejects_not_accepts q :
  rejects font text features target_w target_h q = true →
  accepts font text features target_w target_h q = false.
Proof.
  unfold rejects, accepts. destruct (shape_at q) as [[s|]|e]; try done.
  by intros ->%negb_true_iff.
Qed.
End FitSearch.

(** C6. On the candidates of a canvas size, whatever the search returns is
    the first candidate, in descending order, that shapes to something whose
    width and height are within the target; every candidate before it is
    larger and was rejected, the passes made are exactly those down to the
    accepted size, and no candidate that would be accepted is larger than the
    one returned. When some candidate is accepted and no pass raises, the
    search does return one. *)
Theorem fit_search_first_fit
    (font : Font) (text : string) (features : gmap string Z)
    (target_w target_h : float) (size : Z) (sizes : list Z) :
  candidates size = Return sizes →
  (∀ tr px box pls names,
     fit_search font text features target_w target_h sizes
       = (tr, Return (Some (px, box, pls, names))) →
     ∃ l1 l2, sizes = l1 ++ px :: l2 ∧
       tr = map ShapeAt (l1 ++ [px]) ∧
       shape_and_measure font text features px = Return (Some (box, pls, names)) ∧
       fits_box target_w target_h (box, pls, names) = true ∧
       Forall (λ q, px < q ∧ rejects font text features target_w target_h q = true) l1 ∧
       ∀ q, q ∈ sizes → accepts font text features target_w target_h q = true → q ≤ px) ∧
  (Forall (λ q, is_Return (shape_and_measure font text features q)) sizes →
   Exists (λ q, accepts font text features target_w target_h q = true) sizes →
   ∃ tr c, fit_search font text features target_w target_h sizes = (tr, Return (Some c))).
Proof.
  intros Hsizes. split; [|apply fit_search_finds].
  intros tr px box pls names Hrun.
  apply fit_search_first in Hrun as (l1 & l2 & Heq & -> & Hrej & Hpx & Hfit).
  destruct (candidates_split _ _ _ _ _ Hsizes Heq) as [Hbefore Hafter].
  exists l1, l2. repeat split; try done.
  - apply Forall_forall. intros q Hq. rewrite !Forall_forall in *. auto.
  - intros q Hq Hacc. subst sizes.
    apply elem_of_app in Hq as [Hq|Hq].
    + rewrite Forall_forall in Hrej. apply Hrej, rejects_not_accepts in Hq. congruence.
    + apply elem_of_cons in Hq as [->|Hq]; [lia|].
      rewrite Forall_forall in Hafter. apply Hafter in Hq. lia.
Qed.

Lemma fit_search_first_fit_witness :
  ∃ sizes, candidates 1024 = Return sizes ∧
    ∀ q, q ∈ sizes →
      accepts demo_font "ABC" ∅ demo_target_w demo_target_h q = true → q ≤ 596.
Proof.
  destruct (candidates 1024) as [sizes|e] eqn:Hsizes;
    [|vm_compute in Hsizes; discriminate Hsizes].
  exists sizes. split; [reflexivity|].
  destruct (fit_search_first_fit demo_font "ABC" ∅ demo_target_w demo_target_h
              1024 sizes Hsizes) as [Hfirst _].
  destruct (fit_search demo_font "ABC" ∅ demo_target_w demo_target_h sizes)
    as [tr [[[[[px box] pls] names]|]|e]] eqn:Hrun.
  - destruct (Hfirst tr px box pls names eq_refl) as (l1 & l2 & _ & _ & _ & _ & _ & Hle).
    assert (px = 596) as ->; [|exact Hle].
    vm_compute in Hsizes. injection Hsizes as <-.
    vm_compute in Hrun. by injection Hrun as _ <- _ _ _.
  - vm_compute in Hsizes. injection Hsizes as <-.
    vm_compute in Hrun. discriminate Hrun.
  - vm_compute in Hsizes. injection Hsizes as <-.
    vm_compute in Hrun. discriminate Hrun.
Defined.

(** ** [build_avatar]: the fallback and the shape check *)

Lemma choose_size_fallback font text features target_w target_h sizes :
  Forall (λ q, rejects font text features target_w target_h q = true) sizes →
  choose_size font text features target_w target_h sizes =
  match shape_and_measure font text features 220 with
  | Return (Some (box, pls, names)) =>
      (map ShapeAt sizes ++ [ShapeAt 220], Return (220, box, pls, names))
  | Return None =>
      (map ShapeAt sizes ++ [ShapeAt 220],
       Raise (RuntimeError "Shaping produced no drawable glyphs."))
  | Raise e => (map ShapeAt sizes ++ [ShapeAt 220], Raise e)
  end.
Proof.
  intros Hrej. unfold choose_size. rewrite (fit_search_none _ _ _ _ _ _ Hrej).
  unfold fallback, io_bind, emit, io_lift, io_raise, io_ret.
  destruct (shape_and_measure font text features 220) as [[[[box pls] names]|]|e];
    cbn; by rewrite ?app_nil_r.
Qed.

Lemma build_avatar_unfold w font_path output_path text features shape size margin
    bg_color fg_color glow_color glow_blur fit_width_ratio fit_height_ratio
    font target_w target_h sizes :
  open_font w font_path = Some font →
  int_times_float size fit_width_ratio = Return target_w →
  int_times_float size fit_height_ratio = Return target_h →
  candidates size = Return sizes →
  build_avatar w font_path output_path text features shape size margin
    bg_color fg_color glow_color glow_blur fit_width_ratio fit_height_ratio =
  match choose_size font text features target_w target_h sizes with
  | (tr, Return c) =>
      let rest := compose w output_path shape size margin bg_color fg_color
                    glow_color glow_blur c in
      (LoadFont font_path :: tr ++ rest.1, rest.2)
  | (tr, Raise e) => (LoadFont font_path :: tr, Raise e)
  end.
Proof.
  intros Hfont Hw Hh Hsizes. unfold build_avatar, load_font.
  rewrite Hfont, Hw, Hh, Hsizes.
  unfold io_bind, emit, io_lift, io_ret. cbn [app].
  destruct (choose_size _ _ _ _ _ _) as [tr [c|e]]; [|reflexivity].
  by destruct (compose _ _ _ _ _ _ _ _ _ _).
Qed.

Lemma Forall_forallb {A} (f : A → bool) (l : list A) :
  forallb f l = true → Forall (λ x, f x = true) l.
Proof.
  induction l as [|x l IH]; cbn; [constructor|].
  intros [Hx Hl]%andb_true_iff. constructor; auto.
Qed.

(** C4. When every candidate of the search is rejected, the build shapes
    once more at 220 pixels. If that pass returns a result, the build goes
    on with size 220 and this result without testing it against the target
    box; if it returns [None], the build raises the no-drawable-glyphs error
    right there and the file is never saved. *)
Theorem build_avatar_fallback
    (w : World) (font_path output_path text : string) (features : gmap string Z)
    (shape : string) (size margin : Z) (bg_color fg_color glow_color : color)
    (glow_blur fit_width_ratio fit_height_ratio : float)
    (font : Font) (target_w target_h : float) (sizes : list Z) :
  open_font w font_path = Some font →
  int_times_float size fit_width_ratio = Return target_w →
  int_times_float size fit_height_ratio = Return target_h →
  candidates size = Return sizes →
  Forall (λ q, rejects font text features target_w target_h q = true) sizes →
  let searched := LoadFont font_path :: map ShapeAt sizes ++ [ShapeAt 220] in
  let built := build_avatar w font_path output_path text features shape size
                 margin bg_color fg_color glow_color glow_blur
                 fit_width_ratio fit_height_ratio in
  match shape_and_measure font text features 220 with
  | Return (Some (box, pls, names)) =>
      let rest := compose w output_path shape size margin bg_color fg_color
                    glow_color glow_blur (220, box, pls, names) in
      built = (searched ++ rest.1, rest.2)
  | Return None =>
      built = (searched, Raise (RuntimeError "Shaping produced no drawable glyphs.")) ∧
      ∀ p, SaveImage p ∉ built.1
  | Raise e => built = (searched, Raise e)
  end.
Proof.
  intros Hfont Hw Hh Hsizes Hrej searched built. subst built.
  rewrite (build_avatar_unfold _ _ _ _ _ _ _ _ _ _ _ _ _ _ _ _ _ _ Hfont Hw Hh Hsizes).
  rewrite (choose_size_fallback _ _ _ _ _ _ Hrej).
  destruct (shape_and_measure font text features 220) as [[[[box pls] names]|]|e];
    cbv zeta; subst searched; cbn [app fst snd].
  - by rewrite <- app_assoc.
  - split; [reflexivity|]. intros p Hin.
    apply elem_of_cons in Hin as [?|Hin]; [discriminate|].
    apply elem_of_app in Hin as [Hin|Hin].
    + apply list_elem_of_fmap in Hin as (q & ? & _). discriminate.
    + apply list_elem_of_singleton in Hin. discriminate.
  - reflexivity.
Qed.

(** Fifty glyphs on a canvas of 300 pixels never fit; the build still
    succeeds at 220 pixels with a mask far wider than the canvas. A text of
    one space has nothing to draw at any size. *)
Lemma build_avatar_fallback_witness :
  (demo_build "AAAAAAAAAAAAAAAAAAAAAAAAAAAAAAAAAAAAAAAAAAAAAAAAAA" "circle" 300).2
    = Return (220, repeat "A" 50) ∧
  (demo_build " " "circle" 300).2
    = Raise (RuntimeError "Shaping produced no drawable glyphs.") ∧
  ∀ p, SaveImage p ∉ (demo_build " " "circle" 300).1.
Proof.
  assert (Hsizes : candidates 300 = Return (range_down 220 63 2))
    by (vm_compute; reflexivity).
  split; [|].
  - pose proof (build_avatar_fallback demo_world "demo.ttf" "out/avatar.png"
      "AAAAAAAAAAAAAAAAAAAAAAAAAAAAAAAAAAAAAAAAAAAAAAAAAA" ∅ "circle" 300 72
      (46, 52, 64, 255) (136, 192, 208, 255) (94, 129, 172, 190) (of_cint 8)
      (hundredths 72) (hundredths 36) demo_font
      (PyFloat.mul (of_cint 300) (hundredths 72))
      (PyFloat.mul (of_cint 300) (hundredths 36)) (range_down 220 63 2)
      eq_refl eq_refl eq_refl Hsizes) as H.
    cbv zeta in H.
    destruct (shape_and_measure demo_font _ ∅ 220) as [[[[box pls] names]|]|e] eqn:H220;
      try (vm_compute in H220; discriminate H220).
    unfold demo_build. rewrite H.
    + assert (names = repeat "A" 50) as ->
        by (vm_compute in H220; by injection H220 as _ _ <-).
      clear H. vm_compute in H220. injection H220 as <- <- .
      vm_compute. reflexivity.
    + apply Forall_forallb. vm_compute. reflexivity.
  - pose proof (build_avatar_fallback demo_world "demo.ttf" "out/avatar.png"
      " " ∅ "circle" 300 72
      (46, 52, 64, 255) (136, 192, 208, 255) (94, 129, 172, 190) (of_cint 8)
      (hundredths 72) (hundredths 36) demo_font
      (PyFloat.mul (of_cint 300) (hundredths 72))
      (PyFloat.mul (of_cint 300) (hundredths 36)) (range_down 220 63 2)
      eq_refl eq_refl eq_refl Hsizes) as H.
    cbv zeta in H.
    destruct (shape_and_measure demo_font " " ∅ 220) as [[[[box pls] names]|]|e] eqn:H220;
      try (vm_compute in H220; discriminate H220).
    destruct H as [Hbuilt Hsave].
    + apply Forall_forallb. vm_compute. reflexivity.
    + unfold demo_build. split; [by rewrite Hbuilt | exact Hsave].
Defined.

Lemma compose_invalid_shape w output_path shape size margin bg_color fg_color
    glow_color glow_blur font_px box pls names :
  valid_shape shape = false →
  compose w output_path shape size margin bg_color fg_color glow_color glow_blur
    (font_px, box, pls, names) =
  match make_text_mask box pls with
  | Return (_, (text_width, text_height)) =>
      ([BuildMask text_width text_height],
       Raise (ValueError "Unsupported shape: " shape))
  | Raise e => ([], Raise e)
  end.
Proof.
  intros [Hc Hs]%orb_false_iff. unfold compose, io_bind, io_lift, emit, io_raise.
  destruct (make_text_mask box pls) as [[mask [tw th]]|e]; [|reflexivity].
  by rewrite Hc, Hs.
Qed.

Lemma fit_search_trace font text features target_w target_h sizes :
  Forall (λ ev, rendering_event ev = true)
    (fit_search font text features target_w target_h sizes).1.
Proof.
  induction sizes as [|q sizes IH]; [constructor|].
  rewrite fit_search_cons.
  destruct (shape_and_measure font text features q) as [[s|]|e];
    [destruct (fits_box target_w target_h s)| |]; cbn [fst]; repeat constructor; done.
Qed.

Lemma choose_size_trace font text features target_w target_h sizes :
  Forall (λ ev, rendering_event ev = true)
    (choose_size font text features target_w target_h sizes).1.
Proof.
  unfold choose_size, io_bind.
  pose proof (fit_search_trace font text features target_w target_h sizes) as Htr.
  destruct (fit_search _ _ _ _ _ _) as [tr [[c|]|e]]; cbn [fst] in *.
  - cbn. by rewrite app_nil_r.
  - unfold fallback, io_bind, emit, io_lift, io_raise, io_ret.
    destruct (shape_and_measure font text features 220) as [[[[box pls] names]|]|e];
      cbn; apply Forall_app; split; try done; repeat constructor.
  - done.
Qed.

(** C2 as stated fails for [build_avatar]: called on the demo font with the
    shape ["hexagon"], it loads the font, runs the whole search and builds
    the mask, and only then raises. *)
Lemma build_avatar_checks_shape_late :
  valid_shape "hexagon" = false ∧
  ¬ fails_before_rendering (demo_build "ABC" "hexagon" 1024) ∧
  (demo_build "ABC" "hexagon" 1024).2 = Raise (ValueError "Unsupported shape: " "hexagon") ∧
  (demo_build " " "hexagon" 1024).2 = Raise (RuntimeError "Shaping produced no drawable glyphs.").
Proof.
  split; [reflexivity|]. split; [|split; vm_compute; reflexivity].
  intros [_ Hnone].
  assert (∃ tl, (demo_build "ABC" "hexagon" 1024).1 = LoadFont "demo.ttf" :: tl)
    as [tl Htl] by (vm_compute; eexists; reflexivity).
  rewrite Htl in Hnone. apply Forall_inv in Hnone. discriminate Hnone.
Qed.

(** C2, amended. On the command line a shape other than ["circle"] and
    ["square"] is refused by the argument parser: [main] fails before
    anything else happens. [build_avatar] itself, given such a shape, never
    returns and never creates a canvas or writes a file: it loads the font,
    searches and builds the mask, and when all of that succeeds it raises
    the unsupported-shape error. *)
Theorem invalid_shape_rejected
    (w : World) (font_path output_path text : string) (features : gmap string Z)
    (shape : string) (size margin : Z) (bg_color fg_color glow_color : color)
    (glow_blur fit_width_ratio fit_height_ratio : float) :
  valid_shape shape = false →
  let built := build_avatar w font_path output_path text features shape size
                 margin bg_color fg_color glow_color glow_blur
                 fit_width_ratio fit_height_ratio in
  (∀ cl, cl_shape cl = Some shape →
     main w cl = ([], Raise (ArgparseError "--shape" shape)) ∧
     fails_before_rendering (main w cl)) ∧
  (∃ e, built.2 = Raise e) ∧
  Forall (λ ev, rendering_event ev = true) built.1 ∧
  (∀ font target_w target_h sizes tr font_px box pls names mask text_width text_height,
     open_font w font_path = Some font →
     int_times_float size fit_width_ratio = Return target_w →
     int_times_float size fit_height_ratio = Return target_h →
     candidates size = Return sizes →
     choose_size font text features target_w target_h sizes
       = (tr, Return (font_px, box, pls, names)) →
     make_text_mask box pls = Return (mask, (text_width, text_height)) →
     built = (LoadFont font_path :: tr ++ [BuildMask text_width text_height],
              Raise (ValueError "Unsupported shape: " shape))).
Proof.
  intros Hshape built.
  assert (Hmain : ∀ cl, cl_shape cl = Some shape →
            main w cl = ([], Raise (ArgparseError "--shape" shape))).
  { intros cl Hcl. unfold main, parse_args, check_shape_choice. rewrite Hcl.
    unfold shape_choices. cbn [existsb]. fold (valid_shape shape).
    rewrite orb_false_r. fold (valid_shape shape). by rewrite Hshape. }
  split; [|].
  { intros cl Hcl. rewrite (Hmain cl Hcl). split; [reflexivity|].
    split; [by eexists | constructor]. }
  assert (Hgen : (∃ e, built.2 = Raise e) ∧
                 Forall (λ ev, rendering_event ev = true) built.1).
  { subst built.
    destruct (open_font w font_path) as [font|] eqn:Hfont;
    [destruct (int_times_float size fit_width_ratio) as [target_w|e] eqn:Hw;
     [destruct (int_times_float size fit_height_ratio) as [target_h|e] eqn:Hh;
      [destruct (candidates size) as [sizes|e] eqn:Hsizes|]|]|].
    2-5: unfold build_avatar, load_font, io_bind, emit, io_lift, io_ret, io_raise;
         rewrite ?Hfont, ?Hw, ?Hh, ?Hsizes; cbn;
         (split; [by eexists | repeat constructor]).
    rewrite (build_avatar_unfold _ _ _ _ _ _ _ _ _ _ _ _ _ _ _ _ _ _ Hfont Hw Hh Hsizes).
    pose proof (choose_size_trace font text features target_w target_h sizes) as Htr.
    destruct (choose_size _ _ _ _ _ _) as [tr [[[[font_px box] pls] names]|e]];
      cbn [fst] in Htr; [|split; [by eexists | by constructor]].
    rewrite (compose_invalid_shape _ _ _ _ _ _ _ _ _ _ _ _ _ Hshape).
    destruct (make_text_mask box pls) as [[mask [tw th]]|e]; cbn [fst snd].
    - split; [by eexists|]. constructor; [done|].
      apply Forall_app. split; [done | by repeat constructor].
    - split; [by eexists|]. constructor; [done|]. by rewrite app_nil_r. }
  split; [apply Hgen|]. split; [apply Hgen|].
  intros font target_w target_h sizes tr font_px box pls names mask tw th
    Hfont Hw Hh Hsizes Hchoose Hmask. subst built.
  rewrite (build_avatar_unfold _ _ _ _ _ _ _ _ _ _ _ _ _ _ _ _ _ _ Hfont Hw Hh Hsizes).
  rewrite Hchoose. cbv zeta.
  by rewrite (compose_invalid_shape _ _ _ _ _ _ _ _ _ _ _ _ _ Hshape), Hmask.
Qed.

Lemma invalid_shape_rejected_witness :
  main demo_world
    {| cl_font := Some "demo.ttf"; cl_output := None; cl_text := Some "ABC";
       cl_features := None; cl_shape := Some "hexagon"; cl_size := None;
       cl_margin := None; cl_fit_width_ratio := None; cl_fit_height_ratio := None;
       cl_bg := None; cl_fg := None; cl_glow := None; cl_glow_alpha := None;
       cl_glow_blur := None |}
  = ([], Raise (ArgparseError "--shape" "hexagon")).
Proof.
  pose proof (invalid_shape_rejected demo_world "demo.ttf" "out/avatar.png" "ABC" ∅
    "hexagon" 1024 72 (46, 52, 64, 255) (136, 192, 208, 255) (94, 129, 172, 190)
    (of_cint 8) (hundredths 72) (hundredths 36) eq_refl) as [Hmain _].
  by apply Hmain.
Defined.

(** * Further properties *)

(** ** [parse_color]: padding and range *)

(** ** [parse_color]: surrounding whitespace, channel bounds *)

Lemma lstrip_spaces s : all_chars PyStr.is_space s = true → PyStr.lstrip s = "".
Proof.
  induction s as [|c s IH]; cbn [all_chars PyStr.lstrip]; [done|].
  intros [-> Hs]%andb_true_iff. by apply IH.
Qed.

Lemma rstrip_spaces s : all_chars PyStr.is_space s = true → PyStr.rstrip s = "".
Proof.
  induction s as [|c s IH]; cbn [all_chars PyStr.rstrip]; [done|].
  intros [Hc Hs]%andb_true_iff. by rewrite (IH Hs), Hc.
Qed.

Lemma append_cons c s t : String.append (String c s) t = String c (String.append s t).
Proof. reflexivity. Qed.

Lemma append_nil t : String.append "" t = t.
Proof. reflexivity. Qed.

Lemma lstrip_app_spaces pre t :
  all_chars PyStr.is_space pre = true →
  PyStr.lstrip (String.append pre t) = PyStr.lstrip t.
Proof.
  induction pre as [|c pre IH]; rewrite ?append_nil, ?append_cons;
    cbn [all_chars PyStr.lstrip]; [done|].
  intros [-> Hs]%andb_true_iff. by apply IH.
Qed.

Lemma rstrip_app_spaces t suf :
  all_chars PyStr.is_space suf = true →
  PyStr.rstrip (String.append t suf) = PyStr.rstrip t.
Proof.
  intros Hsuf. induction t as [|c t IH]; rewrite ?append_nil, ?append_cons;
    cbn [PyStr.rstrip].
  - by apply rstrip_spaces.
  - by rewrite IH.
Qed.

Lemma strip_app_spaces pre s suf :
  all_chars PyStr.is_space pre = true → all_chars PyStr.is_space suf = true →
  PyStr.strip (String.append pre (String.append s suf)) = PyStr.strip s.
Proof.
  intros Hpre Hsuf. unfold PyStr.strip. rewrite lstrip_app_spaces by done.
  induction s as [|c s IH]; rewrite ?append_nil, ?append_cons; cbn [PyStr.lstrip].
  - by rewrite (lstrip_spaces _ Hsuf).
  - destruct (PyStr.is_space c); [exact IH|].
    rewrite <- append_cons. by apply rstrip_app_spaces.
Qed.

(** X2. [parse_color] ignores whitespace around its argument: padding the
    text on either side with whitespace changes neither the colour returned
    nor the error raised. *)
Theorem parse_color_ignores_outer_whitespace (pre value suf : string) (alpha : Z) :
  all_chars PyStr.is_space pre = true → all_chars PyStr.is_space suf = true →
  parse_color (String.append pre (String.append value suf)) alpha = parse_color value alpha.
Proof. intros Hpre Hsuf. unfold parse_color. by rewrite strip_app_spaces. Qed.

Lemma parse_color_ignores_outer_whitespace_witness :
  parse_color "  #88C0D0 " 255 = Return (136, 192, 208, 255).
Proof.
  change (parse_color (String.append "  " (String.append "#88C0D0" " ")) 255
          = Return (136, 192, 208, 255)).
  rewrite (parse_color_ignores_outer_whitespace "  " "#88C0D0" " " 255 eq_refl eq_refl).
  vm_compute. reflexivity.
Defined.

(** *** The size of what [int] reads *)

Lemma digit_in_bounds base c d : PyStr.digit_in base c = Some d → 0 ≤ d < base.
Proof.
  unfold PyStr.digit_in, PyStr.digit_value.
  repeat case_match; intros [= <-]; try done;
    repeat match goal with
           | H : _ && _ = true |- _ => apply andb_true_iff in H as [?%Z.leb_le ?%Z.leb_le]
           | H : (_ <? _) = true |- _ => apply Z.ltb_lt in H
           end; simplify_eq; lia.
Qed.

Lemma skip_int_space_length s :
  (String.length (PyStr.skip_int_space s) ≤ String.length s)%nat.
Proof.
  induction s as [|c s IH]; cbn [PyStr.skip_int_space String.length]; [done|].
  destruct (PyStr.is_int_space c); cbn [String.length]; lia.
Qed.

Lemma skip_prefix_length base s :
  (String.length (PyStr.skip_prefix base s) ≤ String.length s)%nat.
Proof.
  unfold PyStr.skip_prefix. repeat case_match; subst; cbn [String.length]; lia.
Qed.

Lemma scan_digits_bounds base s acc prev seen v rest :
  2 ≤ base → 0 ≤ acc →
  PyStr.scan_digits base s acc prev seen = Some (v, rest) →
  acc ≤ v < (acc + 1) * base ^ Z.of_nat (String.length s).
Proof.
  intros Hbase. revert acc prev seen.
  induction s as [|c s IH]; intros acc prev seen Hacc; cbn [PyStr.scan_digits String.length].
  - destruct (prev || negb seen); intros [= <- <-]. cbn. lia.
  - rewrite Nat2Z.inj_succ, Z.pow_succ_r by lia.
    assert (0 < base ^ Z.of_nat (String.length s)) by (apply Z.pow_pos_nonneg; lia).
    destruct (Ascii.eqb c "_").
    + destruct prev; [discriminate|]. intros Hs%IH; [|done]. nia.
    + destruct (PyStr.digit_in base c) as [d|] eqn:Hd.
      * apply digit_in_bounds in Hd. intros Hs%IH; [|nia]. nia.
      * destruct (prev || negb seen); intros [= <- <-]. nia.
Qed.

(** A literal of [n] characters stays below [base^n], and above
    [-base^(n-1)] since the sign takes a character. *)
Lemma int_literal_bounds base s v :
  2 ≤ base → PyStr.int_literal base s = Some v →
  - base ^ (Z.of_nat (String.length s) - 1) < v < base ^ Z.of_nat (String.length s).
Proof.
  intros Hbase. unfold PyStr.int_literal.
  pose proof (skip_int_space_length s) as Hlen.
  set (s1 := PyStr.skip_int_space s) in *.
  assert (Hpow : ∀ a b, 0 ≤ a ≤ b → 0 < base ^ a ≤ base ^ b).
  { intros a b Hab. split; [apply Z.pow_pos_nonneg; lia | apply Z.pow_le_mono_r; lia]. }
  assert (Hscan : ∀ t (k : nat) (neg : bool), (String.length t ≤ k)%nat →
    (if PyStr.startswith_char "_" (PyStr.skip_prefix base t) then None
     else match PyStr.scan_digits base (PyStr.skip_prefix base t) 0 false false with
          | Some (v, rest) =>
              match PyStr.skip_int_space rest with
              | "" => Some (if neg then - v else v)
              | String _ _ => None
              end
          | None => None
          end) = Some v →
    if neg then - base ^ Z.of_nat k < v ≤ 0 else 0 ≤ v < base ^ Z.of_nat k).
  { intros t k neg Hk. destruct (PyStr.startswith_char _ _); [discriminate|].
    destruct (PyStr.scan_digits _ _ _ _ _) as [[v' rest]|] eqn:Hs; [|discriminate].
    apply scan_digits_bounds in Hs; [|done|lia].
    pose proof (skip_prefix_length base t).
    pose proof (Hpow (Z.of_nat (String.length (PyStr.skip_prefix base t))) (Z.of_nat k)
                  ltac:(lia)).
    destruct (PyStr.skip_int_space rest); [|discriminate].
    destruct neg; intros [= <-]; lia. }
  destruct s1 as [|c s2] eqn:Hs1.
  - cbn. discriminate.
  - cbn [String.length] in Hlen.
    pose proof (Hpow (Z.of_nat (String.length s2)) (Z.of_nat (String.length s) - 1) ltac:(lia)).
    pose proof (Hpow (Z.of_nat (String.length s) - 1) (Z.of_nat (String.length s)) ltac:(lia)).
    pose proof (Hpow (Z.of_nat (S (String.length s2))) (Z.of_nat (String.length s)) ltac:(lia)).
    destruct (Ascii.eqb c "+").
    { intros Hv. apply (Hscan s2 _ false (le_n _)) in Hv. lia. }
    destruct (Ascii.eqb c "-").
    { intros Hv. apply (Hscan s2 _ true (le_n _)) in Hv. lia. }
    intros Hv. apply (Hscan (String c s2) _ false (le_n _)) in Hv.
    cbn [String.length] in Hv. lia.
Qed.

Lemma int_two_chars c1 c2 v :
  PyStr.int 16 (String c1 (String c2 "")) = Return v → -15 ≤ v ≤ 255.
Proof.
  unfold PyStr.int. destruct (PyStr.int_literal 16 _) as [v'|] eqn:Hlit; [|discriminate].
  intros [= <-]. apply int_literal_bounds in Hlit; [|lia].
  cbn [String.length] in Hlit.
  change (16 ^ (Z.of_nat 2 - 1)) with 16 in Hlit. change (16 ^ Z.of_nat 2) with 256 in Hlit.
  lia.
Qed.

Lemma len_six v :
  PyStr.len v = 6 →
  ∃ c1 c2 c3 c4 c5 c6,
    v = String c1 (String c2 (String c3 (String c4 (String c5 (String c6 ""))))).
Proof.
  unfold PyStr.len.
  destruct v as [|c1 [|c2 [|c3 [|c4 [|c5 [|c6 [|c7 v]]]]]]]; cbn [String.length];
    intros H; try lia.
  by eexists _, _, _, _, _, _.
Qed.

(** X3. Whatever [parse_color] returns, the alpha is the one it was given,
    every channel lies between -15 and 255, and the text, once stripped and
    without its leading ["#"], had exactly six characters: a channel above
    255 is never produced, and any other length raises. *)
Theorem parse_color_returns_bounded (value : string) (alpha r g b a : Z) :
  parse_color value alpha = Return (r, g, b, a) →
  a = alpha ∧ -15 ≤ r ≤ 255 ∧ -15 ≤ g ≤ 255 ∧ -15 ≤ b ≤ 255 ∧
  let stripped := PyStr.strip value in
  PyStr.len (if PyStr.startswith_char "#" stripped then PyStr.tail stripped
             else stripped) = 6.
Proof.
  unfold parse_color. cbv zeta.
  set (v := if PyStr.startswith_char "#" (PyStr.strip value)
            then PyStr.tail (PyStr.strip value) else PyStr.strip value).
  destruct (Z.eqb_spec (PyStr.len v) 6) as [Hlen|]; [|discriminate]. cbn [negb].
  destruct (len_six v Hlen) as (c1 & c2 & c3 & c4 & c5 & c6 & ->).
  change (PyStr.slice 0 2 _) with (String c1 (String c2 "")).
  change (PyStr.slice 2 4 _) with (String c3 (String c4 "")).
  change (PyStr.slice 4 6 _) with (String c5 (String c6 "")).
  intros (r' & Hr%int_two_chars & (g' & Hg%int_two_chars &
            (b' & Hb%int_two_chars & [= <- <- <- <-])%rbind_Return)%rbind_Return)%rbind_Return.
  done.
Qed.

Lemma parse_color_returns_bounded_witness :
  255 = 255 ∧ -15 ≤ -1 ≤ 255 ∧ -15 ≤ 255 ≤ 255 ∧ -15 ≤ 10 ≤ 255 ∧
  PyStr.len "-1ff0a" = 6.
Proof.
  apply (parse_color_returns_bounded " #-1ff0a" 255 (-1) 255 10 255).
  vm_compute. reflexivity.
Defined.

(** ** [parse_features]: errors, absent tags, blank items *)

(** ** [parse_features]: errors, absent tags, blank items *)

Lemma parse_features_loop_raise items features e :
  parse_features_loop items features = Raise e ↔
  ∃ l1 item l2, items = l1 ++ item :: l2 ∧
    Forall (λ it, is_Return (item_binding it)) l1 ∧ item_binding item = Raise e.
Proof.
  revert features. induction items as [|item items IH]; intros features; cbn [parse_features_loop].
  - split; [discriminate|]. intros (l1 & it & l2 & Heq & _). by destruct l1.
  - rewrite parse_feature_item_binding.
    destruct (item_binding item) as [[[tag v]|]|e'] eqn:Hb; cbn [rbind].
    + rewrite IH. split.
      * intros (l1 & it & l2 & -> & Hok & Hit). exists (item :: l1), it, l2.
        repeat split; [|done]. constructor; [by eexists|done].
      * intros (l1 & it & l2 & Heq & Hok & Hit). destruct l1 as [|x l1]; cbn in Heq.
        { injection Heq as <- <-. congruence. }
        injection Heq as <- ->. apply Forall_cons in Hok as [_ Hok]. by exists l1, it, l2.
    + rewrite IH. split.
      * intros (l1 & it & l2 & -> & Hok & Hit). exists (item :: l1), it, l2.
        repeat split; [|done]. constructor; [by eexists|done].
      * intros (l1 & it & l2 & Heq & Hok & Hit). destruct l1 as [|x l1]; cbn in Heq.
        { injection Heq as <- <-. congruence. }
        injection Heq as <- ->. apply Forall_cons in Hok as [_ Hok]. by exists l1, it, l2.
    + split.
      * intros [= ->]. by exists [], item, items.
      * intros (l1 & it & l2 & Heq & Hok & Hit). destruct l1 as [|x l1]; cbn in Heq.
        { injection Heq as <- <-. congruence. }
        injection Heq as <- ->. apply Forall_cons in Hok as [[? Hx] _]. congruence.
Qed.

(** X4. [parse_features] raises exactly when some comma-separated item is
    malformed, and the error is that of the first such item: the items
    before it are well formed, nothing of them is returned. *)
Theorem parse_features_first_error (features_text : string) (e : exn) :
  parse_features features_text = Raise e ↔
  ∃ l1 item l2, PyStr.split "," features_text = l1 ++ item :: l2 ∧
    Forall (λ it, is_Return (item_binding it)) l1 ∧ item_binding item = Raise e.
Proof. apply parse_features_loop_raise. Qed.

Lemma parse_features_loop_absent items features m tag :
  parse_features_loop items features = Return m →
  (m !! tag = None ↔
   features !! tag = None ∧
   Forall (λ it, ∀ v, item_binding it ≠ Return (Some (tag, v))) items).
Proof.
  revert features. induction items as [|item items IH]; intros features; cbn [parse_features_loop].
  - intros [= ->]. split; [by split|by intros []].
  - rewrite parse_feature_item_binding.
    destruct (item_binding item) as [[[tag' v]|]|e'] eqn:Hb; cbn [rbind]; [| |done].
    + intros Hrun. rewrite (IH _ Hrun). rewrite Forall_cons.
      destruct (decide (tag' = tag)) as [->|Hne].
      * rewrite lookup_insert_eq. split; [intros [? _]; done|].
        intros (_ & Hno & _). by destruct (Hno v).
      * rewrite lookup_insert_ne by done. split.
        -- intros [? ?]. repeat split; try done. intros v' Hv'. congruence.
        -- intros (? & _ & ?). by split.
    + intros Hrun. rewrite (IH _ Hrun). rewrite Forall_cons. split.
      * intros [? ?]. repeat split; try done. intros v. congruence.
      * intros (? & _ & ?). by split.
Qed.

(** X5. In the mapping [parse_features] returns, a tag is absent exactly
    when no item of the text binds it; in particular a text of blank items
    only gives the empty mapping. *)
Theorem parse_features_absent_tag (features_text : string) (m : gmap string Z) :
  parse_features features_text = Return m →
  (∀ tag, m !! tag = None ↔
     Forall (λ it, ∀ v, item_binding it ≠ Return (Some (tag, v)))
       (PyStr.split "," features_text)) ∧
  (Forall (λ it, item_binding it = Return None) (PyStr.split "," features_text) → m = ∅).
Proof.
  intros Hrun. unfold parse_features in Hrun.
  assert (Habs : ∀ tag, m !! tag = None ↔
     Forall (λ it, ∀ v, item_binding it ≠ Return (Some (tag, v)))
       (PyStr.split "," features_text)).
  { intros tag. rewrite (parse_features_loop_absent _ _ _ tag Hrun), lookup_empty. tauto. }
  split; [exact Habs|]. intros Hblank. apply map_empty. intros tag. apply Habs.
  eapply Forall_impl; [exact Hblank|]. intros it Hit v. cbn in Hit. congruence.
Qed.

Lemma parse_features_absent_tag_witness :
  ∃ m, parse_features " , ,," = Return m ∧ m = ∅.
Proof.
  destruct (parse_features " , ,,") as [m|e] eqn:Hrun; [|vm_compute in Hrun; discriminate].
  exists m. split; [reflexivity|].
  destruct (parse_features_absent_tag _ _ Hrun) as [_ Hempty]. apply Hempty.
  vm_compute. repeat constructor.
Defined.

(** *** Splitting at a separator *)

Lemma split_app_sep sep a b :
  PyStr.split sep (String.append a (String sep b)) = PyStr.split sep a ++ PyStr.split sep b.
Proof.
  induction a as [|c a IH]; rewrite ?append_nil, ?append_cons; cbn [PyStr.split].
  - by rewrite Ascii.eqb_refl.
  - destruct (Ascii.eqb c sep); [by rewrite IH|].
    rewrite IH. destruct (PyStr.split sep a) as [|f fs] eqn:Hs; [|done].
    by destruct a; cbn in Hs; repeat case_match.
Qed.

Lemma split_nonempty sep a : PyStr.split sep a ≠ [].
Proof. destruct a; cbn [PyStr.split]; repeat case_match; done. Qed.

Lemma parse_features_loop_blank l1 blank l2 features :
  PyStr.strip blank = "" →
  parse_features_loop (l1 ++ blank :: l2) features = parse_features_loop (l1 ++ l2) features.
Proof.
  intros Hblank. rewrite !parse_features_loop_app. cbn [parse_features_loop].
  destruct (parse_features_loop l1 features) as [f|e]; cbn [rbind]; [|done].
  unfold parse_feature_item. by rewrite Hblank.
Qed.

(** X6. An empty or blank item changes nothing: a feature text with an extra
    comma and whitespace between two parts parses like the text with a
    single comma there. *)
Theorem parse_features_ignores_blank_items (a blank b : string) :
  all_chars PyStr.is_space blank = true →
  PyStr.contains "," blank = false →
  parse_features (String.append a (String "," (String.append blank (String "," b)))) =
  parse_features (String.append a (String "," b)).
Proof.
  intros Hblank Hcomma. unfold parse_features.
  rewrite !split_app_sep.
  assert (Hsplit : PyStr.split "," blank = [blank]).
  { clear Hblank. induction blank as [|c s IH]; [done|]. cbn [PyStr.contains PyStr.split] in *.
    apply orb_false_iff in Hcomma as [-> Hc]. by rewrite (IH Hc). }
  rewrite Hsplit. cbn [app].
  apply parse_features_loop_blank. unfold PyStr.strip.
  by rewrite lstrip_spaces.
Qed.

Lemma parse_features_ignores_blank_items_witness :
  parse_features "liga=0,  ,zero" = parse_features "liga=0,zero".
Proof.
  exact (parse_features_ignores_blank_items "liga=0" "  " "zero" eq_refl eq_refl).
Defined.

(** ** The order of the floats and the bounding box *)

(** ** The order of the float comparisons *)

Lemma ltb_key x y :
  is_nan x = false → is_nan y = false →
  (PyFloat.ltb x y = true ↔ key_lt (float_key x) (float_key y)).
Proof.
  unfold PyFloat.ltb, SFltb, key_lt.
  destruct x as [[]|[]| |[] m e], y as [[]|[]| |[] m' e']; intros Hx Hy;
    try discriminate; cbn;
    try (split; [intros Hc; try discriminate Hc; lia | intros Hc; try reflexivity; lia]).
  - change (PosDef.Pos.compare_cont Eq m m') with (Pos.compare m m').
    destruct (Z.compare_spec e e'), (Pos.compare_spec m m'); cbn;
      (split; [intros Hc; try discriminate Hc; lia | intros Hc; try reflexivity; lia]).
  - change (PosDef.Pos.compare_cont Eq m m') with (Pos.compare m m').
    destruct (Z.compare_spec e e'), (Pos.compare_spec m m'); cbn;
      (split; [intros Hc; try discriminate Hc; lia | intros Hc; try reflexivity; lia]).
Qed.

Lemma leb_key x y :
  is_nan x = false → is_nan y = false →
  (PyFloat.leb x y = true ↔ key_le (float_key x) (float_key y)).
Proof.
  unfold PyFloat.leb, SFleb, key_le.
  destruct x as [[]|[]| |[] m e], y as [[]|[]| |[] m' e']; intros Hx Hy;
    try discriminate; cbn;
    try (split; [intros Hc; try discriminate Hc; lia | intros Hc; try reflexivity; lia]).
  - change (PosDef.Pos.compare_cont Eq m m') with (Pos.compare m m').
    destruct (Z.compare_spec e e'), (Pos.compare_spec m m'); cbn;
      (split; [intros Hc; try discriminate Hc; lia | intros Hc; try reflexivity; lia]).
  - change (PosDef.Pos.compare_cont Eq m m') with (Pos.compare m m').
    destruct (Z.compare_spec e e'), (Pos.compare_spec m m'); cbn;
      (split; [intros Hc; try discriminate Hc; lia | intros Hc; try reflexivity; lia]).
Qed.

Lemma min2_spec a x :
  is_nan a = false → is_nan x = false →
  is_nan (min2 a x) = false ∧
  key_le (float_key (min2 a x)) (float_key a) ∧
  key_le (float_key (min2 a x)) (float_key x) ∧
  (min2 a x = a ∨ min2 a x = x).
Proof.
  intros Ha Hx. unfold min2.
  destruct (PyFloat.ltb x a) eqn:Hlt.
  - apply ltb_key in Hlt; [|done..]. unfold key_lt, key_le in *.
    repeat split; [done|lia|lia|by right].
  - assert (¬ key_lt (float_key x) (float_key a)) as Hn
      by (rewrite <- ltb_key by done; congruence).
    unfold key_lt, key_le in *. repeat split; [done|lia|lia|by left].
Qed.

Lemma max2_spec a x :
  is_nan a = false → is_nan x = false →
  is_nan (max2 a x) = false ∧
  key_le (float_key a) (float_key (max2 a x)) ∧
  key_le (float_key x) (float_key (max2 a x)) ∧
  (max2 a x = a ∨ max2 a x = x).
Proof.
  intros Ha Hx. unfold max2.
  destruct (PyFloat.ltb a x) eqn:Hlt.
  - apply ltb_key in Hlt; [|done..]. unfold key_lt, key_le in *.
    repeat split; [done|lia|lia|by right].
  - assert (¬ key_lt (float_key a) (float_key x)) as Hn
      by (rewrite <- ltb_key by done; congruence).
    unfold key_lt, key_le in *. repeat split; [done|lia|lia|by left].
Qed.

Lemma key_le_trans a b c : key_le a b → key_le b c → key_le a c.
Proof. unfold key_le. lia. Qed.

(** A running minimum over numbers is below its start and below every
    element, and it is the start or one of the elements. *)
Lemma fold_min2_spec xs a :
  is_nan a = false → Forall (λ x, is_nan x = false) xs →
  let r := fold_left min2 xs a in
  is_nan r = false ∧ key_le (float_key r) (float_key a) ∧
  Forall (λ x, key_le (float_key r) (float_key x)) xs ∧
  (r = a ∨ r ∈ xs).
Proof.
  intros Ha Hxs. revert a Ha.
  induction Hxs as [|x xs Hx _ IH]; intros a Ha; cbn [fold_left].
  - repeat split; [done|unfold key_le; lia|constructor|by left].
  - destruct (min2_spec a x Ha Hx) as (Hn & Hla & Hlx & Hor).
    destruct (IH _ Hn) as (Hrn & Hrl & Hall & Hin).
    repeat split; [done|by eapply key_le_trans| |].
    + constructor; [by eapply key_le_trans | done].
    + destruct Hin as [->|Hin]; [|right; by right].
      destruct Hor as [->| ->]; [by left | right; by left].
Qed.

Lemma fold_max2_spec xs a :
  is_nan a = false → Forall (λ x, is_nan x = false) xs →
  let r := fold_left max2 xs a in
  is_nan r = false ∧ key_le (float_key a) (float_key r) ∧
  Forall (λ x, key_le (float_key x) (float_key r)) xs ∧
  (r = a ∨ r ∈ xs).
Proof.
  intros Ha Hxs. revert a Ha.
  induction Hxs as [|x xs Hx _ IH]; intros a Ha; cbn [fold_left].
  - repeat split; [done|unfold key_le; lia|constructor|by left].
  - destruct (max2_spec a x Ha Hx) as (Hn & Hla & Hlx & Hor).
    destruct (IH _ Hn) as (Hrn & Hrl & Hall & Hin).
    repeat split; [done|by eapply key_le_trans| |].
    + constructor; [by eapply key_le_trans | done].
    + destruct Hin as [->|Hin]; [|right; by right].
      destruct Hor as [->| ->]; [by left | right; by left].
Qed.

Lemma fold_extend_box_edges pls b :
  fold_left extend_box pls b =
  (fold_left min2 (map GlyphPlacement.x pls) b.1.1.1,
   fold_left min2 (map GlyphPlacement.y pls) b.1.1.2,
   fold_left max2 (map placement_right pls) b.1.2,
   fold_left max2 (map placement_bottom pls) b.2).
Proof.
  revert b. induction pls as [|p pls IH]; intros [[[x0 y0] x1] y1]; [done|].
  cbn [fold_left map]. by rewrite IH.
Qed.

Lemma key_top x : is_nan x = false → key_le (2, 0, 0) (float_key x) → x = pos_inf.
Proof. destruct x as [[]|[]| |[] m e]; unfold key_le; cbn; intros; try done; lia. Qed.

Lemma key_bottom x : is_nan x = false → key_le (float_key x) (-2, 0, 0) → x = neg_inf.
Proof. destruct x as [[]|[]| |[] m e]; unfold key_le; cbn; intros; try done; lia. Qed.

(** What a result of [shape_and_measure] is made of. *)
Lemma shape_and_measure_Some_box font text features px box pls names :
  shape_and_measure font text features px = Return (Some (box, pls, names)) →
  ∃ scale, int_truediv px (upem font) = Return scale ∧
    pls = placements_from font px scale PyFloat.zero (shaped_glyphs font text features) ∧
    box = fold_left extend_box (filter (λ p, placement_has_area p = true) pls) empty_box ∧
    names = map (name_of font) (shaped_glyphs font text features) ∧
    PyFloat.eqb box.1.1.1 pos_inf = false.
Proof.
  rewrite shape_and_measure_unfold. intros (scale & Hscale & H)%rbind_Return.
  exists scale. split; [done|].
  destruct (measure_loop_spec font px scale (shaped_glyphs font text features))
    as (_ & Hpl & Hbox & Hnm).
  unfold measure_result in H.
  destruct (PyFloat.eqb (min_x _) pos_inf) eqn:Hmin; [discriminate|].
  injection H as <- <- <-. fold (state_box (measure_loop font px scale
    (shaped_glyphs font text features))).
  rewrite Hpl at 2. rewrite <- Hbox. by repeat split.
Qed.

(** X7. The box returned by [shape_and_measure] is the tight bounding box of
    the bitmaps drawn: when the edges of the placements with bitmap area are
    numbers, every such bitmap lies inside the box under the comparisons of
    the program, and each side of the box is an edge of one of them. *)
Theorem shape_and_measure_box_is_tight
    (font : Font) (text : string) (features : gmap string Z) (px_size : Z)
    (x0 y0 x1 y1 : float) (placements : list GlyphPlacement.t) (names : list string) :
  shape_and_measure font text features px_size
    = Return (Some ((x0, y0, x1, y1), placements, names)) →
  let inked := filter (λ p, placement_has_area p = true) placements in
  Forall (λ p, placement_edges_are_numbers p = true) inked →
  Forall (λ p, PyFloat.leb x0 (GlyphPlacement.x p) = true ∧
               PyFloat.leb y0 (GlyphPlacement.y p) = true ∧
               PyFloat.leb (placement_right p) x1 = true ∧
               PyFloat.leb (placement_bottom p) y1 = true) inked ∧
  (∃ p, p ∈ inked ∧ x0 = GlyphPlacement.x p) ∧
  (∃ p, p ∈ inked ∧ y0 = GlyphPlacement.y p) ∧
  (∃ p, p ∈ inked ∧ x1 = placement_right p) ∧
  (∃ p, p ∈ inked ∧ y1 = placement_bottom p).
Proof.
  intros Hrun inked Hnum.
  apply shape_and_measure_Some_box in Hrun as (scale & Hscale & _ & Hbox & _ & Hmin).
  fold inked in Hbox. cbn [fst] in Hmin.
  rewrite fold_extend_box_edges in Hbox. cbn [empty_box fst snd] in Hbox.
  injection Hbox as -> -> -> ->.
  assert (Hx : Forall (λ x, is_nan x = false) (map GlyphPlacement.x inked)).
  { apply Forall_fmap. eapply Forall_impl; [exact Hnum|]. intros p. cbn.
    unfold placement_edges_are_numbers. rewrite !andb_true_iff, !negb_true_iff. tauto. }
  assert (Hy : Forall (λ x, is_nan x = false) (map GlyphPlacement.y inked)).
  { apply Forall_fmap. eapply Forall_impl; [exact Hnum|]. intros p. cbn.
    unfold placement_edges_are_numbers. rewrite !andb_true_iff, !negb_true_iff. tauto. }
  assert (Hr : Forall (λ x, is_nan x = false) (map placement_right inked)).
  { apply Forall_fmap. eapply Forall_impl; [exact Hnum|]. intros p. cbn.
    unfold placement_edges_are_numbers. rewrite !andb_true_iff, !negb_true_iff. tauto. }
  assert (Hb : Forall (λ x, is_nan x = false) (map placement_bottom inked)).
  { apply Forall_fmap. eapply Forall_impl; [exact Hnum|]. intros p. cbn.
    unfold placement_edges_are_numbers. rewrite !andb_true_iff, !negb_true_iff. tauto. }
  destruct (fold_min2_spec _ pos_inf eq_refl Hx) as (Nx & _ & Ax & Ix).
  destruct (fold_min2_spec _ pos_inf eq_refl Hy) as (Ny & _ & Ay & Iy).
  destruct (fold_max2_spec _ neg_inf eq_refl Hr) as (Nr & _ & Ar & Ir).
  destruct (fold_max2_spec _ neg_inf eq_refl Hb) as (Nb & _ & Ab & Ib).
  cbv zeta in *.
  assert (Hne : inked ≠ []).
  { intros Hnil. rewrite Hnil in Hmin. cbn in Hmin. discriminate. }
  split; [|repeat split].
  - rewrite !Forall_fmap in Ax, Ay, Ar, Ab.
    rewrite Forall_forall in Hnum, Ax, Ay, Ar, Ab |- *. intros p Hp.
    specialize (Hnum p Hp). unfold placement_edges_are_numbers in Hnum.
    rewrite !andb_true_iff, !negb_true_iff in Hnum. destruct Hnum as [[[? ?] ?] ?].
    repeat split; apply leb_key; try done; [by apply Ax|by apply Ay|by apply Ar|by apply Ab].
  - destruct Ix as [Heq|Hin].
    + destruct inked as [|p inked']; [done|]. exists p. split; [by left|].
      rewrite Heq. symmetry. apply Forall_inv in Hx, Ax.
      apply key_top; [done|]. by rewrite Heq in Ax.
    + apply list_elem_of_fmap in Hin as (p & -> & Hp). by exists p.
  - destruct Iy as [Heq|Hin].
    + destruct inked as [|p inked']; [done|]. exists p. split; [by left|].
      rewrite Heq. symmetry. apply Forall_inv in Hy, Ay.
      apply key_top; [done|]. by rewrite Heq in Ay.
    + apply list_elem_of_fmap in Hin as (p & -> & Hp). by exists p.
  - destruct Ir as [Heq|Hin].
    + destruct inked as [|p inked']; [done|]. exists p. split; [by left|].
      rewrite Heq. symmetry. apply Forall_inv in Hr, Ar.
      apply key_bottom; [done|]. by rewrite Heq in Ar.
    + apply list_elem_of_fmap in Hin as (p & -> & Hp). by exists p.
  - destruct Ib as [Heq|Hin].
    + destruct inked as [|p inked']; [done|]. exists p. split; [by left|].
      rewrite Heq. symmetry. apply Forall_inv in Hb, Ab.
      apply key_bottom; [done|]. by rewrite Heq in Ab.
    + apply list_elem_of_fmap in Hin as (p & -> & Hp). by exists p.
Qed.

Lemma shape_and_measure_box_is_tight_witness :
  ∃ x0 y0 x1 y1 pls names,
    shape_and_measure demo_font "A B" ∅ 220 = Return (Some ((x0, y0, x1, y1), pls, names)) ∧
    ∃ p, p ∈ filter (λ p, placement_has_area p = true) pls ∧ x1 = placement_right p.
Proof.
  destruct (shape_and_measure demo_font "A B" ∅ 220)
    as [[[[[[[x0 y0] x1] y1] pls] names]|]|e] eqn:Hrun;
    try (vm_compute in Hrun; discriminate Hrun).
  exists x0, y0, x1, y1, pls, names. split; [reflexivity|].
  destruct (shape_and_measure_box_is_tight _ _ _ _ _ _ _ _ _ _ Hrun)
    as (_ & _ & _ & Hright & _); [|exact Hright].
  vm_compute in Hrun. injection Hrun as <- <- <- <- <- <-.
  apply Forall_forall. intros p [_ Hp]%list_elem_of_filter. revert p Hp.
  apply Forall_forall, Forall_forallb. vm_compute. reflexivity.
Defined.

(** ** Glyph names *)

Lemma placements_from_same_glyphs font font' px scale pen glyphs :
  load_glyph font' = load_glyph font →
  placements_from font' px scale pen glyphs = placements_from font px scale pen glyphs.
Proof.
  intros Hload. revert pen. induction glyphs as [|g gs IH]; intros pen; [done|].
  cbn [placements_from]. rewrite IH. unfold placement_of. by rewrite Hload.
Qed.

(** X8. A result of [shape_and_measure] carries one name per shaped glyph, in
    shaping order: the name the font gives, without its non-ASCII bytes, or
    the decimal glyph id when the lookup fails. The lookup has no other
    effect: a font that differs only in its glyph names gives the same box
    and the same placements. *)
Theorem shape_and_measure_names
    (font : Font) (text : string) (features : gmap string Z) (px_size : Z)
    (box : bbox) (placements : list GlyphPlacement.t) (names : list string) :
  shape_and_measure font text features px_size = Return (Some (box, placements, names)) →
  length names = length placements ∧
  (∀ (i : nat) info, (hb_shape font text features).1 !! i = Some info →
     (i < length placements)%nat →
     names !! i = Some match get_glyph_name font (codepoint info) with
                       | Some name => decode_ascii_ignore name
                       | None => PyStr.str_of_int (codepoint info)
                       end) ∧
  (∀ font', upem font' = upem font → hb_shape font' = hb_shape font →
     load_glyph font' = load_glyph font →
     ∃ names', shape_and_measure font' text features px_size
                 = Return (Some (box, placements, names'))).
Proof.
  intros Hrun.
  pose proof Hrun as (scale & Hscale & Hpls & Hbox & Hnames & Hmin)%shape_and_measure_Some_box.
  split; [|split].
  - rewrite Hnames, Hpls, length_map, placements_from_length. reflexivity.
  - intros i info Hinfo Hi. rewrite Hpls, placements_from_length in Hi.
    destruct (lookup_lt_is_Some_2 _ _ Hi) as [[info' pos] Hg].
    rewrite Hnames, list_lookup_fmap, Hg. cbn. unfold name_of. cbn.
    assert (info' = info) as ->; [|done].
    unfold shaped_glyphs in Hg. destruct (hb_shape font text features) as [infos positions].
    cbn in *. clear Hi. revert i positions Hinfo Hg.
    induction infos as [|a infos IH]; intros [|i] [|b positions] Hinfo Hg; cbn in *; try done.
    + congruence.
    + by eapply IH.
  - intros font' Hupem Hshape Hload.
    rewrite shape_and_measure_unfold, Hupem, Hscale. cbn [rbind].
    assert (Hglyphs : shaped_glyphs font' text features = shaped_glyphs font text features)
      by (unfold shaped_glyphs; by rewrite Hshape).
    rewrite Hglyphs.
    destruct (measure_loop_spec font' px_size scale (shaped_glyphs font text features))
      as (_ & Hpl' & Hbox' & _).
    assert (Hsame : placements_from font' px_size scale PyFloat.zero
                      (shaped_glyphs font text features) = placements).
    { rewrite Hpls. by apply placements_from_same_glyphs. }
    rewrite Hsame in Hpl', Hbox'. rewrite <- Hbox in Hbox'.
    unfold measure_result.
    change (min_x ?st, min_y ?st, max_x ?st, max_y ?st) with (state_box st).
    change (min_x ?st) with (state_box st).1.1.1.
    rewrite Hbox', Hmin, Hpl'. by eexists.
Qed.

Lemma shape_and_measure_names_witness :
  ∃ box pls, shape_and_measure demo_font "A B" ∅ 220 = Return (Some (box, pls, ["A"; "32"; "B"])).
Proof.
  destruct (shape_and_measure demo_font "A B" ∅ 220) as [[[[box pls] names]|]|e] eqn:Hrun;
    try (vm_compute in Hrun; discriminate Hrun).
  exists box, pls.
  destruct (shape_and_measure_names _ _ _ _ _ _ _ Hrun) as (Hlen & Hname & _).
  do 3 f_equal.
  assert (Hl : length pls = 3%nat) by (vm_compute in Hrun; by injection Hrun as _ <- _).
  rewrite Hl in Hlen, Hname.
  pose proof (Hname 0%nat _ eq_refl ltac:(lia)) as H0.
  pose proof (Hname 1%nat _ eq_refl ltac:(lia)) as H1.
  pose proof (Hname 2%nat _ eq_refl ltac:(lia)) as H2.
  destruct names as [|n0 [|n1 [|n2 [|]]]]; try discriminate Hlen.
  vm_compute in H0, H1, H2. congruence.
Defined.

(** ** The pastes of [make_text_mask] *)

Lemma mask_paste_loop_spec x0 y0 placements pastes :
  mask_paste_loop x0 y0 placements = Return pastes →
  map snd pastes = filter (λ p, placement_has_area p = true) placements ∧
  Forall (λ '(x, y, p),
            PyFloat.round (PyFloat.sub (GlyphPlacement.x p) x0) = Return x ∧
            PyFloat.round (PyFloat.sub (GlyphPlacement.y p) y0) = Return y) pastes.
Proof.
  revert pastes. induction placements as [|p pls IH]; intros pastes; cbn [mask_paste_loop].
  - intros [= <-]. by split.
  - rewrite filter_cons. unfold placement_has_area at 1, has_area.
    destruct (Z.leb_spec (GlyphPlacement.width p) 0) as [Hw|Hw]; cbn [orb].
    { intros H%IH. destruct (decide _) as [Ha|]; [|done].
      apply andb_true_iff in Ha as [?%Z.ltb_lt _]. lia. }
    destruct (Z.leb_spec (GlyphPlacement.height p) 0) as [Hh|Hh].
    { intros H%IH. destruct (decide _) as [Ha|]; [|done].
      apply andb_true_iff in Ha as [_ ?%Z.ltb_lt]. lia. }
    intros (x & Hx & (y & Hy & (rest & Hrest%IH & [= <-])%rbind_Return)%rbind_Return)%rbind_Return.
    destruct Hrest as [Hmap Hall]. destruct (decide _) as [|Hna].
    + cbn [map snd]. rewrite Hmap. split; [done|]. by constructor.
    + exfalso. apply Hna. apply andb_true_iff. split; apply Z.ltb_lt; lia.
Qed.

(** X9. The mask that [make_text_mask] returns receives exactly the
    placements with positive width and height, in shaping order and none
    twice, each pasted at its offset from the top-left corner of the box,
    rounded to the nearest pixel; the other placements are skipped. *)
Theorem make_text_mask_pastes
    (x0 y0 x1 y1 : float) (placements : list GlyphPlacement.t)
    (mask : Mask) (dims : Z * Z) :
  make_text_mask (x0, y0, x1, y1) placements = Return (mask, dims) →
  map snd (mask_pastes mask) = filter (λ p, placement_has_area p = true) placements ∧
  Forall (λ '(x, y, p),
            PyFloat.round (PyFloat.sub (GlyphPlacement.x p) x0) = Return x ∧
            PyFloat.round (PyFloat.sub (GlyphPlacement.y p) y0) = Return y)
    (mask_pastes mask).
Proof.
  unfold make_text_mask.
  intros (rw & _ & (rh & _ & (pastes & Hp & [= <- _])%rbind_Return)%rbind_Return)%rbind_Return.
  cbn [mask_pastes]. by apply mask_paste_loop_spec.
Qed.

Lemma make_text_mask_pastes_witness :
  ∃ x0 y0 x1 y1 pls names mask dims,
    shape_and_measure demo_font "A B" ∅ 220 = Return (Some ((x0, y0, x1, y1), pls, names)) ∧
    make_text_mask (x0, y0, x1, y1) pls = Return (mask, dims) ∧
    map snd (mask_pastes mask) = filter (λ p, placement_has_area p = true) pls.
Proof.
  destruct (shape_and_measure demo_font "A B" ∅ 220)
    as [[[[[[[x0 y0] x1] y1] pls] names]|]|e] eqn:Hrun;
    try (vm_compute in Hrun; discriminate Hrun).
  destruct (make_text_mask (x0, y0, x1, y1) pls) as [[mask dims]|e] eqn:Hmask.
  - exists x0, y0, x1, y1, pls, names, mask, dims. split; [reflexivity|]. split; [exact Hmask|].
    destruct (make_text_mask_pastes _ _ _ _ _ _ _ Hmask) as [Hpastes _]. exact Hpastes.
  - vm_compute in Hrun. injection Hrun as <- <- <- <- <- <-.
    vm_compute in Hmask. discriminate Hmask.
Defined.

(** ** [build_avatar]: the shape of its runs *)

Lemma attempt_all_cons w ev rest :
  attempt_all w (ev :: rest) =
  match library_error w ev with
  | Some (cls, msg) => ([ev], Raise (ExternalError cls msg))
  | None => (ev :: (attempt_all w rest).1, (attempt_all w rest).2)
  end.
Proof.
  cbn [attempt_all]. unfold io_bind, attempt.
  destruct (library_error w ev) as [[cls msg]|]; [reflexivity|].
  by destruct (attempt_all w rest).
Qed.

(** The calls are made in order; the first one that raises ends the run. *)
Lemma attempt_all_spec w calls :
  (Forall (λ ev, library_error w ev = None) calls ∧
   attempt_all w calls = (calls, Return tt)) ∨
  (∃ l1 ev l2 cls msg,
     calls = l1 ++ ev :: l2 ∧ Forall (λ ev, library_error w ev = None) l1 ∧
     library_error w ev = Some (cls, msg) ∧
     attempt_all w calls = (l1 ++ [ev], Raise (ExternalError cls msg))).
Proof.
  induction calls as [|ev calls IH]; [left; by split|].
  rewrite attempt_all_cons.
  destruct (library_error w ev) as [[cls msg]|] eqn:Hev.
  - right. by exists [], ev, calls, cls, msg.
  - destruct IH as [[Hall ->]|(l1 & ev' & l2 & cls & msg & -> & Hall & Hev' & ->)].
    + left. split; [by constructor|done].
    + right. exists (ev :: l1), ev', l2, cls, msg. repeat split; try done.
      by constructor.
Qed.

Lemma attempt_all_sub w calls (P : event → Prop) :
  Forall P calls → Forall P (attempt_all w calls).1.
Proof.
  intros HP.
  destruct (attempt_all_spec w calls)
    as [[_ ->]|(l1 & ev & l2 & cls & msg & -> & _ & _ & ->)]; [done|].
  cbn [fst]. apply Forall_app in HP as [H1 H2]. apply Forall_app. split; [done|].
  apply Forall_cons in H2 as [H2 _]. by constructor.
Qed.

Lemma compose_valid_shape w output_path shape size margin bg_color fg_color
    glow_color glow_blur font_px box pls names :
  valid_shape shape = true →
  compose w output_path shape size margin bg_color fg_color glow_color glow_blur
    (font_px, box, pls, names) =
  match make_text_mask box pls with
  | Return (_, (text_width, text_height)) =>
      let drawn := attempt_all w (drawing_events output_path shape size margin bg_color
                                    fg_color glow_color glow_blur text_width text_height) in
      (BuildMask text_width text_height :: drawn.1,
       match drawn.2 with
       | Return _ => Return (font_px, names)
       | Raise e => Raise e
       end)
  | Raise e => ([], Raise e)
  end.
Proof.
  intros Hshape. unfold compose, drawing_events.
  destruct (make_text_mask box pls) as [[mask [tw th]]|e]; [|reflexivity].
  cbv zeta.
  assert (Hcanvas : (if String.eqb shape "circle"
                     then attempt w (NewCanvas shape size margin bg_color)
                     else if String.eqb shape "square"
                          then attempt w (NewCanvas shape size margin bg_color)
                          else io_raise (ValueError "Unsupported shape: " shape))
                    = attempt w (NewCanvas shape size margin bg_color)).
  { unfold valid_shape in Hshape. destruct (String.eqb shape "circle"); [done|].
    cbn in Hshape. by rewrite Hshape. }
  rewrite Hcanvas. clear Hcanvas.
  destruct (PyFloat.ltb PyFloat.zero glow_blur && (0 <? glow_color.2));
    cbn [app attempt_all]; unfold io_bind, io_lift, emit, attempt, io_ret;
    repeat (destruct (library_error w _) as [[? ?]|]; cbn [fst snd app]; try reflexivity).
Qed.

(** A run of [build_avatar] either raises before the canvas, having done
    rendering work only, or goes through the search and the mask and then
    makes the drawing calls as far as they succeed. *)
Lemma build_avatar_outcome w font_path output_path text features shape size margin
    bg_color fg_color glow_color glow_blur fit_width_ratio fit_height_ratio :
  let built := build_avatar w font_path output_path text features shape size margin
                 bg_color fg_color glow_color glow_blur fit_width_ratio fit_height_ratio in
  ((∃ e, built.2 = Raise e) ∧ Forall (λ ev, rendering_event ev = true) built.1) ∨
  (∃ font target_w target_h sizes tr font_px box pls names mask text_width text_height,
     open_font w font_path = Some font ∧
     int_times_float size fit_width_ratio = Return target_w ∧
     int_times_float size fit_height_ratio = Return target_h ∧
     candidates size = Return sizes ∧
     choose_size font text features target_w target_h sizes
       = (tr, Return (font_px, box, pls, names)) ∧
     make_text_mask box pls = Return (mask, (text_width, text_height)) ∧
     valid_shape shape = true ∧
     let drawn := attempt_all w (drawing_events output_path shape size margin bg_color
                                   fg_color glow_color glow_blur text_width text_height) in
     built = (LoadFont font_path :: tr ++ BuildMask text_width text_height :: drawn.1,
              match drawn.2 with
              | Return _ => Return (font_px, names)
              | Raise e => Raise e
              end)).
Proof.
  intros built. subst built.
  destruct (open_font w font_path) as [font|] eqn:Hfont;
  [destruct (int_times_float size fit_width_ratio) as [target_w|e] eqn:Hw;
   [destruct (int_times_float size fit_height_ratio) as [target_h|e] eqn:Hh;
    [destruct (candidates size) as [sizes|e] eqn:Hsizes|]|]|].
  2-5: left; unfold build_avatar, load_font, io_bind, emit, io_lift, io_ret, io_raise;
       rewrite ?Hfont, ?Hw, ?Hh, ?Hsizes; cbn;
       (split; [by eexists | repeat constructor]).
  rewrite (build_avatar_unfold _ _ _ _ _ _ _ _ _ _ _ _ _ _ _ _ _ _ Hfont Hw Hh Hsizes).
  pose proof (choose_size_trace font text features target_w target_h sizes) as Htr.
  destruct (choose_size _ _ _ _ _ _) as [tr [[[[font_px box] pls] names]|e]] eqn:Hchoose;
    cbn [fst] in Htr; [|left; split; [by eexists | by constructor]].
  destruct (valid_shape shape) eqn:Hshape.
  - rewrite (compose_valid_shape _ _ _ _ _ _ _ _ _ _ _ _ _ Hshape).
    destruct (make_text_mask box pls) as [[mask [tw th]]|e] eqn:Hmask; cbn [fst snd].
    + right. by eexists font, target_w, target_h, sizes, tr, font_px, box, pls, names, mask, tw, th.
    + left. split; [by eexists|]. constructor; [done|]. by rewrite app_nil_r.
  - rewrite (compose_invalid_shape _ _ _ _ _ _ _ _ _ _ _ _ _ Hshape).
    destruct (make_text_mask box pls) as [[mask [tw th]]|e]; cbn [fst snd].
    + left. split; [by eexists|]. constructor; [done|].
      apply Forall_app. split; [done | by repeat constructor].
    + left. split; [by eexists|]. constructor; [done|]. by rewrite app_nil_r.
Qed.

(** A run that returns has made every drawing call, and none was refused. *)
Lemma build_avatar_returns w font_path output_path text features shape size margin
    bg_color fg_color glow_color glow_blur fit_width_ratio fit_height_ratio v :
  let built := build_avatar w font_path output_path text features shape size margin
                 bg_color fg_color glow_color glow_blur fit_width_ratio fit_height_ratio in
  built.2 = Return v →
  ∃ font target_w target_h sizes tr font_px box pls names mask text_width text_height,
    open_font w font_path = Some font ∧
    int_times_float size fit_width_ratio = Return target_w ∧
    int_times_float size fit_height_ratio = Return target_h ∧
    candidates size = Return sizes ∧
    choose_size font text features target_w target_h sizes
      = (tr, Return (font_px, box, pls, names)) ∧
    make_text_mask box pls = Return (mask, (text_width, text_height)) ∧
    valid_shape shape = true ∧
    Forall (λ ev, library_error w ev = None)
      (drawing_events output_path shape size margin bg_color fg_color glow_color
         glow_blur text_width text_height) ∧
    built = (LoadFont font_path :: tr ++ BuildMask text_width text_height ::
               drawing_events output_path shape size margin bg_color fg_color
                 glow_color glow_blur text_width text_height,
             Return (font_px, names)).
Proof.
  intros built Hv.
  pose proof (build_avatar_outcome w font_path output_path text features shape size margin
                bg_color fg_color glow_color glow_blur fit_width_ratio fit_height_ratio)
    as Hout.
  cbv zeta in Hout. fold built in Hout.
  destruct Hout as [[[e He] _]|Hok]; [congruence|].
  destruct Hok as (font & tw & th & sizes & tr & px & box & pls & names & mask & mw & mh &
                   Hfont & Hw & Hh & Hsizes & Hchoose & Hmask & Hshape & Hbuilt).
  exists font, tw, th, sizes, tr, px, box, pls, names, mask, mw, mh.
  do 7 (split; [done|]).
  destruct (attempt_all_spec w (drawing_events output_path shape size margin bg_color
              fg_color glow_color glow_blur mw mh))
    as [[Hall Hrun]|(l1 & ev & l2 & cls & msg & _ & _ & _ & Hrun)];
    rewrite Hrun in Hbuilt; cbn [fst snd] in Hbuilt; [done|].
  rewrite Hbuilt in Hv. discriminate.
Qed.

Lemma rendering_not_drawing tr ev :
  Forall (λ ev, rendering_event ev = true) tr → ev ∈ tr → rendering_event ev = true.
Proof. rewrite Forall_forall. auto. Qed.

Lemma drawing_events_elem output_path shape size margin bg fg glow blur tw th ev :
  ev ∈ drawing_events output_path shape size margin bg fg glow blur tw th ↔
  ev = NewCanvas shape size margin bg ∨
  (PyFloat.ltb PyFloat.zero blur && (0 <? glow.2) = true ∧
   ev = PasteGlow ((size - tw) / 2) ((size - th) / 2) glow blur) ∨
  ev = PasteForeground ((size - tw) / 2) ((size - th) / 2) fg ∨
  ev = MakeParentDirs output_path ∨ ev = SaveImage output_path.
Proof.
  unfold drawing_events. cbv zeta.
  destruct (PyFloat.ltb PyFloat.zero blur && (0 <? glow.2)); cbn [app];
    rewrite !elem_of_cons, elem_of_nil; intuition congruence.
Qed.

Lemma drawing_events_not_rendering output_path shape size margin bg fg glow blur tw th :
  Forall (λ ev, rendering_event ev = false)
    (drawing_events output_path shape size margin bg fg glow blur tw th).
Proof.
  apply Forall_forall. intros ev [H|[[_ H]|[H|[H|H]]]]%drawing_events_elem; by subst.
Qed.

(** The drawing calls are distinct, and the file write is the last one. *)
Lemma drawing_events_split output_path shape size margin bg fg glow blur tw th :
  ∃ calls, drawing_events output_path shape size margin bg fg glow blur tw th
             = calls ++ [SaveImage output_path] ∧
           NoDup (calls ++ [SaveImage output_path]) ∧ ∀ q, SaveImage q ∉ calls.
Proof.
  unfold drawing_events. cbv zeta.
  destruct (PyFloat.ltb PyFloat.zero blur && (0 <? glow.2)); cbn [app].
  - exists [NewCanvas shape size margin bg;
            PasteGlow ((size - tw) / 2) ((size - th) / 2) glow blur;
            PasteForeground ((size - tw) / 2) ((size - th) / 2) fg;
            MakeParentDirs output_path].
    split; [reflexivity|]. split.
    + cbn [app]. repeat (apply NoDup_cons; split;
        [rewrite ?elem_of_cons, elem_of_nil; intuition discriminate|]).
      apply NoDup_nil_2.
    + intros q. rewrite !elem_of_cons, elem_of_nil. intuition discriminate.
  - exists [NewCanvas shape size margin bg;
            PasteForeground ((size - tw) / 2) ((size - th) / 2) fg;
            MakeParentDirs output_path].
    split; [reflexivity|]. split.
    + cbn [app]. repeat (apply NoDup_cons; split;
        [rewrite ?elem_of_cons, elem_of_nil; intuition discriminate|]).
      apply NoDup_nil_2.
    + intros q. rewrite !elem_of_cons, elem_of_nil. intuition discriminate.
Qed.

(** Whatever a run of [build_avatar] does after the mask is one of the
    drawing calls, and the shape is then a valid one. *)
Lemma build_avatar_drawing w font_path output_path text features shape size margin
    bg_color fg_color glow_color glow_blur fit_width_ratio fit_height_ratio ev :
  ev ∈ (build_avatar w font_path output_path text features shape size margin
          bg_color fg_color glow_color glow_blur fit_width_ratio fit_height_ratio).1 →
  rendering_event ev = false →
  valid_shape shape = true ∧
  ∃ tw th, ev ∈ drawing_events output_path shape size margin bg_color fg_color
                  glow_color glow_blur tw th.
Proof.
  intros Hin Hev.
  pose proof (build_avatar_outcome w font_path output_path text features shape size margin
                bg_color fg_color glow_color glow_blur fit_width_ratio fit_height_ratio)
    as Hout.
  cbv zeta in Hout. destruct Hout as [[_ Hrender]|Hok].
  { apply (rendering_not_drawing _ _ Hrender) in Hin. congruence. }
  destruct Hok as (font & tw & th & sizes & tr & px & box & pls & names & mask & mw & mh &
                   _ & _ & _ & _ & Hchoose & _ & Hshape & Hbuilt).
  pose proof (choose_size_trace font text features tw th sizes) as Hrender.
  rewrite Hchoose in Hrender. cbn [fst] in Hrender.
  rewrite Hbuilt in Hin. cbn [fst] in Hin. split; [done|]. exists mw, mh.
  apply elem_of_cons in Hin as [->|Hin]; [discriminate|].
  apply elem_of_app in Hin as [Hin|Hin].
  { apply (rendering_not_drawing _ _ Hrender) in Hin. congruence. }
  apply elem_of_cons in Hin as [->|Hin]; [discriminate|].
  pose proof (attempt_all_sub w
                (drawing_events output_path shape size margin bg_color fg_color glow_color
                   glow_blur mw mh)
                (λ ev, ev ∈ drawing_events output_path shape size margin
                         bg_color fg_color glow_color glow_blur mw mh)) as Hsub.
  cbv beta in Hsub. rewrite !Forall_forall in Hsub. by apply Hsub.
Qed.

(** X10. [build_avatar] returns exactly when it got as far as writing the
    file and the write succeeded. The write is attempted at most once, at
    [output_path] and nowhere else, and it is the last thing a run does.
    A drawing or file-system call that raises ends the run at once: it is
    the last action of the run, nothing is written after it, and its
    exception is the one the run ends in. *)
Theorem build_avatar_saves_iff_returns
    (w : World) (font_path output_path text : string) (features : gmap string Z)
    (shape : string) (size margin : Z) (bg_color fg_color glow_color : color)
    (glow_blur fit_width_ratio fit_height_ratio : float) :
  let built := build_avatar w font_path output_path text features shape size
                 margin bg_color fg_color glow_color glow_blur
                 fit_width_ratio fit_height_ratio in
  (is_Return built.2 ↔
     SaveImage output_path ∈ built.1 ∧ library_error w (SaveImage output_path) = None) ∧
  (∀ p, SaveImage p ∈ built.1 →
     p = output_path ∧ last built.1 = Some (SaveImage output_path) ∧
     ∃ tr, built.1 = tr ++ [SaveImage output_path] ∧ ∀ q, SaveImage q ∉ tr) ∧
  (∀ ev cls msg, ev ∈ built.1 → rendering_event ev = false →
     library_error w ev = Some (cls, msg) →
     last built.1 = Some ev ∧ built.2 = Raise (ExternalError cls msg)).
Proof.
  intros built.
  pose proof (build_avatar_outcome w font_path output_path text features shape size margin
                bg_color fg_color glow_color glow_blur fit_width_ratio fit_height_ratio)
    as Hout.
  cbv zeta in Hout. fold built in Hout. destruct Hout as [[[e He] Htr]|Hok].
  { split; [|split].
    - split; [intros [v Hv]; congruence|].
      intros [Hin _]. by apply (rendering_not_drawing _ _ Htr) in Hin.
    - intros p Hin. by apply (rendering_not_drawing _ _ Htr) in Hin.
    - intros ev cls msg Hin Hev. apply (rendering_not_drawing _ _ Htr) in Hin. congruence. }
  destruct Hok as (font & tw & th & sizes & tr & px & box & pls & names & mask & mw & mh &
                   _ & _ & _ & _ & Hchoose & _ & _ & Hbuilt).
  pose proof (choose_size_trace font text features tw th sizes) as Htr.
  rewrite Hchoose in Htr. cbn [fst] in Htr.
  set (pre := LoadFont font_path :: tr ++ [BuildMask mw mh]).
  assert (Hpre : Forall (λ ev, rendering_event ev = true) pre).
  { constructor; [done|]. apply Forall_app. split; [done|by repeat constructor]. }
  assert (Hpre' : ∀ ev, rendering_event ev = false → ev ∉ pre).
  { intros ev Hev Hin. apply (rendering_not_drawing _ _ Hpre) in Hin. congruence. }
  assert (Hshift : ∀ l, LoadFont font_path :: tr ++ BuildMask mw mh :: l = pre ++ l).
  { intros l. unfold pre. cbn [app]. by rewrite <- app_assoc. }
  rewrite Hshift in Hbuilt. clear Hshift.
  destruct (drawing_events_split output_path shape size margin bg_color fg_color
              glow_color glow_blur mw mh) as (calls & Hcalls & Hnodup & Hnosave).
  rewrite Hcalls in Hbuilt.
  destruct (attempt_all_spec w (calls ++ [SaveImage output_path]))
    as [[Hall Hrun]|(l1 & ev & l2 & cls & msg & Heq & Hall & Hev & Hrun)];
    rewrite Hrun in Hbuilt; cbn [fst snd] in Hbuilt; rewrite Hbuilt; cbn [fst snd].
  - (* every call succeeded *)
    apply Forall_app in Hall as [Hall Hsave]. apply Forall_cons in Hsave as [Hsave _].
    assert (Hno : ∀ q, SaveImage q ∉ pre ++ calls).
    { intros q [Hin|Hin]%elem_of_app; [by apply Hpre' in Hin|by apply Hnosave in Hin]. }
    split; [|split].
    + split; [intros _|intros _; by eexists].
      split; [|done]. rewrite app_assoc. apply elem_of_app. right. by left.
    + rewrite app_assoc. intros p [Hin|Hin]%elem_of_app; [by apply Hno in Hin|].
      apply list_elem_of_singleton in Hin as [= ->].
      split; [done|]. split; [apply last_snoc|]. by eexists.
    + intros ev cls msg [Hin|Hin]%elem_of_app Hev Herr; [by apply Hpre' in Hin|].
      assert (library_error w ev = None); [|congruence].
      apply elem_of_app in Hin as [Hin|Hin].
      * rewrite Forall_forall in Hall. by apply Hall.
      * apply list_elem_of_singleton in Hin as ->. done.
  - (* the call [ev] raised *)
    assert (Hl1 : ∀ q, SaveImage q ∉ l1).
    { intros q Hin.
      assert (Hq : SaveImage q ∈ calls ++ [SaveImage output_path])
        by (rewrite Heq; apply elem_of_app; by left).
      apply elem_of_app in Hq as [Hq|Hq]; [by apply Hnosave in Hq|].
      apply list_elem_of_singleton in Hq as [= ->].
      rewrite Forall_forall in Hall. specialize (Hall _ Hin).
      (* the write is the last call, so it cannot come before [ev] *)
      rewrite Heq in Hnodup. apply NoDup_app in Hnodup as (_ & Hdisj & _).
      destruct l2 as [|ev' l2 _] using rev_ind.
      - apply (Hdisj _ Hin).
        apply app_inj_tail in Heq as [_ <-]. by left.
      - rewrite app_comm_cons, app_assoc in Heq. apply app_inj_tail in Heq as [_ <-].
        apply (Hdisj _ Hin). right. apply elem_of_app. right. by left. }
    assert (Hno : ∀ q, SaveImage q ∉ pre ++ l1).
    { intros q [Hin|Hin]%elem_of_app; [by apply Hpre' in Hin|by apply Hl1 in Hin]. }
    split; [|split].
    + split; [intros [v Hv]; discriminate|].
      intros [[Hin|Hin]%elem_of_app Hok]; [by apply Hpre' in Hin|].
      apply elem_of_app in Hin as [Hin|Hin]; [by apply Hl1 in Hin|].
      apply list_elem_of_singleton in Hin as <-. congruence.
    + rewrite app_assoc. intros p [Hin|Hin]%elem_of_app; [by apply Hno in Hin|].
      apply list_elem_of_singleton in Hin as <-.
      assert (Hp : SaveImage p ∈ calls ++ [SaveImage output_path])
        by (rewrite Heq; apply elem_of_app; right; by left).
      apply elem_of_app in Hp as [Hp|Hp]; [by apply Hnosave in Hp|].
      apply list_elem_of_singleton in Hp as [= ->].
      split; [done|]. split; [apply last_snoc|]. by eexists.
    + intros ev' cls' msg' [Hin|Hin]%elem_of_app Hev' Herr; [by apply Hpre' in Hin|].
      apply elem_of_app in Hin as [Hin|Hin].
      * rewrite Forall_forall in Hall. specialize (Hall _ Hin). congruence.
      * apply list_elem_of_singleton in Hin as ->.
        rewrite app_assoc, last_snoc. split; [done|]. congruence.
Qed.

(** On a canvas of 100 pixels with the default margin of 72 the ellipse of
    the circle has its right edge left of its left edge: the image library
    refuses it, the run ends there and nothing is written. *)
Lemma build_avatar_saves_iff_returns_witness :
  (demo_build "A" "circle" 100).2
    = Raise (ExternalError "ValueError" "x1 must be greater than or equal to x0") ∧
  last (demo_build "A" "circle" 100).1 = Some (NewCanvas "circle" 100 72 (46, 52, 64, 255)) ∧
  ¬ is_Return (demo_build "A" "circle" 100).2.
Proof.
  destruct (build_avatar_saves_iff_returns demo_world "demo.ttf" "out/avatar.png" "A" ∅
              "circle" 100 72 (46, 52, 64, 255) (136, 192, 208, 255) (94, 129, 172, 190)
              (of_cint 8) (hundredths 72) (hundredths 36)) as (Hreturns & _ & Hraised).
  destruct (Hraised (NewCanvas "circle" 100 72 (46, 52, 64, 255)) "ValueError"
              "x1 must be greater than or equal to x0") as [Hlast Hrun].
  - apply (list_elem_of_lookup_2 _ 3%nat). vm_compute. reflexivity.
  - reflexivity.
  - reflexivity.
  - split; [exact Hrun|]. split; [exact Hlast|].
    intros [v Hv]. unfold demo_build in Hv. rewrite Hrun in Hv. discriminate.
Defined.

(** ** [build_avatar]: the shaping passes of a run *)

Lemma shape_passes_map l : shape_passes (map ShapeAt l) = l.
Proof. unfold shape_passes. induction l as [|x l IH]; [done|]. cbn. by f_equal. Qed.

Lemma shape_passes_app tr1 tr2 :
  shape_passes (tr1 ++ tr2) = shape_passes tr1 ++ shape_passes tr2.
Proof. apply omap_app. Qed.

Lemma fit_search_passes font text features target_w target_h sizes :
  ∃ k, (fit_search font text features target_w target_h sizes).1
       = map ShapeAt (take k sizes).
Proof.
  induction sizes as [|q sizes [k IH]]; [by exists 0%nat|].
  rewrite fit_search_cons.
  destruct (shape_and_measure font text features q) as [[s|]|e].
  - destruct (fits_box target_w target_h s); [by exists 1%nat|].
    exists (S k). cbn. by rewrite IH.
  - exists (S k). cbn. by rewrite IH.
  - by exists 1%nat.
Qed.

Lemma fit_search_exhausted font text features target_w target_h sizes tr :
  fit_search font text features target_w target_h sizes = (tr, Return None) →
  tr = map ShapeAt sizes.
Proof.
  revert tr. induction sizes as [|q sizes IH]; intros tr.
  - by intros [= <-].
  - rewrite fit_search_cons.
    destruct (shape_and_measure font text features q) as [[s|]|e]; [| |discriminate].
    + destruct (fits_box target_w target_h s); [discriminate|].
      destruct (fit_search _ _ _ _ _ sizes) as [tr' r']. cbn. intros [= <- ->].
      by rewrite (IH tr' eq_refl).
    + destruct (fit_search _ _ _ _ _ sizes) as [tr' r']. cbn. intros [= <- ->].
      by rewrite (IH tr' eq_refl).
Qed.

Lemma choose_size_passes font text features target_w target_h sizes :
  ∃ k, shape_passes (choose_size font text features target_w target_h sizes).1
       = take k (sizes ++ [220]).
Proof.
  unfold choose_size, io_bind.
  destruct (fit_search_passes font text features target_w target_h sizes) as [k Hk].
  destruct (fit_search _ _ _ _ _ _) as [tr [[c|]|e]] eqn:Hsearch; cbn [fst snd] in *.
  1,3: exists (k `min` length sizes)%nat; subst tr; unfold io_ret; cbn [fst snd];
       rewrite ?app_nil_r, shape_passes_map, take_app_le by lia;
       destruct (Nat.min_spec k (length sizes)) as [[? ->]|[? ->]];
       [done | by rewrite !take_ge by lia].
  apply fit_search_exhausted in Hsearch as ->.
  exists (S (length sizes)). rewrite take_ge by (rewrite length_app; cbn; lia).
  unfold fallback, io_bind, emit, io_lift, io_raise, io_ret.
  destruct (shape_and_measure font text features 220) as [[[[box pls] names]|]|e];
    cbn [fst snd]; rewrite ?app_nil_r, shape_passes_app, shape_passes_map; done.
Qed.

Lemma choose_size_returns font text features target_w target_h sizes tr px box pls names :
  choose_size font text features target_w target_h sizes
    = (tr, Return (px, box, pls, names)) →
  shape_and_measure font text features px = Return (Some (box, pls, names)) ∧
  last (shape_passes tr) = Some px ∧ (px ∈ sizes ∨ px = 220).
Proof.
  unfold choose_size, io_bind.
  destruct (fit_search _ _ _ _ _ _) as [tr' [[[[[px' box'] pls'] names']|]|e]] eqn:Hsearch;
    unfold io_ret; cbn [fst snd]; [| |discriminate].
  - rewrite app_nil_r. intros [= <- <- <- <- <-].
    apply fit_search_first in Hsearch as (l1 & l2 & -> & -> & _ & Hpx & _).
    split; [done|]. rewrite shape_passes_map. split; [apply last_snoc|].
    left. apply elem_of_app. right. by left.
  - apply fit_search_exhausted in Hsearch as ->.
    unfold fallback, io_bind, emit, io_lift, io_raise, io_ret.
    destruct (shape_and_measure font text features 220) as [[[[box' pls'] names']|]|e]
      eqn:H220; cbn [fst snd]; [|discriminate..].
    rewrite app_nil_r. intros [= <- <- <- <- <-].
    split; [done|]. rewrite shape_passes_app, shape_passes_map. split; [apply last_snoc|].
    by right.
Qed.

Lemma candidates_bounds size sizes q :
  candidates size = Return sizes → q ∈ sizes →
  ∃ hi lo, max_px size = Return hi ∧ min_px size = Return lo ∧ lo ≤ q ≤ hi.
Proof.
  intros (hi & lo & st & Hhi & Hlo & Hst & ->)%candidates_Return Hq.
  exists hi, lo. do 2 (split; [done|]).
  apply step_ge in Hst. apply range_down_bounds in Hq; lia.
Qed.

Lemma drawing_events_passes output_path shape size margin bg fg glow blur tw th :
  shape_passes (drawing_events output_path shape size margin bg fg glow blur tw th) = [].
Proof. unfold drawing_events. cbv zeta. by destruct (_ && _). Qed.

Lemma attempt_all_drawing_passes w output_path shape size margin bg fg glow blur tw th :
  shape_passes
    (attempt_all w (drawing_events output_path shape size margin bg fg glow blur tw th)).1
  = [].
Proof.
  pose proof (attempt_all_sub w _ _
                (drawing_events_not_rendering output_path shape size margin bg fg glow
                   blur tw th)) as Hsub.
  induction Hsub as [|ev tr Hev _ IH]; [done|].
  unfold shape_passes in *. cbn [omap list_omap]. by destruct ev.
Qed.

(** X11. The size that [build_avatar] returns is the size of the last
    shaping pass of the run; it is one of the candidate sizes or 220, and at
    least 64; the names returned are those of shaping at that size, one per
    shaped glyph. *)
Theorem build_avatar_returned_size
    (w : World) (font_path output_path text : string) (features : gmap string Z)
    (shape : string) (size margin : Z) (bg_color fg_color glow_color : color)
    (glow_blur fit_width_ratio fit_height_ratio : float)
    (tr : list event) (font_px : Z) (names : list string) :
  build_avatar w font_path output_path text features shape size margin bg_color
    fg_color glow_color glow_blur fit_width_ratio fit_height_ratio
    = (tr, Return (font_px, names)) →
  ∃ font sizes box pls,
    open_font w font_path = Some font ∧ candidates size = Return sizes ∧
    (font_px ∈ sizes ∨ font_px = 220) ∧ 64 ≤ font_px ∧
    last (shape_passes tr) = Some font_px ∧
    shape_and_measure font text features font_px = Return (Some (box, pls, names)) ∧
    length names = length (shaped_glyphs font text features).
Proof.
  intros Hrun.
  pose proof (build_avatar_returns w font_path output_path text features shape size margin
                bg_color fg_color glow_color glow_blur fit_width_ratio fit_height_ratio
                (font_px, names)) as Hok.
  cbv zeta in Hok. rewrite Hrun in Hok. cbn [fst snd] in Hok.
  destruct (Hok eq_refl)
    as (font & tw & th & sizes & tr' & px & box & pls & names' & mask & mw & mh &
        Hfont & _ & _ & Hsizes & Hchoose & _ & _ & _ & [= -> <- <-]).
  apply choose_size_returns in Hchoose as (Hshape & Hlast & Hin).
  exists font, sizes, box, pls. repeat split; try done.
  - destruct Hin as [Hin| ->]; [|lia].
    destruct (candidates_bounds _ _ _ Hsizes Hin) as (hi & lo & _ & Hlo%min_px_ge & ?). lia.
  - change (LoadFont font_path :: tr' ++ BuildMask mw mh :: ?d)
      with ([LoadFont font_path] ++ tr' ++ [BuildMask mw mh] ++ d).
    rewrite !shape_passes_app, drawing_events_passes. cbn. by rewrite app_nil_r.
  - apply shape_and_measure_Some_box in Hshape as (scale & _ & _ & _ & -> & _).
    by rewrite length_map.
Qed.

Lemma build_avatar_returned_size_witness :
  ∃ tr names, demo_build "A B" "circle" 1024 = (tr, Return (596, names)) ∧
    last (shape_passes tr) = Some 596 ∧ length names = 3%nat.
Proof.
  destruct (demo_build "A B" "circle" 1024) as [tr [[px names]|e]] eqn:Hrun;
    [|vm_compute in Hrun; discriminate Hrun].
  assert (px = 596) as -> by (vm_compute in Hrun; by injection Hrun as _ <- _).
  exists tr, names. split; [reflexivity|].
  destruct (build_avatar_returned_size _ _ _ _ _ _ _ _ _ _ _ _ _ _ _ _ _ Hrun)
    as (font & sizes & box & pls & Hfont & _ & _ & _ & Hlast & _ & Hlen).
  split; [exact Hlast|].
  vm_compute in Hfont. injection Hfont as <-. exact Hlen.
Defined.

(** X12. Whatever the outcome of a run of [build_avatar], its shaping passes
    are an initial part of the candidate sizes followed by 220: the sizes
    are tried in that order, none is skipped, and nothing else is ever
    shaped. Without candidates there is no pass. *)
Theorem build_avatar_shaping_order
    (w : World) (font_path output_path text : string) (features : gmap string Z)
    (shape : string) (size margin : Z) (bg_color fg_color glow_color : color)
    (glow_blur fit_width_ratio fit_height_ratio : float) :
  let built := build_avatar w font_path output_path text features shape size
                 margin bg_color fg_color glow_color glow_blur
                 fit_width_ratio fit_height_ratio in
  (∀ sizes, candidates size = Return sizes →
     ∃ k, shape_passes built.1 = take k (sizes ++ [220])) ∧
  (∀ e, candidates size = Raise e → shape_passes built.1 = []).
Proof.
  intros built. subst built.
  destruct (open_font w font_path) as [font|] eqn:Hfont;
  [destruct (int_times_float size fit_width_ratio) as [target_w|e] eqn:Hw;
   [destruct (int_times_float size fit_height_ratio) as [target_h|e] eqn:Hh;
    [destruct (candidates size) as [sizes|e] eqn:Hsizes|]|]|].
  2-5: unfold build_avatar, load_font, io_bind, emit, io_lift, io_ret, io_raise;
       rewrite ?Hfont, ?Hw, ?Hh, ?Hsizes; cbn;
       (split; [intros; by exists 0%nat | done]).
  split; [|discriminate]. intros ? [= <-].
  rewrite (build_avatar_unfold _ _ _ _ _ _ _ _ _ _ _ _ _ _ _ _ _ _ Hfont Hw Hh Hsizes).
  destruct (choose_size_passes font text features target_w target_h sizes) as [k Hk].
  exists k.
  destruct (choose_size _ _ _ _ _ _) as [tr [[[[font_px box] pls] names]|e]] eqn:Hchoose;
    cbn [fst] in Hk |- *; [|done].
  destruct (valid_shape shape) eqn:Hshape.
  - rewrite (compose_valid_shape _ _ _ _ _ _ _ _ _ _ _ _ _ Hshape).
    destruct (make_text_mask box pls) as [[mask [tw th]]|e]; cbv zeta; cbn [fst snd].
    + change (LoadFont font_path :: tr ++ BuildMask tw th :: ?d)
        with ([LoadFont font_path] ++ tr ++ [BuildMask tw th] ++ d).
      rewrite !shape_passes_app, attempt_all_drawing_passes. cbn. by rewrite app_nil_r.
    + by rewrite app_nil_r.
  - rewrite (compose_invalid_shape _ _ _ _ _ _ _ _ _ _ _ _ _ Hshape).
    destruct (make_text_mask box pls) as [[mask [tw th]]|e]; cbn [fst snd].
    + change (LoadFont font_path :: tr ++ [BuildMask tw th])
        with ([LoadFont font_path] ++ tr ++ [BuildMask tw th]).
      rewrite !shape_passes_app. cbn. by rewrite app_nil_r.
    + by rewrite app_nil_r.
Qed.

Lemma build_avatar_shaping_order_witness :
  ∃ k, shape_passes (demo_build "A B" "circle" 512).1
       = take k (range_down 358 63 3 ++ [220]).
Proof.
  destruct (build_avatar_shaping_order demo_world "demo.ttf" "out/avatar.png" "A B" ∅
              "circle" 512 72 (46, 52, 64, 255) (136, 192, 208, 255) (94, 129, 172, 190)
              (of_cint 8) (hundredths 72) (hundredths 36)) as [Horder _].
  destruct (Horder (range_down 358 63 3)) as [k Hk]; [vm_compute; reflexivity|].
  exists k. exact Hk.
Defined.

(** ** [build_avatar]: the layers *)

Lemma make_text_mask_min_size box pls mask tw th :
  make_text_mask box pls = Return (mask, (tw, th)) → 1 ≤ tw ∧ 1 ≤ th.
Proof.
  destruct box as [[[x0 y0] x1] y1]. unfold make_text_mask.
  intros (rw & _ & (rh & _ & (pastes & _ & [= _ <- <-])%rbind_Return)%rbind_Return)%rbind_Return.
  lia.
Qed.

(** X13. A run of [build_avatar] that returns has built a mask of at least
    one pixel each way and pasted the foreground centred on the canvas: the
    margins left and right, and top and bottom, differ by at most one pixel,
    the extra pixel going right and down. The glow layer is pasted exactly
    when the blur radius is positive and the glow alpha is positive, and then
    at the position of the foreground, with the colour and radius given. *)
Theorem build_avatar_layers
    (w : World) (font_path output_path text : string) (features : gmap string Z)
    (shape : string) (size margin : Z) (bg_color fg_color glow_color : color)
    (glow_blur fit_width_ratio fit_height_ratio : float) :
  let built := build_avatar w font_path output_path text features shape size
                 margin bg_color fg_color glow_color glow_blur
                 fit_width_ratio fit_height_ratio in
  is_Return built.2 →
  ∃ text_width text_height text_x text_y,
    BuildMask text_width text_height ∈ built.1 ∧ 1 ≤ text_width ∧ 1 ≤ text_height ∧
    PasteForeground text_x text_y fg_color ∈ built.1 ∧
    0 ≤ (size - text_width) - 2 * text_x ≤ 1 ∧
    0 ≤ (size - text_height) - 2 * text_y ≤ 1 ∧
    NewCanvas shape size margin bg_color ∈ built.1 ∧
    (PasteGlow text_x text_y glow_color glow_blur ∈ built.1 ↔
       PyFloat.ltb PyFloat.zero glow_blur = true ∧ 0 < glow_color.2) ∧
    (∀ x y c blur, PasteGlow x y c blur ∈ built.1 →
       (x, y, c, blur) = (text_x, text_y, glow_color, glow_blur)) ∧
    (∀ x y c, PasteForeground x y c ∈ built.1 → (x, y, c) = (text_x, text_y, fg_color)).
Proof.
  intros built [v Hv].
  pose proof (build_avatar_returns w font_path output_path text features shape size margin
                bg_color fg_color glow_color glow_blur fit_width_ratio fit_height_ratio v)
    as Hok.
  cbv zeta in Hok. fold built in Hok.
  destruct (Hok Hv)
    as (font & tw & th & sizes & tr & px & box & pls & names & mask & mw & mh &
        _ & _ & _ & _ & Hchoose & Hmask & _ & _ & Hbuilt).
  pose proof (choose_size_trace font text features tw th sizes) as Htr.
  rewrite Hchoose in Htr. cbn [fst] in Htr.
  apply make_text_mask_min_size in Hmask as [Hmw Hmh].
  rewrite Hbuilt. cbn [fst]. clear Hbuilt Hv Hok built.
  exists mw, mh, ((size - mw) / 2), ((size - mh) / 2).
  set (pre := LoadFont font_path :: tr ++ [BuildMask mw mh]).
  assert (Hpre : Forall (λ ev, rendering_event ev = true) pre).
  { constructor; [done|]. apply Forall_app. split; [done|by repeat constructor]. }
  assert (Hsplit : LoadFont font_path :: tr ++ BuildMask mw mh ::
            drawing_events output_path shape size margin bg_color fg_color glow_color
              glow_blur mw mh
          = pre ++ drawing_events output_path shape size margin bg_color fg_color
                     glow_color glow_blur mw mh).
  { unfold pre. cbn [app]. by rewrite <- app_assoc. }
  rewrite Hsplit. clear Hsplit.
  assert (Hin : ∀ ev, rendering_event ev = false →
            ev ∈ pre ++ drawing_events output_path shape size margin bg_color fg_color
                          glow_color glow_blur mw mh →
            ev = NewCanvas shape size margin bg_color ∨
            (PyFloat.ltb PyFloat.zero glow_blur && (0 <? glow_color.2) = true ∧
             ev = PasteGlow ((size - mw) / 2) ((size - mh) / 2) glow_color glow_blur) ∨
            ev = PasteForeground ((size - mw) / 2) ((size - mh) / 2) fg_color ∨
            ev = MakeParentDirs output_path ∨ ev = SaveImage output_path).
  { intros ev Hev [Hin|Hin]%elem_of_app; [|by apply drawing_events_elem].
    apply (rendering_not_drawing _ _ Hpre) in Hin. congruence. }
  assert (Hout : ∀ ev,
            ev ∈ drawing_events output_path shape size margin bg_color fg_color
                   glow_color glow_blur mw mh →
            ev ∈ pre ++ drawing_events output_path shape size margin bg_color fg_color
                          glow_color glow_blur mw mh).
  { intros ev Hev. apply elem_of_app. by right. }
  pose proof (Z.div_mod (size - mw) 2 ltac:(lia)) as Hx.
  pose proof (Z.mod_pos_bound (size - mw) 2 ltac:(lia)) as Hx'.
  pose proof (Z.div_mod (size - mh) 2 ltac:(lia)) as Hy.
  pose proof (Z.mod_pos_bound (size - mh) 2 ltac:(lia)) as Hy'.
  split.
  { apply elem_of_app. left. unfold pre. right. apply elem_of_app. right. by left. }
  do 2 (split; [done|]).
  split; [apply Hout, drawing_events_elem; auto|].
  do 2 (split; [lia|]).
  split; [apply Hout, drawing_events_elem; auto|].
  split; [split|split].
  - intros [H|[[Hc _]|[H|[H|H]]]]%Hin; try discriminate H; [|done].
    apply andb_true_iff in Hc as [? ?%Z.ltb_lt]. by split.
  - intros [Hb Ha%Z.ltb_lt]. apply Hout, drawing_events_elem. right. left.
    by rewrite Hb, Ha.
  - intros x y c blur [H|[[_ H]|[H|[H|H]]]]%Hin; try discriminate H; [|done].
    by injection H as -> -> -> ->.
  - intros x y c [H|[[_ H]|[H|[H|H]]]]%Hin; try discriminate H; [|done].
    by injection H as -> -> ->.
Qed.

Lemma build_avatar_layers_witness :
  ∃ text_width text_height text_x text_y,
    BuildMask text_width text_height ∈ (demo_build "A B" "circle" 1024).1 ∧
    PasteForeground text_x text_y (136, 192, 208, 255) ∈ (demo_build "A B" "circle" 1024).1 ∧
    PasteGlow text_x text_y (94, 129, 172, 190) (of_cint 8)
      ∈ (demo_build "A B" "circle" 1024).1 ∧
    0 ≤ (1024 - text_width) - 2 * text_x ≤ 1.
Proof.
  destruct (build_avatar_layers demo_world "demo.ttf" "out/avatar.png" "A B" ∅
              "circle" 1024 72 (46, 52, 64, 255) (136, 192, 208, 255) (94, 129, 172, 190)
              (of_cint 8) (hundredths 72) (hundredths 36))
    as (tw & th & x & y & Hmask & _ & _ & Hfg & Hx & _ & _ & Hglow & _).
  - vm_compute. by eexists.
  - exists tw, th, x, y. repeat split; try done; try lia.
    apply Hglow. by vm_compute.
Defined.

(** ** [main] *)

Lemma io_bind_lift {A B} (a : A) (k : A → io B) : io_bind (io_lift (Return a)) k = k a.
Proof. unfold io_bind, io_lift. by destruct (k a). Qed.

Lemma io_bind_ret {A B} (a : A) (k : A → io B) : io_bind (io_ret a) k = k a.
Proof. unfold io_bind, io_ret. by destruct (k a). Qed.

Lemma build_avatar_starts w font_path output_path text features shape size margin
    bg_color fg_color glow_color glow_blur fit_width_ratio fit_height_ratio :
  head (build_avatar w font_path output_path text features shape size margin
          bg_color fg_color glow_color glow_blur fit_width_ratio fit_height_ratio).1
  = Some (LoadFont font_path).
Proof.
  unfold build_avatar, load_font. unfold io_bind at 5. unfold emit.
  destruct (open_font w font_path) as [font|]; [|reflexivity].
  unfold io_ret at 1. cbn [app].
  unfold io_bind.
  repeat match goal with
         | |- context [let '(_, _) := ?m in _] => destruct m as [? [?|?]]
         | |- context [match ?m with (_, _) => _ end] => destruct m as [? [?|?]]
         end; reflexivity.
Qed.

(** With a valid configuration [main] is [build_avatar] followed by the
    summary. *)
Lemma main_configured w cl args feats bg_c fg_c glow_c :
  valid_configuration w cl args feats bg_c fg_c glow_c →
  let built := build_avatar w (font args) (output args) (text args) feats (shape args)
                 (size args) (margin args) bg_c fg_c glow_c (glow_blur args)
                 (fit_width_ratio args) (fit_height_ratio args) in
  main w cl =
  match built.2 with
  | Return (font_px, names) =>
      (built.1 ++ [PrintSummary (output args) font_px feats names], Return tt)
  | Raise e => (built.1, Raise e)
  end.
Proof.
  intros (Hargs & Hfeats & Hfont & Hbg & Hfg & Hglow) built. subst built.
  unfold main. rewrite Hargs, io_bind_lift. cbv beta zeta.
  rewrite Hfeats, io_bind_lift. cbv beta. rewrite Hfont, io_bind_ret.
  rewrite Hbg, io_bind_lift. cbv beta. rewrite Hfg, io_bind_lift. cbv beta.
  rewrite Hglow, io_bind_lift. cbv beta.
  unfold io_bind, emit.
  destruct (build_avatar _ _ _ _ _ _ _ _ _ _ _ _ _ _) as [tr [[font_px names]|e]];
    reflexivity.
Qed.

(** Without one it raises before any effect. *)
Lemma main_not_configured w cl :
  (∃ args feats bg_c fg_c glow_c, valid_configuration w cl args feats bg_c fg_c glow_c) ∨
  ((main w cl).1 = [] ∧
   ∃ e, (main w cl).2 = Raise e ∧
     ((∃ a, parse_args cl = Raise e ∧ a = tt) ∨
      (∃ args, parse_args cl = Return args ∧
         (parse_features (features args) = Raise e ∨
          e = FileNotFoundError (font args) ∨
          (∃ alpha, parse_color (bg args) alpha = Raise e) ∨
          (∃ alpha, parse_color (fg args) alpha = Raise e) ∨
          (∃ alpha, parse_color (glow args) alpha = Raise e))))).
Proof.
  unfold valid_configuration, main.
  destruct (parse_args cl) as [args|e] eqn:Hargs;
    [rewrite io_bind_lift; cbv beta zeta
    |right; split; [done|]; exists e; split; [done|]; left; by exists tt].
  destruct (parse_features (features args)) as [feats|e] eqn:Hfeats;
    [rewrite io_bind_lift; cbv beta
    |right; split; [done|]; exists e; split; [done|]; right; exists args; auto].
  destruct (path_exists w (font args)) eqn:Hfont;
    [rewrite io_bind_ret
    |right; split; [done|]; eexists; split; [done|]; right; exists args; auto].
  destruct (parse_color (bg args) 255) as [bg_c|e] eqn:Hbg;
    [rewrite io_bind_lift; cbv beta
    |right; split; [done|]; exists e; split; [done|]; right; exists args; eauto 8].
  destruct (parse_color (fg args) 255) as [fg_c|e] eqn:Hfg;
    [rewrite io_bind_lift; cbv beta
    |right; split; [done|]; exists e; split; [done|]; right; exists args; eauto 8].
  destruct (parse_color (glow args) (Z.max 0 (Z.min 255 (glow_alpha args))))
    as [glow_c|e] eqn:Hglow;
    [|right; split; [done|]; exists e; split; [done|]; right; exists args; eauto 10].
  left. by exists args, feats, bg_c, fg_c, glow_c.
Qed.

(** X14. [main] fails fast: it does rendering or drawing work exactly when
    the whole configuration is valid, that is when the command line, the
    feature list and the three colours parse and the font file exists; its
    first action is then to load the font. On any other input it raises
    without having done anything. *)
Theorem main_fails_fast (w : World) (cl : CommandLine) :
  ((main w cl).1 ≠ [] ↔
   ∃ args feats bg_c fg_c glow_c, valid_configuration w cl args feats bg_c fg_c glow_c) ∧
  (∀ args, parse_args cl = Return args → (main w cl).1 ≠ [] →
     head (main w cl).1 = Some (LoadFont (font args))) ∧
  ((main w cl).1 = [] → ∃ e, (main w cl).2 = Raise e).
Proof.
  assert (Hstart : ∀ args feats bg_c fg_c glow_c,
            valid_configuration w cl args feats bg_c fg_c glow_c →
            head (main w cl).1 = Some (LoadFont (font args))).
  { intros args feats bg_c fg_c glow_c Hcfg.
    rewrite (main_configured _ _ _ _ _ _ _ Hcfg). cbv zeta.
    pose proof (build_avatar_starts w (font args) (output args) (text args) feats
                  (shape args) (size args) (margin args) bg_c fg_c glow_c (glow_blur args)
                  (fit_width_ratio args) (fit_height_ratio args)) as Hhd.
    destruct (build_avatar _ _ _ _ _ _ _ _ _ _ _ _ _ _) as [tr [[font_px names]|e]];
      cbn [fst snd] in *; [|done].
    destruct tr; [done|]. exact Hhd. }
  destruct (main_not_configured w cl)
    as [(args & feats & bg_c & fg_c & glow_c & Hcfg)|[Hnil (e & He & _)]].
  - pose proof (Hstart _ _ _ _ _ Hcfg) as Hhd.
    split; [|split].
    + split; [by eauto 6|]. intros _ Hnil. by rewrite Hnil in Hhd.
    + intros args' Hargs' _. destruct Hcfg as [Hargs _]. congruence.
    + intros Hnil. by rewrite Hnil in Hhd.
  - split; [|split].
    + split; [done|]. intros (args & feats & bg_c & fg_c & glow_c & Hcfg).
      apply Hstart in Hcfg. by rewrite Hnil in Hcfg.
    + done.
    + by eauto.
Qed.

(** *** The summary *)




(** ** Which errors a run can end in *)

Lemma no_shape_error_Return {A} (a : A) : no_shape_error (Return a).
Proof. intros e. discriminate. Qed.

Lemma no_shape_error_bind {A B} (r : result A) (k : A → result B) :
  no_shape_error r → (∀ a, no_shape_error (k a)) → no_shape_error (rbind r k).
Proof.
  intros Hr Hk. destruct r as [a|e]; [apply Hk|].
  intros e' [= <-]. by apply Hr.
Qed.

Lemma no_shape_error_io_bind {A B} (m : io A) (k : A → io B) :
  no_shape_error m.2 → (∀ a, no_shape_error (k a).2) → no_shape_error (io_bind m k).2.
Proof.
  intros Hm Hk. destruct m as [tr [a|e]]; cbn [io_bind].
  - specialize (Hk a). by destruct (k a).
  - intros e' [= <-]. by apply Hm.
Qed.

Ltac no_shape_error_cases :=
  let e := fresh "e" in let He := fresh "He" in
  intros e He; repeat case_match; simplify_eq; reflexivity.

Lemma of_int_no_shape_error n : no_shape_error (PyFloat.of_int n).
Proof. unfold PyFloat.of_int. no_shape_error_cases. Qed.

Lemma to_int_no_shape_error x : no_shape_error (PyFloat.to_int x).
Proof. unfold PyFloat.to_int. no_shape_error_cases. Qed.

Lemma round_no_shape_error x : no_shape_error (PyFloat.round x).
Proof. unfold PyFloat.round. intros e He. destruct x; simplify_eq; reflexivity. Qed.

Lemma int_truediv_no_shape_error a b : no_shape_error (PyFloat.int_truediv a b).
Proof. unfold PyFloat.int_truediv. no_shape_error_cases. Qed.

Lemma int_no_shape_error base s : no_shape_error (PyStr.int base s).
Proof. unfold PyStr.int. no_shape_error_cases. Qed.

Lemma parse_color_no_shape_error value alpha : no_shape_error (parse_color value alpha).
Proof.
  unfold parse_color. cbv zeta. case_match; [by intros e [= <-]|].
  repeat (apply no_shape_error_bind; [apply int_no_shape_error|intros ?]).
  apply no_shape_error_Return.
Qed.

Lemma parse_features_loop_no_shape_error items features :
  no_shape_error (parse_features_loop items features).
Proof.
  revert features. induction items as [|item items IH]; intros features;
    [apply no_shape_error_Return|].
  cbn [parse_features_loop]. apply no_shape_error_bind; [|done].
  unfold parse_feature_item. cbv zeta. repeat case_match;
    try apply no_shape_error_Return; [|by intros e [= <-]].
  apply no_shape_error_bind; [apply int_no_shape_error|intros ?].
  apply no_shape_error_Return.
Qed.

Lemma int_times_float_no_shape_error n x : no_shape_error (int_times_float n x).
Proof.
  unfold int_times_float. apply no_shape_error_bind; [apply of_int_no_shape_error|].
  intros ?. apply no_shape_error_Return.
Qed.

Lemma candidates_no_shape_error size : no_shape_error (candidates size).
Proof.
  unfold candidates, max_px, min_px, step.
  repeat first
    [ apply no_shape_error_Return
    | apply int_times_float_no_shape_error
    | apply to_int_no_shape_error
    | apply int_truediv_no_shape_error
    | apply no_shape_error_bind; [|intros ?] ].
Qed.

Lemma shape_and_measure_no_shape_error font text features px :
  no_shape_error (shape_and_measure font text features px).
Proof.
  rewrite shape_and_measure_unfold.
  apply no_shape_error_bind; [apply int_truediv_no_shape_error|].
  intros ?. apply no_shape_error_Return.
Qed.

Lemma make_text_mask_no_shape_error box pls : no_shape_error (make_text_mask box pls).
Proof.
  destruct box as [[[x0 y0] x1] y1]. unfold make_text_mask. cbv zeta.
  do 2 (apply no_shape_error_bind; [apply round_no_shape_error|intros ?]).
  apply no_shape_error_bind; [|intros ?; apply no_shape_error_Return].
  induction pls as [|p pls IH]; [apply no_shape_error_Return|].
  cbn [mask_paste_loop]. case_match; [done|].
  do 2 (apply no_shape_error_bind; [apply round_no_shape_error|intros ?]).
  apply no_shape_error_bind; [done|intros ?; apply no_shape_error_Return].
Qed.

Lemma choose_size_no_shape_error font text features target_w target_h sizes :
  no_shape_error (choose_size font text features target_w target_h sizes).2.
Proof.
  unfold choose_size. apply no_shape_error_io_bind.
  - induction sizes as [|q sizes IH]; [apply no_shape_error_Return|].
    rewrite fit_search_cons.
    pose proof (shape_and_measure_no_shape_error font text features q) as Hq.
    destruct (shape_and_measure font text features q) as [[s|]|e]; cbn [snd]; [|done|].
    + destruct (fits_box target_w target_h s); [apply no_shape_error_Return|done].
    + intros e' [= <-]. by apply Hq.
  - intros [c|]; [apply no_shape_error_Return|].
    unfold fallback, io_bind, emit, io_lift, io_raise, io_ret.
    pose proof (shape_and_measure_no_shape_error font text features 220) as Hq.
    destruct (shape_and_measure font text features 220) as [[[[box pls] names]|]|e];
      cbn [snd]; [apply no_shape_error_Return|by intros e [= <-]|].
    intros e' [= <-]. by apply Hq.
Qed.

Lemma build_avatar_no_shape_error w font_path output_path text features shape size margin
    bg_color fg_color glow_color glow_blur fit_width_ratio fit_height_ratio :
  valid_shape shape = true →
  no_shape_error
    (build_avatar w font_path output_path text features shape size margin
       bg_color fg_color glow_color glow_blur fit_width_ratio fit_height_ratio).2.
Proof.
  intros Hshape. unfold build_avatar.
  apply no_shape_error_io_bind.
  { unfold load_font, io_bind, emit, io_ret, io_raise.
    destruct (open_font w font_path); cbn [snd];
      [apply no_shape_error_Return|by intros e [= <-]]. }
  intros font.
  do 2 (apply no_shape_error_io_bind; [apply int_times_float_no_shape_error|intros ?]).
  apply no_shape_error_io_bind; [apply candidates_no_shape_error|intros sizes].
  apply no_shape_error_io_bind; [apply choose_size_no_shape_error|].
  intros [[[font_px box] pls] names].
  rewrite (compose_valid_shape _ _ _ _ _ _ _ _ _ _ _ _ _ Hshape).
  pose proof (make_text_mask_no_shape_error box pls) as Hmask.
  destruct (make_text_mask box pls) as [[mask [tw th]]|e]; cbv zeta; cbn [snd];
    [|intros e' [= <-]; by apply Hmask].
  destruct (attempt_all_spec w (drawing_events output_path shape size margin bg_color
              fg_color glow_color glow_blur tw th))
    as [[_ ->]|(l1 & ev & l2 & cls & msg & _ & _ & _ & ->)]; cbn [snd].
  - apply no_shape_error_Return.
  - by intros e' [= <-].
Qed.

Lemma parse_args_valid_shape cl args :
  parse_args cl = Return args → valid_shape (shape args) = true.
Proof.
  unfold parse_args.
  intros (s & Hs & [= <-])%rbind_Return. cbn [shape].
  destruct (cl_shape cl) as [s'|]; [|by injection Hs as <-].
  unfold check_shape_choice, shape_choices in Hs. cbn [existsb] in Hs.
  rewrite orb_false_r in Hs. unfold valid_shape.
  destruct (String.eqb s' "circle" || String.eqb s' "square") eqn:Hok; [|discriminate].
  by injection Hs as <-.
Qed.

Lemma parse_args_no_shape_error cl : no_shape_error (parse_args cl).
Proof.
  unfold parse_args. apply no_shape_error_bind; [|intros ?; apply no_shape_error_Return].
  unfold check_shape_choice. no_shape_error_cases.
Qed.

(** X16. No run of [main] ends in the unsupported-shape error of
    [build_avatar]: the command line parser lets only the two shapes
    through, and no other step raises that error, so that branch is never
    taken from the command line. *)
Theorem main_never_unsupported_shape (w : World) (cl : CommandLine) (s : string) :
  (main w cl).2 ≠ Raise (ValueError "Unsupported shape: " s) ∧
  (∀ args, parse_args cl = Return args →
     shape args = "circle" ∨ shape args = "square").
Proof.
  split.
  - intros Hrun.
    assert (Hno : no_shape_error (main w cl).2); [|discriminate (Hno _ Hrun)].
    unfold main.
    pose proof (parse_args_valid_shape cl) as Hshape.
    pose proof (parse_args_no_shape_error cl) as Hargs.
    destruct (parse_args cl) as [args|e]; [|intros e' [= <-]; by apply Hargs].
    rewrite io_bind_lift. cbv beta zeta. specialize (Hshape args eq_refl).
    apply no_shape_error_io_bind; [apply parse_features_loop_no_shape_error|intros feats].
    apply no_shape_error_io_bind.
    { destruct (path_exists w (font args)); [apply no_shape_error_Return|].
      by intros e [= <-]. }
    intros _.
    do 3 (apply no_shape_error_io_bind; [apply parse_color_no_shape_error|intros ?]).
    apply no_shape_error_io_bind; [by apply build_avatar_no_shape_error|].
    intros [font_px names]. apply no_shape_error_Return.
  - intros args Hargs%parse_args_valid_shape. unfold valid_shape in Hargs.
    apply orb_true_iff in Hargs as [H|H]; apply String.eqb_eq in H; auto.
Qed.

(** ** The colours [main] draws with *)

Lemma parse_color_alpha value alpha c : parse_color value alpha = Return c → c.2 = alpha.
Proof.
  unfold parse_color. cbv zeta. case_match; [discriminate|].
  by intros (r & _ & (g & _ & (b & _ & [= <-])%rbind_Return)%rbind_Return)%rbind_Return.
Qed.

(** X17. Whatever [main] draws, it draws on a canvas of one of the two
    shapes with an opaque background colour and an opaque text colour; a
    glow layer is pasted only with an alpha between 1 and 255, the value of
    [--glow-alpha] clamped to that range, and a positive blur radius. *)
Theorem main_colours (w : World) (cl : CommandLine) :
  (∀ shape size margin c, NewCanvas shape size margin c ∈ (main w cl).1 →
     (shape = "circle" ∨ shape = "square") ∧ c.2 = 255) ∧
  (∀ x y c, PasteForeground x y c ∈ (main w cl).1 → c.2 = 255) ∧
  (∀ x y c blur, PasteGlow x y c blur ∈ (main w cl).1 →
     1 ≤ c.2 ≤ 255 ∧ PyFloat.ltb PyFloat.zero blur = true ∧
     ∃ args, parse_args cl = Return args ∧
       c.2 = Z.max 0 (Z.min 255 (glow_alpha args)) ∧ blur = glow_blur args).
Proof.
  destruct (main_not_configured w cl)
    as [(args & feats & bg_c & fg_c & glow_c & Hcfg)|[Hnil _]].
  2: { rewrite Hnil. repeat split; intros; by apply not_elem_of_nil in H. }
  pose proof Hcfg as (Hargs & _ & _ & Hbg%parse_color_alpha & Hfg%parse_color_alpha &
                      Hglow%parse_color_alpha).
  assert (Hev : ∀ ev, ev ∈ (main w cl).1 → rendering_event ev = false →
            (∃ o p f g, ev = PrintSummary o p f g) ∨
            (valid_shape (shape args) = true ∧
             ∃ tw th, ev ∈ drawing_events (output args) (shape args) (size args)
                             (margin args) bg_c fg_c glow_c (glow_blur args) tw th)).
  { intros ev Hin Hev. rewrite (main_configured _ _ _ _ _ _ _ Hcfg) in Hin. cbv zeta in Hin.
    pose proof (build_avatar_drawing w (font args) (output args) (text args) feats
                  (shape args) (size args) (margin args) bg_c fg_c glow_c (glow_blur args)
                  (fit_width_ratio args) (fit_height_ratio args) ev) as Hdraw.
    destruct (build_avatar _ _ _ _ _ _ _ _ _ _ _ _ _ _) as [tr [[font_px names]|e]];
      cbn [fst snd] in *; [|right; by apply Hdraw].
    apply elem_of_app in Hin as [Hin|Hin]; [right; by apply Hdraw|].
    apply list_elem_of_singleton in Hin. left. by eauto. }
  split; [|split].
  - intros shape size margin c [(? & ? & ? & ? & ?)|[Hshape (tw & th & Hin)]]%Hev;
      [discriminate| |done].
    apply drawing_events_elem in Hin as [H|[[_ H]|[H|[H|H]]]]; try discriminate H.
    injection H as -> _ _ ->. split; [|done].
    unfold valid_shape in Hshape.
    apply orb_true_iff in Hshape as [H|H]; apply String.eqb_eq in H; auto.
  - intros x y c [(? & ? & ? & ? & ?)|[_ (tw & th & Hin)]]%Hev; [discriminate| |done].
    apply drawing_events_elem in Hin as [H|[[_ H]|[H|[H|H]]]]; try discriminate H.
    by injection H as _ _ ->.
  - intros x y c blur [(? & ? & ? & ? & ?)|[_ (tw & th & Hin)]]%Hev; [discriminate| |done].
    apply drawing_events_elem in Hin as [H|[[Hc H]|[H|[H|H]]]]; try discriminate H.
    injection H as _ _ -> ->.
    apply andb_true_iff in Hc as [Hblur Halpha%Z.ltb_lt].
    split; [lia|]. split; [done|]. by exists args.
Qed.

Lemma main_colours_witness :
  ∃ x y c blur,
    (main demo_world (demo_command_line "A B")).1 !! 24%nat = Some (PasteGlow x y c blur) ∧
    1 ≤ c.2 ≤ 255.
Proof.
  destruct (main_colours demo_world (demo_command_line "A B")) as (_ & _ & Hglow).
  destruct ((main demo_world (demo_command_line "A B")).1 !! 24%nat)
    as [[| | | |x y c blur| | | |]|] eqn:Hev; try (vm_compute in Hev; discriminate Hev).
  exists x, y, c, blur. split; [reflexivity|].
  apply list_elem_of_lookup_2 in Hev. by destruct (Hglow x y c blur Hev) as [Halpha _].
Defined.
